(** * Fermi estimation by Monte Carlo sampling: a model of [fermi.py]

    The program reads an arithmetic expression, replaces every numeric
    literal and every range [low,high] by a placeholder [var0], [var1], ...,
    draws a sample array for each placeholder, evaluates the rewritten
    expression over the arrays with Python's [eval], and prints summary
    statistics of the resulting array.

    The model keeps the structure of the source file:
    - [Re] is the backtracking matcher behind [re.sub] and [re.fullmatch],
      with ordered alternatives, greedy quantifiers and capture groups;
    - [parse_expression], [generate_samples], [evaluate_expression] and
      [unsafe_main] follow the functions of the same name;
    - the arithmetic of Python's [float] is an interface ([Numeric]) with two
      instances: [binary64], the IEEE 754 double precision numbers that
      CPython computes with, and [exact], the real numbers, which the
      program does not compute with and which serve to compare the formulas
      of the program with those of the specification, where no rounding is;
    - what numpy, scipy and the [eval] builtin do is an interface as well
      ([Sampling], [Evaluation]): a sampler returns an array or raises an
      exception, and [eval] returns an object, raises an exception or leaves
      the interpreter; the global random generator of numpy is a state of
      type [G] threaded through the run;
    - the reductions [np.mean], [np.std] and [np.percentile] are computed as
      numpy computes them in the arithmetic of the array.

    Characters are code points below 256. *)

From Stdlib Require Import Bool String Ascii List Arith ZArith NArith Lia.
From Stdlib Require Import DecimalString.
From Stdlib Require DecimalNat DecimalN DecimalFacts.
From Stdlib Require Import Floats.SpecFloat.
From Stdlib Require Import Reals Lra Permutation.
Import ListNotations.

Set Implicit Arguments.

(** ** Text *)

Definition str := list ascii.

Definition text (s : string) : str := list_ascii_of_string s.

Definition ascii_in (set : str) (c : ascii) : bool :=
  existsb (Ascii.eqb c) set.

(** [',' in expression] *)
Definition contains (c : ascii) (s : str) : bool := existsb (Ascii.eqb c) s.

(** [expression.replace('^', '**')] *)
Fixpoint replace_caret (s : str) : str :=
  match s with
  | [] => []
  | c :: s' =>
      if Ascii.eqb c "^" then "*"%char :: "*"%char :: replace_caret s'
      else c :: replace_caret s'
  end.

(** ** Regular expressions as Python's [re] module runs them *)

Module Re.

(** The fragment of the pattern language that the source uses.  A starred
    item is always a single character class there ([\d+], [\s*]). *)
Inductive regex : Type :=
| Eps
| Cls (p : ascii -> bool)
| Seq (r1 r2 : regex)
| Alt (r1 r2 : regex)
| Opt (r : regex)
| Star (p : ascii -> bool)
| Group (i : nat) (r : regex).

Definition Plus (p : ascii -> bool) : regex := Seq (Cls p) (Star p).
Definition Chr (c : ascii) : regex := Cls (Ascii.eqb c).
Definition OneOf (set : string) : regex := Cls (ascii_in (text set)).

(** The strings a pattern denotes, whatever the search order. *)
Inductive matches : regex -> str -> Prop :=
| M_eps : matches Eps []
| M_cls p c : p c = true -> matches (Cls p) [c]
| M_seq r1 r2 s1 s2 :
    matches r1 s1 -> matches r2 s2 -> matches (Seq r1 r2) (s1 ++ s2)
| M_alt_l r1 r2 s : matches r1 s -> matches (Alt r1 r2) s
| M_alt_r r1 r2 s : matches r2 s -> matches (Alt r1 r2) s
| M_opt_none r : matches (Opt r) []
| M_opt_some r s : matches r s -> matches (Opt r) s
| M_star_nil p : matches (Star p) []
| M_star_cons p c s :
    p c = true -> matches (Star p) s -> matches (Star p) (c :: s)
| M_group i r s : matches r s -> matches (Group i r) s.

(** A pattern without capture groups. *)
Fixpoint group_free (r : regex) : bool :=
  match r with
  | Eps | Cls _ | Star _ => true
  | Seq r1 r2 | Alt r1 r2 => group_free r1 && group_free r2
  | Opt r1 => group_free r1
  | Group _ _ => false
  end.

(** Captured groups, by group number. *)
Definition groups := list (nat * str).

Fixpoint group (i : nat) (g : groups) : option str :=
  match g with
  | [] => None
  | (j, s) :: g' => if Nat.eqb i j then Some s else group i g'
  end.

(** What was read between the position [s] and the later position [s']. *)
Definition consumed (s s' : str) : str := firstn (length s - length s') s.

Section Exec.
Variable A : Type.

(** Greedy star: as many characters of the class as possible first, one
    fewer each time the rest of the pattern fails. *)
Fixpoint star (p : ascii -> bool) (s : str) (k : str -> option A) : option A :=
  match s with
  | c :: s' =>
      if p c then
        match star p s' k with
        | Some x => Some x
        | None => k s
        end
      else k s
  | [] => k []
  end.

(** The matcher in continuation-passing style: [k] is the rest of the
    pattern, and its failure makes the matcher try its next choice. *)
Fixpoint exec (r : regex) (s : str) (g : groups)
    (k : str -> groups -> option A) : option A :=
  match r with
  | Eps => k s g
  | Cls p =>
      match s with
      | c :: s' => if p c then k s' g else None
      | [] => None
      end
  | Seq r1 r2 => exec r1 s g (fun s1 g1 => exec r2 s1 g1 k)
  | Alt r1 r2 =>
      match exec r1 s g k with
      | Some x => Some x
      | None => exec r2 s g k
      end
  | Opt r1 =>
      match exec r1 s g k with
      | Some x => Some x
      | None => k s g
      end
  | Star p => star p s (fun s1 => k s1 g)
  | Group i r1 =>
      exec r1 s g (fun s1 g1 => k s1 ((i, consumed s s1) :: g1))
  end.

End Exec.

(** [pattern.match(s)]: the first match at the start of [s], as the matched
    text (group 0), the captured groups and the text after the match. *)
Definition match_prefix (r : regex) (s : str) : option (str * groups * str) :=
  exec r s [] (fun s' g => Some (consumed s s', g, s')).

(** [re.fullmatch(pattern, s)]: the match has to reach the end of [s]. *)
Definition fullmatch (r : regex) (s : str) : option groups :=
  exec r s [] (fun s' g => match s' with [] => Some g | _ => None end).

Section Sub.
Variable St : Type.
Variable r : regex.
(** The replacement callback; it may update a state of its own. *)
Variable repl : str -> St -> str * St.

(** [re.sub(pattern, repl, s)] for a pattern that matches no empty string:
    scan from the left, replace each match and go on behind it, copy every
    character at which nothing matches.  [fuel] bounds the number of steps
    and [length s] is always enough. *)
Fixpoint sub_loop (fuel : nat) (s : str) (st : St) : str * St :=
  match fuel with
  | O => (s, st)
  | S fuel' =>
      match s with
      | [] => ([], st)
      | c :: s' =>
          match match_prefix r s with
          | Some (c0 :: m, _, rest) =>
              let (out, st1) := repl (c0 :: m) st in
              let (out', st2) := sub_loop fuel' rest st1 in
              (out ++ out', st2)
          | _ =>
              let (out', st1) := sub_loop fuel' s' st in
              (c :: out', st1)
          end
      end
  end.

Definition sub (s : str) (st : St) : str * St := sub_loop (length s) s st.

End Sub.

End Re.

Import Re.

(** ** The patterns of [parse_expression] *)

(** [\d] *)
Definition is_digit (c : ascii) : bool :=
  let n := nat_of_ascii c in (48 <=? n) && (n <=? 57).

(** [\s]: the white space of [str.isspace] among the code points below 256. *)
Definition is_space (c : ascii) : bool :=
  let n := nat_of_ascii c in
  ((9 <=? n) && (n <=? 13)) || ((28 <=? n) && (n <=? 32))
  || (n =? 133) || (n =? 160).

(** The characters that a number is made of. *)
Definition number_char (c : ascii) : bool :=
  is_digit c || ascii_in (text "-+.eE") c.

(** [-?\d+(?:\.\d+)?(?:[eE][-+]?\d+)?] *)
Definition number_pattern : regex :=
  Seq (Opt (Chr "-"))
 (Seq (Plus is_digit)
 (Seq (Opt (Seq (Chr ".") (Plus is_digit)))
      (Opt (Seq (OneOf "eE") (Seq (Opt (OneOf "-+")) (Plus is_digit)))))).

(** [({n})\s*,\s*({n})], the template of the range around the pattern [n] of
    its bounds; [i] and [j] are the numbers of its two groups. *)
Definition range_of (n : regex) (i j : nat) : regex :=
  Seq (Group i n)
 (Seq (Star is_space)
 (Seq (Chr ",")
 (Seq (Star is_space)
      (Group j n)))).

Definition range_with (i j : nat) : regex := range_of number_pattern i j.

Definition range_pattern : regex := range_with 1 2.

(** [((number)\s*,\s*(number)|number)]: inside the outer group the groups of
    the range are the second and the third. *)
Definition token_pattern : regex :=
  Group 1 (Alt (range_with 2 3) number_pattern).

(** ** Floating-point numbers

    What the program asks of Python's [float]: conversion of a decimal
    literal, the four operations, square root, comparisons and rounding down
    to an integer.  [of_decimal neg m e] is the float nearest to
    [(-1)^neg * m * 10^e]. *)
Class Numeric (F : Type) : Type := {
  of_decimal : bool -> N -> Z -> F;
  fadd : F -> F -> F;
  fsub : F -> F -> F;
  fmul : F -> F -> F;
  fdiv : F -> F -> F;
  fsqrt : F -> F;
  feqb : F -> F -> bool;
  fltb : F -> F -> bool;
  fleb : F -> F -> bool;
  ffloor : F -> Z
}.

Declare Scope py_scope.
Delimit Scope py_scope with py.
Notation "x + y" := (fadd x y) : py_scope.
Notation "x - y" := (fsub x y) : py_scope.
Notation "x * y" := (fmul x y) : py_scope.
Notation "x / y" := (fdiv x y) : py_scope.
Notation "x == y" := (feqb x y) (at level 70, no associativity) : py_scope.
Notation "x > y" := (fltb y x) : py_scope.
Notation "x <= y" := (fleb x y) : py_scope.

(** An [int] that meets a [float] in an operation or a comparison. *)
Definition of_int {F} `{Numeric F} (n : N) : F := of_decimal false n 0.
Definition of_count {F} `{Numeric F} (n : nat) : F := of_int (N.of_nat n).

(** The constant [2.576] of the source. *)
Definition z_score {F} `{Numeric F} : F := of_decimal false 2576 (-3).

(** *** [float(s)] on a decimal literal *)

Definition digit_value (c : ascii) : N := N.of_nat (nat_of_ascii c - 48).

Definition digits_value (ds : str) : N :=
  fold_left (fun acc c => (10 * acc + digit_value c)%N) ds 0%N.

(** The longest prefix of [s] in the class [p], and what follows it. *)
Fixpoint span (p : ascii -> bool) (s : str) : str * str :=
  match s with
  | c :: s' =>
      if p c then let (l, r) := span p s' in (c :: l, r) else ([], s)
  | [] => ([], [])
  end.

Definition read_sign (s : str) : bool * str :=
  match s with
  | c :: s' =>
      if Ascii.eqb c "-" then (true, s')
      else if Ascii.eqb c "+" then (false, s')
      else (false, s)
  | [] => (false, [])
  end.

(** The exponent part: nothing, or [e] or [E], a sign or none, digits. *)
Definition read_exponent (s : str) : option Z :=
  match s with
  | [] => Some 0%Z
  | c :: s' =>
      if ascii_in (text "eE") c then
        let (neg, s1) := read_sign s' in
        match span is_digit s1 with
        | ((_ :: _) as ds, []) =>
            let e := Z.of_N (digits_value ds) in
            Some (if neg then (- e)%Z else e)
        | _ => None
        end
      else None
  end.

(** [float(s)]: sign, integer digits, fraction, exponent.  [None] is the
    [ValueError] of Python; it also answers the spellings that [float]
    accepts and [number_pattern] cannot produce (white space, underscores,
    [inf], [nan], a missing integer part), which never reach this function. *)
Definition py_float {F} `{Numeric F} (s : str) : option F :=
  let (neg, s0) := read_sign s in
  match span is_digit s0 with
  | ([], _) => None
  | (int_digits, s1) =>
      let (frac_digits, s2) :=
        match s1 with
        | c :: s1' =>
            if Ascii.eqb c "." then span is_digit s1' else ([], s1)
        | [] => ([], [])
        end in
      match read_exponent s2 with
      | Some e =>
          Some (of_decimal neg (digits_value (int_digits ++ frac_digits))
                  (e - Z.of_nat (length frac_digits)))
      | None => None
      end
  end.

(** ** Dictionaries

    A Python [dict] keeps its keys in insertion order; assigning to a key
    that is present replaces the value in place. *)

Fixpoint str_eqb (s t : str) : bool :=
  match s, t with
  | [], [] => true
  | c :: s', d :: t' => Ascii.eqb c d && str_eqb s' t'
  | _, _ => false
  end.

Definition dict (V : Type) := list (str * V).

Fixpoint dict_get {V} (k : str) (d : dict V) : option V :=
  match d with
  | [] => None
  | (k', v) :: d' => if str_eqb k k' then Some v else dict_get k d'
  end.

Fixpoint dict_set {V} (k : str) (v : V) (d : dict V) : dict V :=
  match d with
  | [] => [(k, v)]
  | (k', v') :: d' =>
      if str_eqb k k' then (k, v) :: d' else (k', v') :: dict_set k v d'
  end.

(** [d.update(other)] *)
Definition dict_update {V} (d other : dict V) : dict V :=
  fold_left (fun acc kv => dict_set (fst kv) (snd kv) acc) other d.

Definition keys {V} (d : dict V) : list str := map fst d.

(** ** Errors

    The ways a run ends without statistics.  Each error of the program prints
    one [fermi: error: ...] line and leaves with status 1; so does
    [LibraryError], an exception raised inside numpy or scipy, which only the
    handler of [main] catches.  [SystemExit] is raised by the expression that
    [eval] runs: it is no [Exception], no handler of the program catches it,
    and the interpreter leaves with its status and without a line. *)

Inductive distribution : Type := LogNormal | TruncatedNormal.

Inductive error (F : Type) : Type :=
| RangeOrderError (a b : F) (token : str)
| MalformedRangeError
| InvalidDistributionError (d : distribution) (var_name : str)
| ExpressionEvaluationError
| NotVectorizedError
| ValueError
| LibraryError
| SystemExit (status : Z).

Arguments MalformedRangeError {F}.
Arguments InvalidDistributionError {F} d var_name.
Arguments ExpressionEvaluationError {F}.
Arguments NotVectorizedError {F}.
Arguments ValueError {F}.
Arguments LibraryError {F}.
Arguments SystemExit {F} status.

Inductive result (F A : Type) : Type :=
| Ok (x : A)
| Err (e : error F).

Arguments Ok {F A} x.
Arguments Err {F A} e.

(** ** [parse_expression] *)

(** A literal of the expression: a [float], or a tuple of two. *)
Inductive value (F : Type) : Type :=
| Scalar (v : F)
| Range (a b : F).

(** [f'var{var_index}'] *)
Definition var_name (var_index : nat) : str :=
  text "var" ++ text (NilZero.string_of_uint (Nat.to_uint var_index)).

(** The callback of [re.sub]: its state is [var_index] and [tokens]. *)
Definition replace_token (token : str) (st : nat * list (str * str))
  : str * (nat * list (str * str)) :=
  let (var_index, tokens) := st in
  (var_name var_index,
   (S var_index, tokens ++ [(var_name var_index, token)])).

Section Parse.
Context {F : Type} `{Numeric F}.
Local Open Scope py_scope.

(** The body of the loop over [tokens]: the value of one token. *)
Definition token_value (token : str) : result F (value F) :=
  match fullmatch range_pattern token with
  | Some range_match =>
      match group 1 range_match, group 2 range_match with
      | Some s1, Some s2 =>
          match py_float s1, py_float s2 with
          | Some a, Some b =>
              if a > b then Err (RangeOrderError a b token)
              else Ok (Range a b)
          | _, _ => Err ValueError
          end
      | _, _ => Err ValueError
      end
  | None =>
      match py_float token with
      | Some v => Ok (Scalar v)
      | None => Err ValueError
      end
  end.

Fixpoint build_var_values (tokens : list (str * str))
    (var_values : dict (value F)) : result F (dict (value F)) :=
  match tokens with
  | [] => Ok var_values
  | (name, token) :: tokens' =>
      match token_value token with
      | Ok v => build_var_values tokens' (dict_set name v var_values)
      | Err e => Err e
      end
  end.

(** The rewritten expression and the tokens, in the order of the scan. *)
Definition substitute (expr : str) : str * list (str * str) :=
  let (expression, st) := sub token_pattern replace_token expr (0, []) in
  (expression, snd st).

Definition parse_expression (expr : str) : result F (str * dict (value F)) :=
  let (expression, tokens) := substitute expr in
  match build_var_values tokens [] with
  | Err e => Err e
  | Ok var_values =>
      if contains "," expression then Err MalformedRangeError
      else Ok (expression, var_values)
  end.

End Parse.

(** ** The two arithmetics *)

(** *** IEEE 754 double precision, round to nearest even *)

Module Binary64.

Definition prec : Z := 53.
Definition emax : Z := 1024.

Definition float := spec_float.

(** The float nearest to [m * 10^e]: exact integer arithmetic, then one
    rounding, as the correctly rounded [float()] of CPython. *)
Definition of_decimal (neg : bool) (m : N) (e : Z) : float :=
  match m with
  | N0 => S754_zero neg
  | Npos p =>
      if (0 <=? e)%Z then
        binary_normalize prec emax (cond_Zopp neg (Zpos p * 10 ^ e)) 0 neg
      else
        let '(q, e', l) :=
          SFdiv_core_binary prec emax (Zpos p) 0 (10 ^ (- e)) 0 in
        binary_round_aux prec emax neg q e' l
  end.

(** A zero, a subnormal or a normal number: no infinity and no NaN. *)
Definition is_finite (x : float) : bool :=
  match x with
  | S754_zero _ => true
  | S754_finite _ m e => SpecFloat.bounded prec emax m e
  | _ => false
  end.

(** [0.0 + x] for a finite [x]: the number itself, and a zero without its
    sign. *)
Definition plus_zero (x : float) : float :=
  match x with
  | S754_zero _ => S754_zero false
  | _ => x
  end.

(** A positive number with the exponent [e] and a mantissa from [lo] up to
    [hi], [hi] excluded. *)
Definition between (lo hi e : Z) (x : float) : bool :=
  match x with
  | S754_finite false m e' => (e' =? e)%Z && (lo <=? Zpos m)%Z && (Zpos m <? hi)%Z
  | _ => false
  end.

(** [math.floor] of a finite float; 0 stands for the others. *)
Definition floor (x : float) : Z :=
  match x with
  | S754_finite s m e =>
      let z := cond_Zopp s (Zpos m) in
      if (0 <=? e)%Z then Z.shiftl z e else Z.shiftr z (- e)
  | _ => 0%Z
  end.

End Binary64.

#[export] Instance binary64 : Numeric Binary64.float := {
  of_decimal := Binary64.of_decimal;
  fadd := SFadd Binary64.prec Binary64.emax;
  fsub := SFsub Binary64.prec Binary64.emax;
  fmul := SFmul Binary64.prec Binary64.emax;
  fdiv := SFdiv Binary64.prec Binary64.emax;
  fsqrt := SFsqrt Binary64.prec Binary64.emax;
  feqb := SFeqb;
  fltb := SFltb;
  fleb := SFleb;
  ffloor := Binary64.floor
}.

(** *** Real numbers: no rounding, no infinities

    Not the arithmetic of the program: the one in which the formulas of the
    specification are read. *)

Module Exact.

Definition of_decimal (neg : bool) (m : N) (e : Z) : R :=
  ((if neg then -1 else 1) * IZR (Z.of_N m) * powerRZ 10 e)%R.

Definition eqb (x y : R) : bool := if Req_dec_T x y then true else false.
Definition ltb (x y : R) : bool := if Rlt_dec x y then true else false.
Definition leb (x y : R) : bool := if Rle_dec x y then true else false.

End Exact.

#[export] Instance exact : Numeric R := {
  of_decimal := Exact.of_decimal;
  fadd := Rplus;
  fsub := Rminus;
  fmul := Rmult;
  fdiv := Rdiv;
  fsqrt := sqrt;
  feqb := Exact.eqb;
  fltb := Exact.ltb;
  fleb := Exact.leb;
  ffloor := Int_part
}.

(** ** numpy, scipy and [eval] *)

(** The objects that the evaluation environment holds or returns: the numpy
    module, the empty dictionary given as [__builtins__], a one-dimensional
    array of doubles, as the samplers make them and as arithmetic on them
    gives, and any object that is no array. *)
Inductive pyobj (F : Type) : Type :=
| NumpyModule
| EmptyDict
| NdArray (a : list F)
| OtherObject.

Arguments NumpyModule {F}.
Arguments EmptyDict {F}.
Arguments OtherObject {F}.

(** The functions of the libraries that the model does not compute.  The
    samplers read and advance the state [G] of numpy's global random
    generator, and they raise an exception for parameters that they refuse
    ([None]: scipy does so for a scale that is infinite).
    - [np_log x] is [np.log(x)];
    - [np_random_lognormal mean sigma size] is
      [np.random.lognormal(mean=, sigma=, size=)];
    - [truncnorm_rvs a b loc scale size] is
      [truncnorm.rvs(a, b, loc=, scale=, size=)];
    - [np_add_reduce xs] is [np.add.reduce(xs)] on eight values or more,
      which numpy adds pairwise, in blocks of its own. *)
Class Sampling (F G : Type) : Type := {
  np_log : F -> F;
  np_random_lognormal : F -> F -> nat -> G -> option (list F) * G;
  truncnorm_rvs : F -> F -> F -> F -> nat -> G -> option (list F) * G;
  np_add_reduce : list F -> F
}.

(** How [eval(expression, globals)] ends: with an object; with an exception
    that [except Exception] catches; or with one that it does not catch,
    [SystemExit], on which the interpreter leaves with the status. *)
Inductive outcome (F : Type) : Type :=
| Returned (obj : pyobj F)
| Raised
| Exited (status : Z).

Arguments Raised {F}.
Arguments Exited {F} status.

(** [py_eval expression globals] is the builtin [eval(expression, globals)].
    The expression may call into numpy, so that the evaluation has the
    generator in reach as well. *)
Class Evaluation (F G : Type) : Type := {
  py_eval : str -> dict (pyobj F) -> G -> outcome F * G
}.

(** [np.full(size, x)] *)
Definition np_full {F} (size : nat) (x : F) : list F := repeat x size.

(** ** The reductions of numpy *)

Section Statistics.
Context {F G : Type} `{Numeric F} `{Sampling F G}.
Local Open Scope py_scope.

(** [np.sum(xs)]: the reduction starts from the identity of the addition,
    [0.0]; fewer than eight values are added to it one after the other. *)
Definition np_sum (xs : list F) : F :=
  if (length xs <? 8)%nat then fold_left fadd xs (of_int 0)
  else np_add_reduce xs.

(** [np.mean(xs)]: the sum by the count. *)
Definition np_mean (xs : list F) : F := np_sum xs / of_count (length xs).

(** [np.std(xs)] with its default [ddof=0]: the deviations from the mean,
    their squares, the sum of these by the count, and the root of it. *)
Definition np_std (xs : list F) : F :=
  let arrmean := np_sum xs / of_count (length xs) in
  let x := map (fun v => v - arrmean) xs in
  let x := map (fun v => v * v) x in
  fsqrt (np_sum x / of_count (length xs)).

(** [np.isnan(x)]: only a NaN differs from itself. *)
Definition np_isnan (x : F) : bool := negb (x == x).

(** The NaN that a quotient of zeros is. *)
Definition np_nan : F := of_int 0 / of_int 0.

Fixpoint insert_sorted (x : F) (l : list F) : list F :=
  match l with
  | [] => [x]
  | y :: l' => if x <= y then x :: l else y :: insert_sorted x l'
  end.

(** The values in ascending order, for an array without NaN: what
    [np.partition] leaves at the positions that the percentile reads. *)
Definition np_sort (xs : list F) : list F := fold_right insert_sorted [] xs.

(** The interpolation of [np.percentile] between two neighbours [a] and [b]
    at the fraction [t]: from [a] upwards, and from [b] downwards when [t]
    is a half or more. *)
Definition lerp (a b t : F) : F :=
  let diff_b_a := b - a in
  if of_decimal false 5 (-1) <= t then b - diff_b_a * (of_int 1 - t)
  else a + diff_b_a * t.

(** [np.percentile(xs, q)] with its default method, [linear].  The position
    is [(n - 1) * (q / 100)] among the ranked values; a position at the last
    index or beyond reads the last value on both sides, through the index
    [-1], from which the fraction is counted as well; a position before it
    reads the two neighbours of its integer part.  An array holding a NaN
    gives NaN, and an empty array raises [IndexError] ([None]). *)
Definition np_percentile (xs : list F) (q : N) : option F :=
  match length xs with
  | O => None
  | S last =>
      if existsb np_isnan xs then Some np_nan
      else
        let arr := np_sort xs in
        let virtual_index := of_count last * (of_int q / of_int 100) in
        if of_count last <= virtual_index then
          let x := nth last arr (of_int 0) in
          Some (lerp x x (virtual_index - of_decimal true 1 0))
        else
          let previous := Z.to_nat (ffloor virtual_index) in
          let next := (previous + 1)%nat in
          let gamma := virtual_index - of_count previous in
          Some (lerp (nth previous arr (of_int 0)) (nth next arr (of_int 0))
                  gamma)
  end.

End Statistics.

(** ** [generate_samples] *)

Section Pipeline.
Context {F G : Type} `{Numeric F} `{Sampling F G} `{Evaluation F G}.
Local Open Scope py_scope.

(** The parameters of the two distributions, as the source computes them. *)
Definition lognormal_sigma (a b : F) : F :=
  (np_log b - np_log a) / (of_int 2 * z_score).
Definition lognormal_mu (a b : F) : F :=
  (np_log a + np_log b) / of_int 2.
Definition normal_mu (a b : F) : F := (a + b) / of_int 2.
Definition normal_sigma (a b : F) : F := (b - a) / (of_int 2 * z_score).

(** The body of the loop over [var_values.items()]: the array of one
    placeholder, or the error that ends the run, which is the exception of
    the library when a sampler raises one. *)
Definition sample_value (var_name : str) (v : value F) (num_samples : nat)
    (g : G) : result F (list F) * G :=
  match v with
  | Range a b =>
      if a == b then (Ok (np_full num_samples a), g)
      else if a > of_int 0 then
        let sigma := lognormal_sigma a b in
        if sigma <= of_int 0 then
          (Err (InvalidDistributionError LogNormal var_name), g)
        else
          let mu := lognormal_mu a b in
          match np_random_lognormal mu sigma num_samples g with
          | (Some xs, g') => (Ok xs, g')
          | (None, g') => (Err LibraryError, g')
          end
      else
        let mu := normal_mu a b in
        let sigma := normal_sigma a b in
        if sigma <= of_int 0 then
          (Err (InvalidDistributionError TruncatedNormal var_name), g)
        else
          let lower := (a - mu) / sigma in
          let upper := (b - mu) / sigma in
          match truncnorm_rvs lower upper mu sigma num_samples g with
          | (Some xs, g') => (Ok xs, g')
          | (None, g') => (Err LibraryError, g')
          end
  | Scalar x => (Ok (np_full num_samples x), g)
  end.

Fixpoint sample_items (items : dict (value F)) (num_samples : nat)
    (samples : dict (list F)) (g : G) : result F (dict (list F)) * G :=
  match items with
  | [] => (Ok samples, g)
  | (var_name, v) :: items' =>
      match sample_value var_name v num_samples g with
      | (Ok xs, g') =>
          sample_items items' num_samples (dict_set var_name xs samples) g'
      | (Err e, g') => (Err e, g')
      end
  end.

Definition generate_samples (var_values : dict (value F)) (num_samples : nat)
    (g : G) : result F (dict (list F)) * G :=
  sample_items var_values num_samples [] g.

(** ** [evaluate_expression] *)

Definition allowed_names (samples : dict (list F)) : dict (pyobj F) :=
  dict_update
    [(text "np", NumpyModule); (text "__builtins__", EmptyDict)]
    (map (fun kv => (fst kv, NdArray (snd kv))) samples).

Definition evaluate_expression (expression : str) (samples : dict (list F))
    (g : G) : result F (pyobj F) * G :=
  let expression := replace_caret expression in
  match py_eval expression (allowed_names samples) g with
  | (Returned obj, g') => (Ok obj, g')
  | (Raised, g') => (Err ExpressionEvaluationError, g')
  | (Exited status, g') => (Err (SystemExit status), g')
  end.

(** ** [unsafe_main] *)

Record statistics : Type := {
  mean : F;
  std_dev : F;
  ci_lower : F;
  ci_upper : F
}.

(** The four lines under [# Compute statistics].  On an empty array the
    mean and the deviation are NaN, and the percentile raises. *)
Definition compute_statistics (arr : list F) : result F statistics :=
  let mean := np_mean arr in
  let std_dev := np_std arr in
  match np_percentile arr 1 with
  | None => Err LibraryError
  | Some ci_lower =>
      match np_percentile arr 99 with
      | None => Err LibraryError
      | Some ci_upper =>
          Ok {| mean := mean; std_dev := std_dev;
                ci_lower := ci_lower; ci_upper := ci_upper |}
      end
  end.

(** The run, from the expression and the sample count of the command line
    to the statistics that are printed, or to the error. *)
Definition unsafe_main (expr : str) (num_samples : nat) (g : G)
  : result F statistics * G :=
  match parse_expression expr with
  | Err e => (Err e, g)
  | Ok (expression, var_values) =>
      match generate_samples var_values num_samples g with
      | (Err e, g1) => (Err e, g1)
      | (Ok samples, g1) =>
          match evaluate_expression expression samples g1 with
          | (Err e, g2) => (Err e, g2)
          | (Ok (NdArray arr), g2) => (compute_statistics arr, g2)
          | (Ok _, g2) => (Err NotVectorizedError, g2)
          end
      end
  end.

End Pipeline.

(** ** The printed line *)

(** [f"{x:.2f}"] on a double: the decimal notation with two digits behind
    the point of the nearest multiple of a hundredth, a tie going to the
    even one; a minus sign for a set sign bit, also before zero; [inf] and
    [nan] for the values that are no numbers. *)
Module FixedPoint.

(** [str(n)] for a natural number [n]. *)
Definition decimal (n : N) : str :=
  text (NilZero.string_of_uint (N.to_uint n)).

Definition digit (n : N) : ascii := ascii_of_N (48 + n).

(** The integer nearest to [m * 2^e * 100]. *)
Definition hundredths (m : positive) (e : Z) : N :=
  if (0 <=? e)%Z then Z.to_N (Zpos m * 2 ^ e * 100)
  else
    let d := (2 ^ (- e))%Z in
    let q := (Zpos m * 100 / d)%Z in
    let r := (Zpos m * 100 mod d)%Z in
    Z.to_N match (2 * r ?= d)%Z with
           | Lt => q
           | Gt => (q + 1)%Z
           | Eq => if Z.even q then q else (q + 1)%Z
           end.

(** [q] hundredths in decimal notation. *)
Definition fixed2 (q : N) : str :=
  decimal (q / 100)
  ++ "."%char :: digit (q mod 100 / 10) :: digit (q mod 10) :: [].

Definition sign (s : bool) : str := if s then text "-" else [].

Definition format_2f (x : spec_float) : str :=
  match x with
  | S754_nan => text "nan"
  | S754_infinity s => sign s ++ text "inf"
  | S754_zero s => sign s ++ text "0.00"
  | S754_finite s m e => sign s ++ fixed2 (hundredths m e)
  end.

(** The real number that a double stands for; zero for the others. *)
Definition value (x : spec_float) : R :=
  match x with
  | S754_finite s m e =>
      ((if s then -1 else 1) * IZR (Zpos m) * powerRZ 2 e)%R
  | _ => 0%R
  end.

End FixedPoint.

Class Formatting (F : Type) : Type := {
  format_2f : F -> str
}.

#[export] Instance binary64_formatting : Formatting Binary64.float := {
  format_2f := FixedPoint.format_2f
}.

(** [sep.join(l)] *)
Fixpoint join (sep : str) (l : list str) : str :=
  match l with
  | [] => []
  | [s] => s
  | s :: l' => s ++ sep ++ join sep l'
  end.

(** The options [-m], [-s] and [-c] of the command line. *)
Record arguments : Type := {
  args_mean : bool;
  args_std : bool;
  args_ci : bool
}.

Section Report.
Context {F : Type} `{Formatting F}.

(** The list [outputs] that the end of [unsafe_main] builds. *)
Definition outputs (args : arguments) (st : statistics (F := F))
  : list str :=
  if args_mean args || args_std args || args_ci args then
    (if args_mean args then [format_2f (mean st)] else [])
    ++ (if args_std args then [format_2f (std_dev st)] else [])
    ++ (if args_ci args
        then [format_2f (ci_lower st) ++ text ","
              ++ format_2f (ci_upper st)]
        else [])
  else
    [format_2f (mean st) ++ text " " ++ format_2f (std_dev st) ++ text " "
     ++ format_2f (ci_lower st) ++ text "," ++ format_2f (ci_upper st)].

(** [' '.join(outputs)], the line that is printed. *)
Definition printed_line (args : arguments) (st : statistics (F := F)) : str :=
  join (text " ") (outputs args st).

End Report.

(** ** The libraries in exact arithmetic

    What the samplers are without rounding; in double precision the draws of
    the libraries are these formulas with their rounding, their overflow and
    their NaN. *)

Module ExactLibrary.
Section Draws.
Variable G : Type.

(** [standard_normal size]: that many draws of the standard normal law. *)
Variable standard_normal : nat -> G -> list R * G.

(** [truncated_standard_normal a b size]: that many draws of the standard
    normal law conditioned on the interval from [a] to [b]. *)
Variable truncated_standard_normal : R -> R -> nat -> G -> list R * G.

(** From the documentation of numpy and scipy: a log-normal variate is the
    exponential of a normal variate of the given mean and deviation, and
    [truncnorm.rvs(a, b, loc, scale)] shifts and scales a standard normal
    variate truncated to [a, b], whose bounds are thus given in units of
    [scale] from [loc]. *)
Definition sampling : Sampling R G := {|
  np_log := ln;
  np_random_lognormal mean sigma size g :=
    let (zs, g') := standard_normal size g in
    (Some (map (fun z => exp (mean + sigma * z)%R) zs), g');
  truncnorm_rvs a b loc scale size g :=
    let (ts, g') := truncated_standard_normal a b size g in
    (Some (map (fun t => (loc + scale * t)%R) ts), g');
  np_add_reduce xs := fold_left Rplus xs 0%R
|}.

(** What the draws are, whatever the state of the generator. *)
Definition draws_sized : Prop :=
  (forall size g, length (fst (standard_normal size g)) = size) /\
  (forall a b size g,
      length (fst (truncated_standard_normal a b size g)) = size).

Definition draws_truncated : Prop :=
  forall a b size g, (a <= b)%R ->
    Forall (fun t => (a <= t <= b)%R)
      (fst (truncated_standard_normal a b size g)).

End Draws.

(** A generator without randomness: every normal draw is the median, every
    truncated draw the lower bound. *)
Definition still_normal (size : nat) (g : unit) : list R * unit :=
  (repeat 0%R size, g).
Definition still_truncated (a b : R) (size : nat) (g : unit)
  : list R * unit := (repeat a size, g).

Definition still : Sampling R unit := sampling still_normal still_truncated.

End ExactLibrary.

(** An evaluator that knows names only: the value of a name of the
    environment, and an exception for every other expression. *)
Definition lookup_only (F G : Type) : Evaluation F G := {|
  py_eval expression globals g :=
    match dict_get expression globals with
    | Some obj => (Returned obj, g)
    | None => (Raised, g)
    end
|}.

(** ** Notions used by the statements *)

(** *** The sizes that the samplers return *)

(** An array that a sampler returns has the size that was asked for. *)
Definition samplers_sized {F G} `{Sampling F G} : Prop :=
  (forall mean sigma size g xs g',
      np_random_lognormal mean sigma size g = (Some xs, g') ->
      length xs = size) /\
  (forall a b loc scale size g xs g',
      truncnorm_rvs a b loc scale size g = (Some xs, g') ->
      length xs = size).

(** *** Name resolution of [eval]

    An expression that is a placeholder name evaluates to the object bound
    to it in the globals, and leaves the generator alone. *)
Definition resolves_placeholders {F G} `{Evaluation F G} : Prop :=
  forall i (globals : dict (pyobj F)) g obj,
    dict_get (var_name i) globals = Some obj ->
    py_eval (var_name i) globals g = (Returned obj, g).

Section Notions.
Context {F G : Type} `{Numeric F} `{Sampling F G}.
Local Open Scope py_scope.

(** *** The bounds of a token that is a range *)
Definition range_bounds (token : str) : option (F * F) :=
  match fullmatch range_pattern token with
  | Some range_match =>
      match group 1 range_match, group 2 range_match with
      | Some s1, Some s2 =>
          match py_float s1, py_float s2 with
          | Some a, Some b => Some (a, b)
          | _, _ => None
          end
      | _, _ => None
      end
  | None => None
  end.

(** A token that is a range whose lower bound is greater than the upper. *)
Definition misordered (token : str) : bool :=
  match range_bounds token with
  | Some (a, b) => a > b
  | None => false
  end.

(** The first such token of a scan, if any. *)
Definition first_misordered (tokens : list (str * str)) : option (str * str) :=
  find (fun nt => misordered (snd nt)) tokens.

(** *** The test that guards the two distributions: the spread that the
    sampler computes for a range that is not degenerate is positive. *)
Definition spread_positive (v : value F) : bool :=
  match v with
  | Scalar _ => true
  | Range a b =>
      if a == b then true
      else if a > of_int 0 then negb (lognormal_sigma a b <= of_int 0)
      else negb (normal_sigma a b <= of_int 0)
  end.

(** *** The call that the sampler makes for a range raises no exception,
    whatever the size and the state of the generator. *)
Definition library_returns (v : value F) : Prop :=
  match v with
  | Scalar _ => True
  | Range a b =>
      if a == b then True
      else if a > of_int 0 then
        forall size g,
          fst (np_random_lognormal (lognormal_mu a b) (lognormal_sigma a b)
                 size g) <> None
      else
        let mu := normal_mu a b in
        let sigma := normal_sigma a b in
        forall size g,
          fst (truncnorm_rvs ((a - mu) / sigma) ((b - mu) / sigma) mu sigma
                 size g) <> None
  end.

End Notions.

(** *** The pieces of a rewritten expression *)

(** A character that is kept, or a token that a placeholder replaces. *)
Inductive piece : Type :=
| Kept (c : ascii)
| Replaced (token : str).

(** The text that the pieces come from. *)
Fixpoint source (ps : list piece) : str :=
  match ps with
  | [] => []
  | Kept c :: ps' => c :: source ps'
  | Replaced token :: ps' => token ++ source ps'
  end.

(** The text after the rewriting, the first placeholder being [var_index]. *)
Fixpoint rewritten (var_index : nat) (ps : list piece) : str :=
  match ps with
  | [] => []
  | Kept c :: ps' => c :: rewritten var_index ps'
  | Replaced _ :: ps' => var_name var_index ++ rewritten (S var_index) ps'
  end.

(** The placeholders with their tokens, in the order of the text. *)
Fixpoint placeholders (var_index : nat) (ps : list piece)
  : list (str * str) :=
  match ps with
  | [] => []
  | Kept _ :: ps' => placeholders var_index ps'
  | Replaced token :: ps' =>
      (var_name var_index, token) :: placeholders (S var_index) ps'
  end.

Definition is_literal (p : piece) : Prop :=
  match p with
  | Kept _ => True
  | Replaced token =>
      matches number_pattern token \/ matches range_pattern token
  end.

(** Where a token can begin: at a digit, and at a minus sign that stands
    before a digit. *)
Definition token_start (s : str) : bool :=
  match s with
  | c :: s' =>
      is_digit c
      || (Ascii.eqb c "-"
          && match s' with d :: _ => is_digit d | [] => false end)
  | [] => false
  end.

(** *** The statistics in the words of the specification *)

Module Spec.
Local Open Scope R_scope.






End Spec.

(** * Properties *)

(** ** Lists and text *)

Lemma str_eqb_eq (s t : str) : str_eqb s t = true <-> s = t.
Proof.
  revert t; induction s as [|c s IH]; intros [|d t]; simpl;
    try (split; [discriminate | discriminate]); try tauto.
  rewrite andb_true_iff, Ascii.eqb_eq, IH.
  split; [intros [-> ->]; reflexivity | intros E; inversion E; auto].
Qed.

Lemma str_eqb_refl (s : str) : str_eqb s s = true.
Proof. apply str_eqb_eq; reflexivity. Qed.

Lemma str_eqb_neq (s t : str) : str_eqb s t = false <-> s <> t.
Proof.
  rewrite <- str_eqb_eq. destruct (str_eqb s t); split; congruence.
Qed.

Lemma consumed_app (p s' : str) : consumed (p ++ s') s' = p.
Proof.
  unfold consumed. rewrite length_app, Nat.add_sub.
  rewrite firstn_app, Nat.sub_diag, firstn_all. simpl. apply app_nil_r.
Qed.

(** ** The matcher finds exactly the strings of the pattern *)

Module ReFacts.

Section Sound.
Variable A : Type.

Lemma star_sound p s (k : str -> option A) x :
  star p s k = Some x ->
  exists q s', matches (Star p) q /\ s = q ++ s' /\ k s' = Some x.
Proof.
  revert x; induction s as [|c s IH]; simpl; intros x E.
  - exists [], []. repeat split; [constructor | assumption].
  - destruct (p c) eqn:Pc.
    + destruct (star p s k) as [y|] eqn:Es.
      * injection E as <-. destruct (IH y eq_refl) as (q & s' & M & -> & K).
        exists (c :: q), s'. repeat split; [constructor; assumption | assumption].
      * exists [], (c :: s). repeat split; [constructor | assumption].
    + exists [], (c :: s). repeat split; [constructor | assumption].
Qed.

(** Whatever the matcher returns comes from its continuation, entered after
    a prefix that the pattern denotes. *)
Lemma exec_sound r : forall s g (k : str -> groups -> option A) x,
  exec r s g k = Some x ->
  exists q s' g', matches r q /\ s = q ++ s' /\ k s' g' = Some x.
Proof.
  induction r as [|p|r1 IH1 r2 IH2|r1 IH1 r2 IH2|r1 IH1|p|i r1 IH1];
    simpl; intros s g k x E.
  - exists [], s, g. repeat split; [constructor | assumption].
  - destruct s as [|c s]; [discriminate|].
    destruct (p c) eqn:Pc; [|discriminate].
    exists [c], s, g. repeat split; [constructor; assumption | assumption].
  - destruct (IH1 _ _ _ _ E) as (q1 & s1 & g1 & M1 & -> & E1).
    destruct (IH2 _ _ _ _ E1) as (q2 & s2 & g2 & M2 & -> & E2).
    exists (q1 ++ q2), s2, g2. rewrite <- app_assoc.
    repeat split; [constructor; assumption | assumption].
  - destruct (exec r1 s g k) as [y|] eqn:E1.
    + injection E as <-. destruct (IH1 _ _ _ _ E1) as (q & s' & g' & M & -> & K).
      exists q, s', g'. repeat split; [apply M_alt_l; assumption | assumption].
    + destruct (IH2 _ _ _ _ E) as (q & s' & g' & M & -> & K).
      exists q, s', g'. repeat split; [apply M_alt_r; assumption | assumption].
  - destruct (exec r1 s g k) as [y|] eqn:E1.
    + injection E as <-. destruct (IH1 _ _ _ _ E1) as (q & s' & g' & M & -> & K).
      exists q, s', g'. repeat split; [apply M_opt_some; assumption | assumption].
    + exists [], s, g. repeat split; [constructor | assumption].
  - destruct (star_sound _ _ _ E) as (q & s' & M & -> & K).
    exists q, s', g. repeat split; assumption.
  - destruct (IH1 _ _ _ _ E) as (q & s' & g' & M & -> & K).
    exists q, s', ((i, consumed (q ++ s') s') :: g').
    repeat split; [constructor; assumption | assumption].
Qed.

Lemma star_complete p q : matches (Star p) q ->
  forall s' (k : str -> option A), k s' <> None -> star p (q ++ s') k <> None.
Proof.
  remember (Star p) as r eqn:Er.
  induction 1 as [| | | | | | | p0 | p0 c s Pc M IH |]; try discriminate;
    injection Er as ->; intros s' k K.
  - simpl. destruct s' as [|c s']; [assumption|]. simpl.
    destruct (p c); [|assumption].
    destruct (star p s' k); [discriminate | assumption].
  - simpl. rewrite Pc.
    specialize (IH eq_refl s' k K).
    destruct (star p (s ++ s') k); [discriminate | contradiction].
Qed.

(** The matcher misses no match: when the continuation accepts the text
    behind some string of the pattern, the matcher returns a result. *)
Lemma exec_complete r q : matches r q ->
  forall s' g (k : str -> groups -> option A),
    (forall g', k s' g' <> None) -> exec r (q ++ s') g k <> None.
Proof.
  induction 1 as [| p c Pc | r1 r2 s1 s2 M1 IH1 M2 IH2 | r1 r2 s M IH
                 | r1 r2 s M IH | r1 | r1 s M IH | p | p c s Pc M IH
                 | i r1 s M IH]; intros s' g k K; simpl.
  - apply K.
  - rewrite Pc. apply K.
  - rewrite <- app_assoc. apply IH1. intros g'. apply IH2. assumption.
  - specialize (IH s' g k K). destruct (exec r1 (s ++ s') g k);
      [discriminate | contradiction].
  - destruct (exec r1 (s ++ s') g k); [discriminate|]. apply IH; assumption.
  - destruct (exec r1 s' g k); [discriminate | apply K].
  - specialize (IH s' g k K). destruct (exec r1 (s ++ s') g k);
      [discriminate | contradiction].
  - apply (star_complete (M_star_nil p)). apply K.
  - apply (star_complete (M_star_cons c Pc M)). apply K.
  - apply IH. intros g'. apply K.
Qed.

(** A pattern without groups hands the captured groups on as they are. *)
Lemma exec_sound_free r : group_free r = true ->
  forall s g (k : str -> groups -> option A) x,
  exec r s g k = Some x ->
  exists q s', matches r q /\ s = q ++ s' /\ k s' g = Some x.
Proof.
  induction r as [|p|r1 IH1 r2 IH2|r1 IH1 r2 IH2|r1 IH1|p|i r1 IH1];
    simpl; intros GF s g k x E.
  - exists [], s. repeat split; [constructor | assumption].
  - destruct s as [|c s]; [discriminate|].
    destruct (p c) eqn:Pc; [|discriminate].
    exists [c], s. repeat split; [constructor; assumption | assumption].
  - apply andb_true_iff in GF as [GF1 GF2].
    destruct (IH1 GF1 _ _ _ _ E) as (q1 & s1 & M1 & -> & E1).
    destruct (IH2 GF2 _ _ _ _ E1) as (q2 & s2 & M2 & -> & E2).
    exists (q1 ++ q2), s2. rewrite <- app_assoc.
    repeat split; [constructor; assumption | assumption].
  - apply andb_true_iff in GF as [GF1 GF2].
    destruct (exec r1 s g k) as [y|] eqn:E1.
    + injection E as <-. destruct (IH1 GF1 _ _ _ _ E1) as (q & s' & M & -> & K).
      exists q, s'. repeat split; [apply M_alt_l; assumption | assumption].
    + destruct (IH2 GF2 _ _ _ _ E) as (q & s' & M & -> & K).
      exists q, s'. repeat split; [apply M_alt_r; assumption | assumption].
  - destruct (exec r1 s g k) as [y|] eqn:E1.
    + injection E as <-. destruct (IH1 GF _ _ _ _ E1) as (q & s' & M & -> & K).
      exists q, s'. repeat split; [apply M_opt_some; assumption | assumption].
    + exists [], s. repeat split; [constructor | assumption].
  - destruct (star_sound _ _ _ E) as (q & s' & M & -> & K).
    exists q, s'. repeat split; assumption.
  - discriminate.
Qed.

End Sound.

Lemma match_prefix_sound r s m g rest :
  match_prefix r s = Some (m, g, rest) -> matches r m /\ s = m ++ rest.
Proof.
  unfold match_prefix. intros E.
  destruct (exec_sound _ _ _ _ E) as (q & s' & g' & M & -> & K).
  injection K as Em _ Er. subst m rest. rewrite consumed_app.
  split; [assumption | reflexivity].
Qed.

Lemma match_prefix_complete r q s' :
  matches r q -> match_prefix r (q ++ s') <> None.
Proof.
  intros M. unfold match_prefix. apply exec_complete; [assumption|].
  intros g'. discriminate.
Qed.

Lemma fullmatch_sound r s g : fullmatch r s = Some g -> matches r s.
Proof.
  unfold fullmatch. intros E.
  destruct (exec_sound _ _ _ _ E) as (q & s' & g' & M & -> & K).
  destruct s'; [|discriminate]. rewrite app_nil_r. assumption.
Qed.

Lemma fullmatch_complete r s : matches r s -> fullmatch r s <> None.
Proof.
  intros M. unfold fullmatch. rewrite <- (app_nil_r s).
  apply exec_complete; [assumption|]. intros g'. discriminate.
Qed.

(** *** The shape of a range *)

Section Range.
Variable n : regex.
Hypothesis n_free : group_free n = true.

Lemma range_of_sound A i j s g (k : str -> groups -> option A) x :
  exec (range_of n i j) s g k = Some x ->
  exists n1 w1 w2 n2 rest,
    s = n1 ++ w1 ++ ","%char :: w2 ++ n2 ++ rest /\
    matches n n1 /\ matches (Star is_space) w1 /\
    matches (Star is_space) w2 /\ matches n n2 /\
    k rest ((j, n2) :: (i, n1) :: g) = Some x.
Proof.
  unfold range_of, Chr. cbn [exec]. intros E.
  apply (exec_sound_free n n_free) in E as (n1 & s1 & M1 & -> & E).
  rewrite consumed_app in E.
  apply star_sound in E as (w1 & s2 & W1 & -> & E).
  destruct s2 as [|c s3]; [discriminate|].
  destruct (Ascii.eqb ","%char c) eqn:Ec; [|discriminate].
  apply Ascii.eqb_eq in Ec as <-.
  apply star_sound in E as (w2 & s4 & W2 & -> & E).
  apply (exec_sound_free n n_free) in E as (n2 & rest & M2 & -> & E).
  rewrite consumed_app in E.
  exists n1, w1, w2, n2, rest. repeat split; assumption.
Qed.

Lemma range_of_matches i j s :
  matches (range_of n i j) s <->
  exists n1 w1 w2 n2,
    s = n1 ++ w1 ++ ","%char :: w2 ++ n2 /\
    matches n n1 /\ matches (Star is_space) w1 /\
    matches (Star is_space) w2 /\ matches n n2.
Proof.
  unfold range_of. split.
  - intros M.
    inversion M as [| |? ? n1 t1 Mn1 Mt1| | | | | | |]; subst; clear M.
    inversion Mn1 as [| | | | | | | | |? ? ? Mn1']; subst; clear Mn1.
    inversion Mt1 as [| |? ? w1 t2 Mw1 Mt2| | | | | | |]; subst; clear Mt1.
    inversion Mt2 as [| |? ? c t3 Mc Mt3| | | | | | |]; subst; clear Mt2.
    inversion Mc as [|? c0 Pc| | | | | | | |]; subst; clear Mc.
    apply Ascii.eqb_eq in Pc as <-.
    inversion Mt3 as [| |? ? w2 n2 Mw2 Mn2| | | | | | |]; subst; clear Mt3.
    inversion Mn2 as [| | | | | | | | |? ? ? Mn2']; subst; clear Mn2.
    exists n1, w1, w2, n2. repeat split; assumption.
  - intros (n1 & w1 & w2 & n2 & -> & M1 & W1 & W2 & M2).
    apply M_seq; [constructor; assumption|].
    apply M_seq; [assumption|].
    apply (M_seq (r1 := Chr ",") (s1 := [","%char]));
      [constructor; apply Ascii.eqb_refl|].
    apply M_seq; [assumption | constructor; assumption].
Qed.

Lemma range_of_renumber i j i' j' s :
  matches (range_of n i j) s -> matches (range_of n i' j') s.
Proof. rewrite !range_of_matches. trivial. Qed.

End Range.

End ReFacts.

Import ReFacts.

Lemma matches_seq r1 r2 s :
  matches (Seq r1 r2) s <->
  exists s1 s2, s = s1 ++ s2 /\ matches r1 s1 /\ matches r2 s2.
Proof.
  split.
  - intros M. inversion M; subst. eauto.
  - intros (s1 & s2 & -> & M1 & M2). constructor; assumption.
Qed.

Lemma matches_opt r s : matches (Opt r) s <-> s = [] \/ matches r s.
Proof.
  split.
  - intros M. inversion M; subst; auto.
  - intros [-> | M]; [apply M_opt_none | apply M_opt_some; assumption].
Qed.

Lemma matches_cls p s : matches (Cls p) s <-> exists c, s = [c] /\ p c = true.
Proof.
  split.
  - intros M. inversion M; subst; eauto.
  - intros (c & -> & Pc). constructor; assumption.
Qed.

Lemma matches_star p s : matches (Star p) s <-> forallb p s = true.
Proof.
  split.
  - remember (Star p) as r eqn:Er. induction 1; try discriminate;
      injection Er as ->; simpl; [reflexivity|].
    rewrite H. auto.
  - induction s as [|c s IH]; simpl; intros E; [constructor|].
    apply andb_true_iff in E as [Pc E]. constructor; auto.
Qed.

Lemma matches_plus p s :
  matches (Plus p) s <-> exists c t, s = c :: t /\ p c = true /\ forallb p t = true.
Proof.
  unfold Plus. rewrite matches_seq. split.
  - intros (s1 & s2 & -> & M1 & M2). apply matches_cls in M1 as (c & -> & Pc).
    apply matches_star in M2. exists c, s2. auto.
  - intros (c & t & -> & Pc & Pt). exists [c], t. split; [reflexivity|].
    split; [apply matches_cls; eauto | apply matches_star; assumption].
Qed.

Lemma span_prefix p ds rest :
  forallb p ds = true ->
  match rest with [] => True | c :: _ => p c = false end ->
  span p (ds ++ rest) = (ds, rest).
Proof.
  intros D R. induction ds as [|d ds IH]; simpl in *.
  - destruct rest as [|c rest]; [reflexivity|]. simpl. rewrite R. reflexivity.
  - apply andb_true_iff in D as [Pd D]. rewrite Pd, (IH D). reflexivity.
Qed.

(** The shape of a number. *)
Lemma number_shape p :
  matches number_pattern p <->
  exists sg d ds frac ex,
    p = sg ++ (d :: ds) ++ frac ++ ex /\
    (sg = [] \/ sg = ["-"%char]) /\
    is_digit d = true /\ forallb is_digit ds = true /\
    (frac = [] \/ exists f fs, frac = "."%char :: f :: fs /\
        is_digit f = true /\ forallb is_digit fs = true) /\
    (ex = [] \/ exists e sg' x xs, ex = e :: sg' ++ x :: xs /\
        ascii_in (text "eE") e = true /\
        (sg' = [] \/ exists c, sg' = [c] /\ ascii_in (text "-+") c = true) /\
        is_digit x = true /\ forallb is_digit xs = true).
Proof.
  unfold number_pattern, OneOf, Chr.
  split.
  - intros M.
    apply matches_seq in M as (sg & t1 & -> & Msg & M).
    apply matches_seq in M as (dd & t2 & -> & Mdd & M).
    apply matches_seq in M as (frac & ex & -> & Mfrac & Mex).
    apply matches_plus in Mdd as (d & ds & -> & Pd & Pds).
    exists sg, d, ds, frac, ex. split; [reflexivity|].
    split.
    { apply matches_opt in Msg as [-> | Msg]; [auto|].
      apply matches_cls in Msg as (c & -> & Pc). apply Ascii.eqb_eq in Pc as <-. auto. }
    split; [assumption|]. split; [assumption|].
    split.
    { apply matches_opt in Mfrac as [-> | Mfrac]; [auto|]. right.
      apply matches_seq in Mfrac as (dot & t & -> & Mdot & Mt).
      apply matches_cls in Mdot as (c & -> & Pc). apply Ascii.eqb_eq in Pc as <-.
      apply matches_plus in Mt as (f & fs & -> & Pf & Pfs). exists f, fs. auto. }
    apply matches_opt in Mex as [-> | Mex]; [auto|]. right.
    apply matches_seq in Mex as (e & t & -> & Me & Mt).
    apply matches_cls in Me as (c & -> & Pc).
    apply matches_seq in Mt as (sg' & t' & -> & Msg' & Mt').
    apply matches_plus in Mt' as (x & xs & -> & Px & Pxs).
    exists c, sg', x, xs. split; [reflexivity|]. split; [assumption|].
    split; [|auto].
    apply matches_opt in Msg' as [-> | Msg']; [auto|]. right.
    apply matches_cls in Msg' as (c' & -> & Pc'). eauto.
  - intros (sg & d & ds & frac & ex & -> & Hsg & Pd & Pds & Hfrac & Hex).
    apply matches_seq. exists sg, ((d :: ds) ++ frac ++ ex). split; [reflexivity|].
    split.
    { apply matches_opt. destruct Hsg as [-> | ->]; [auto|]. right.
      apply matches_cls. exists "-"%char. auto. }
    apply matches_seq. exists (d :: ds), (frac ++ ex). split; [reflexivity|].
    split; [apply matches_plus; eauto|].
    apply matches_seq. exists frac, ex. split; [reflexivity|]. split.
    { apply matches_opt. destruct Hfrac as [-> | (f & fs & -> & Pf & Pfs)]; [auto|].
      right. apply matches_seq. exists ["."%char], (f :: fs).
      split; [reflexivity|]. split; [apply matches_cls; eauto | apply matches_plus; eauto]. }
    apply matches_opt.
    destruct Hex as [-> | (e & sg' & x & xs & -> & Pe & Hsg' & Px & Pxs)]; [auto|].
    right. apply matches_seq. exists [e], (sg' ++ x :: xs).
    split; [reflexivity|]. split; [apply matches_cls; eauto|].
    apply matches_seq. exists sg', (x :: xs). split; [reflexivity|].
    split; [|apply matches_plus; eauto].
    apply matches_opt. destruct Hsg' as [-> | (c & -> & Pc)]; [auto|].
    right. apply matches_cls; eauto.
Qed.

Ltac each_char c :=
  destruct c as [[|] [|] [|] [|] [|] [|] [|] [|]];
  try reflexivity; try discriminate.

Lemma digit_not_sign c :
  is_digit c = true -> Ascii.eqb c "-" = false /\ Ascii.eqb c "+" = false.
Proof. each_char c; intros _; split; reflexivity. Qed.

Lemma letter_e_not_digit c :
  ascii_in (text "eE") c = true ->
  is_digit c = false /\ Ascii.eqb c "." = false.
Proof. each_char c; intros _; split; reflexivity. Qed.

Lemma sign_cases c :
  ascii_in (text "-+") c = true -> c = "-"%char \/ c = "+"%char.
Proof. each_char c; auto. Qed.

Lemma read_sign_digit d s :
  is_digit d = true -> read_sign (d :: s) = (false, d :: s).
Proof.
  intros D. destruct (digit_not_sign _ D) as [E1 E2].
  simpl. rewrite E1, E2. reflexivity.
Qed.

Lemma span_digits_end [d ds] :
  is_digit d = true -> forallb is_digit ds = true ->
  span is_digit (d :: ds) = (d :: ds, []).
Proof.
  intros D Ds. rewrite <- (app_nil_r (d :: ds)) at 1.
  apply span_prefix; [simpl; rewrite D; assumption | exact I].
Qed.

Lemma read_exponent_total [ex] :
  (ex = [] \/ exists e sg' x xs, ex = e :: sg' ++ x :: xs /\
        ascii_in (text "eE") e = true /\
        (sg' = [] \/ exists c, sg' = [c] /\ ascii_in (text "-+") c = true) /\
        is_digit x = true /\ forallb is_digit xs = true) ->
  exists e, read_exponent ex = Some e.
Proof.
  intros [-> | (e & sg' & x & xs & -> & Pe & Hsg & Px & Pxs)].
  - exists 0%Z. reflexivity.
  - unfold read_exponent. rewrite Pe.
    destruct Hsg as [-> | (c & -> & Pc)].
    + simpl app. rewrite (read_sign_digit x xs Px), (span_digits_end Px Pxs). eauto.
    + destruct (sign_cases _ Pc) as [-> | ->];
        change (read_sign (["-"%char] ++ x :: xs)) with (true, x :: xs) ||
        change (read_sign (["+"%char] ++ x :: xs)) with (false, x :: xs);
        cbv iota beta; rewrite (span_digits_end Px Pxs); eauto.
Qed.

(** [float] accepts every string of [number_pattern]. *)
Lemma py_float_total F (N : Numeric F) p :
  matches number_pattern p -> exists v : F, py_float p = Some v.
Proof.
  intros M. apply number_shape in M
    as (sg & d & ds & frac & ex & -> & Hsg & Pd & Pds & Hfrac & Hex).
  destruct (read_exponent_total Hex) as [e He].
  assert (Hhead : match ex with [] => True | c :: _ => is_digit c = false end).
  { destruct Hex as [-> | (c & sg' & x & xs & -> & Pe & _)]; [exact I|].
    apply (letter_e_not_digit _ Pe). }
  assert (Hdot : match ex with [] => True | c :: _ => Ascii.eqb c "." = false end).
  { destruct Hex as [-> | (c & sg' & x & xs & -> & Pe & _)]; [exact I|].
    apply (letter_e_not_digit _ Pe). }
  assert (Hsign : read_sign (sg ++ (d :: ds) ++ frac ++ ex)
                  = (match sg with [] => false | _ => true end,
                     (d :: ds) ++ frac ++ ex)).
  { destruct Hsg as [-> | ->]; [apply read_sign_digit; assumption | reflexivity]. }
  unfold py_float. rewrite Hsign.
  assert (Hint : span is_digit ((d :: ds) ++ frac ++ ex) = (d :: ds, frac ++ ex)).
  { apply span_prefix; [simpl; rewrite Pd; assumption|].
    destruct Hfrac as [-> | (f & fs & -> & _)]; [assumption | reflexivity]. }
  rewrite Hint.
  destruct Hfrac as [-> | (f & fs & -> & Pf & Pfs)].
  - simpl app. destruct ex as [|c ex'].
    + rewrite He. eauto.
    + rewrite Hdot, He. eauto.
  - cbn [app]. rewrite Ascii.eqb_refl.
    change (f :: fs ++ ex) with ((f :: fs) ++ ex).
    rewrite (span_prefix is_digit (f :: fs) ex); [|simpl; rewrite Pf; assumption|assumption].
    rewrite He. eauto.
Qed.

Lemma number_free : group_free number_pattern = true.
Proof. reflexivity. Qed.

(** A full match of the range pattern captures its two bounds. *)
Lemma fullmatch_range_groups t g :
  fullmatch range_pattern t = Some g ->
  exists n1 n2, matches number_pattern n1 /\ matches number_pattern n2 /\
    group 1 g = Some n1 /\ group 2 g = Some n2.
Proof.
  unfold fullmatch, range_pattern, range_with. intros E.
  apply (range_of_sound _ number_free) in E
    as (n1 & w1 & w2 & n2 & rest & -> & M1 & W1 & W2 & M2 & K).
  destruct rest; [|discriminate]. injection K as <-.
  exists n1, n2. repeat split; assumption.
Qed.

Lemma token_literal s m g rest :
  match_prefix token_pattern s = Some (m, g, rest) ->
  s = m ++ rest /\ is_literal (Replaced m).
Proof.
  intros E. apply match_prefix_sound in E as [M ->]. split; [reflexivity|].
  unfold token_pattern in M. inversion M as [| | | | | | | | |? ? ? M']; subst.
  inversion M' as [| | |? ? ? Mr|? ? ? Mn| | | | |]; subst; simpl.
  - right. unfold range_with in Mr. apply (range_of_renumber 1 2 Mr).
  - left. assumption.
Qed.

Section Tokens.
Context {F : Type} `{Numeric F}.
Local Open Scope py_scope.

(** The value of a token that is a range. *)
Lemma token_value_range t a b :
  range_bounds t = Some (a, b) ->
  token_value t = if a > b then Err (RangeOrderError a b t) else Ok (Range a b).
Proof.
  unfold range_bounds, token_value.
  destruct (fullmatch range_pattern t) as [g|]; [|discriminate].
  destruct (group 1 g) as [s1|]; [|discriminate].
  destruct (group 2 g) as [s2|]; [|discriminate].
  destruct (py_float s1) as [a'|]; [|discriminate].
  destruct (py_float s2) as [b'|]; [|discriminate].
  intros E; injection E as -> ->. reflexivity.
Qed.

(** The value of a literal that is no range. *)
Lemma token_value_scalar t :
  range_bounds t = None -> is_literal (Replaced t) ->
  exists v, token_value t = Ok (Scalar v).
Proof.
  unfold range_bounds, token_value. intros E L.
  destruct (fullmatch range_pattern t) as [g|] eqn:Ef.
  - exfalso. apply fullmatch_range_groups in Ef as (n1 & n2 & M1 & M2 & G1 & G2).
    rewrite G1, G2 in E.
    destruct (@py_float_total _ _ _ M1) as [a Ea].
    destruct (@py_float_total _ _ _ M2) as [b Eb].
    rewrite Ea, Eb in E. discriminate.
  - destruct L as [L | L].
    + destruct (@py_float_total _ _ _ L) as [v ->]. eauto.
    + exfalso. exact (fullmatch_complete L Ef).
Qed.

Lemma literal_bounds t :
  matches range_pattern t -> exists a b, range_bounds t = Some (a, b).
Proof.
  intros L. unfold range_bounds.
  destruct (fullmatch range_pattern t) as [g|] eqn:Ef.
  - apply fullmatch_range_groups in Ef as (n1 & n2 & M1 & M2 & G1 & G2).
    rewrite G1, G2.
    destruct (@py_float_total _ _ _ M1) as [a Ea].
    destruct (@py_float_total _ _ _ M2) as [b Eb].
    rewrite Ea, Eb. eauto.
  - exfalso. exact (fullmatch_complete L Ef).
Qed.

End Tokens.

(** ** The scan of [re.sub] *)

Lemma sub_loop_pieces fuel : forall s var_index tokens,
  length s <= fuel ->
  exists ps,
    s = source ps /\ Forall is_literal ps /\
    sub_loop token_pattern replace_token fuel s (var_index, tokens)
    = (rewritten var_index ps,
       (var_index + length (placeholders var_index ps),
        tokens ++ placeholders var_index ps)).
Proof.
  induction fuel as [|fuel IH]; intros s var_index tokens L.
  - destruct s; [|simpl in L; lia]. exists []. simpl.
    rewrite Nat.add_0_r, app_nil_r. auto.
  - destruct s as [|c s'].
    { exists []. simpl. rewrite Nat.add_0_r, app_nil_r. auto. }
    assert (Keep : exists ps,
      c :: s' = source ps /\ Forall is_literal ps /\
      (let (out', st1) := sub_loop token_pattern replace_token fuel s'
                            (var_index, tokens) in (c :: out', st1))
      = (rewritten var_index ps,
         (var_index + length (placeholders var_index ps),
          tokens ++ placeholders var_index ps))).
    { destruct (IH s' var_index tokens) as (ps & -> & Lit & ->);
        [simpl in L; lia|].
      exists (Kept c :: ps). simpl. repeat split. constructor; [exact I | assumption]. }
    cbn [sub_loop].
    destruct (match_prefix token_pattern (c :: s')) as [[[m g] rest]|] eqn:Em;
      [|exact Keep].
    destruct m as [|c0 m]; [exact Keep|].
    apply token_literal in Em as [Es Lit].
    assert (Lr : length rest <= fuel).
    { apply (f_equal (@length ascii)) in Es. rewrite length_app in Es.
      simpl in Es, L. lia. }
    unfold replace_token at 1.
    destruct (IH rest (S var_index)
                (tokens ++ [(var_name var_index, (c0 :: m : str))]) Lr)
      as (ps & Er & Lits & Eq).
    exists (Replaced (c0 :: m) :: ps). rewrite Eq, Es, Er. simpl.
    split; [reflexivity|]. split; [constructor; assumption|].
    rewrite <- app_assoc. simpl. f_equal. f_equal. lia.
Qed.

(** The rewritten expression is the source in which each token has given
    way to its placeholder. *)
Lemma substitute_pieces expr :
  exists ps,
    expr = source ps /\ Forall is_literal ps /\
    substitute expr = (rewritten 0 ps, placeholders 0 ps).
Proof.
  destruct (@sub_loop_pieces (length expr) expr 0 [] (le_n _))
    as (ps & E & Lit & S).
  exists ps. split; [assumption|]. split; [assumption|].
  unfold substitute, sub. rewrite S. reflexivity.
Qed.

Lemma placeholders_literal ps :
  Forall is_literal ps -> forall i nt, In nt (placeholders i ps) ->
  is_literal (Replaced (snd nt)).
Proof.
  induction 1 as [|p ps Lp Lps IH]; intros i nt; simpl; [tauto|].
  destruct p as [c|t]; [apply IH|]. simpl. intros [<- | I]; [exact Lp|].
  apply (IH _ _ I).
Qed.

Section ParseFacts.
Context {F : Type} `{Numeric F}.
Local Open Scope py_scope.

Lemma misordered_error t :
  misordered t = true ->
  exists a b, range_bounds t = Some (a, b) /\ (a > b) = true /\
    token_value t = Err (RangeOrderError a b t).
Proof.
  unfold misordered. destruct (range_bounds t) as [[a b]|] eqn:E; [|discriminate].
  intros G. exists a, b. rewrite (token_value_range _ E), G. auto.
Qed.

Lemma ordered_value t :
  is_literal (Replaced t) -> misordered t = false ->
  exists v, token_value t = Ok v.
Proof.
  unfold misordered. intros L.
  destruct (range_bounds t) as [[a b]|] eqn:E.
  - intros G. rewrite (token_value_range _ E), G. eauto.
  - intros _. destruct (token_value_scalar E L) as [v ->]. eauto.
Qed.

(** The loop over the tokens stops at the first range in the wrong order,
    and at nothing else. *)
Lemma build_var_values_spec tokens : forall var_values,
  Forall (fun nt => is_literal (Replaced (snd nt))) tokens ->
  match first_misordered tokens with
  | Some nt =>
      exists a b, range_bounds (snd nt) = Some (a, b) /\ (a > b) = true /\
        build_var_values tokens var_values
        = Err (RangeOrderError a b (snd nt))
  | None => exists d, build_var_values tokens var_values = Ok d
  end.
Proof.
  unfold first_misordered.
  induction tokens as [|[name t] tokens IH]; intros var_values L; simpl.
  - eauto.
  - inversion L as [|? ? Lt Ls]; subst. simpl in Lt.
    destruct (misordered t) eqn:Mt.
    + destruct (misordered_error _ Mt) as (a & b & Eb & G & Ev).
      exists a, b. rewrite Ev. auto.
    + destruct (ordered_value Lt Mt) as [v ->]. apply IH. assumption.
Qed.

Lemma substitute_literals expr :
  Forall (fun nt => is_literal (Replaced (snd nt))) (snd (substitute expr)).
Proof.
  destruct (substitute_pieces expr) as (ps & _ & Lit & ->). simpl.
  apply Forall_forall. intros nt I. apply (placeholders_literal Lit _ _ I).
Qed.

Lemma parse_expression_spec expr :
  match first_misordered (snd (substitute expr)) with
  | Some nt =>
      exists a b, range_bounds (snd nt) = Some (a, b) /\ (a > b) = true /\
        parse_expression expr = Err (RangeOrderError a b (snd nt))
  | None =>
      exists d,
        parse_expression expr =
        if contains "," (fst (substitute expr)) then Err MalformedRangeError
        else Ok (fst (substitute expr), d)
  end.
Proof.
  pose proof (build_var_values_spec [] (substitute_literals expr)) as B.
  unfold parse_expression.
  destruct (substitute expr) as [expression tokens]. simpl in *.
  destruct (first_misordered tokens) as [nt|].
  - destruct B as (a & b & Eb & G & ->). eauto.
  - destruct B as (d & ->). eauto.
Qed.

End ParseFacts.

(** ** Dictionaries *)

Lemma dict_set_fresh V k (v : V) d :
  ~ In k (keys d) -> dict_set k v d = d ++ [(k, v)].
Proof.
  unfold keys.
  induction d as [|[k' v'] d IH]; simpl; intros N; [reflexivity|].
  destruct (str_eqb k k') eqn:E.
  - apply str_eqb_eq in E. subst. tauto.
  - rewrite IH; [reflexivity | tauto].
Qed.

Lemma dict_get_app V k (d1 d2 : dict V) :
  dict_get k (d1 ++ d2) =
  match dict_get k d1 with Some v => Some v | None => dict_get k d2 end.
Proof.
  induction d1 as [|[k' v'] d1 IH]; simpl; [reflexivity|].
  destruct (str_eqb k k'); [reflexivity | assumption].
Qed.

Lemma dict_get_absent V k (d : dict V) :
  ~ In k (keys d) -> dict_get k d = None.
Proof.
  unfold keys.
  induction d as [|[k' v'] d IH]; simpl; intros N; [reflexivity|].
  destruct (str_eqb k k') eqn:E.
  - apply str_eqb_eq in E. subst. tauto.
  - apply IH. tauto.
Qed.

Lemma dict_get_in V k (v : V) (d : dict V) :
  NoDup (keys d) -> In (k, v) d -> dict_get k d = Some v.
Proof.
  unfold keys.
  induction d as [|[k' v'] d IH]; simpl; intros N I; [contradiction|].
  inversion N as [|? ? Nk Nd]; subst.
  destruct I as [E | I].
  - injection E as -> ->. rewrite str_eqb_refl. reflexivity.
  - destruct (str_eqb k k') eqn:E.
    + apply str_eqb_eq in E. subst. exfalso. apply Nk.
      apply (in_map fst) in I. exact I.
    + apply IH; assumption.
Qed.

Lemma dict_get_set V k k' (v : V) d :
  dict_get k (dict_set k' v d) =
  if str_eqb k k' then Some v else dict_get k d.
Proof.
  induction d as [|[k0 v0] d IH]; simpl.
  - destruct (str_eqb k k'); reflexivity.
  - destruct (str_eqb k' k0) eqn:E0; simpl.
    + apply str_eqb_eq in E0. subst k0.
      destruct (str_eqb k k'); reflexivity.
    + destruct (str_eqb k k0) eqn:E1.
      * apply str_eqb_eq in E1. subst k0.
        destruct (str_eqb k k') eqn:E2; [|reflexivity].
        apply str_eqb_eq in E2. subst. rewrite str_eqb_refl in E0. discriminate.
      * apply IH.
Qed.

Lemma dict_get_update V k (d other : dict V) :
  NoDup (keys other) ->
  dict_get k (dict_update d other) =
  match dict_get k other with Some v => Some v | None => dict_get k d end.
Proof.
  unfold dict_update. revert d.
  induction other as [|[k' v'] other IH]; simpl; intros d N; [reflexivity|].
  inversion N as [|? ? Nk No]; subst.
  rewrite (IH _ No), dict_get_set.
  destruct (str_eqb k k') eqn:E; [|reflexivity].
  apply str_eqb_eq in E. subst. rewrite dict_get_absent by exact Nk. reflexivity.
Qed.

(** ** The sampler *)

Section SamplerFacts.
Context {F G : Type} `{Numeric F} `{Sampling F G}.
Local Open Scope py_scope.

Lemma sample_value_guarded var v n g :
  spread_positive v = false ->
  exists d, sample_value var v n g = (Err (InvalidDistributionError d var), g).
Proof.
  destruct v as [x|a b]; simpl; [discriminate|].
  destruct (a == b); [discriminate|].
  destruct (a > of_int 0); intros E; apply negb_false_iff in E; rewrite E; eauto.
Qed.

(** The three ways in which the body of the loop ends. *)
Lemma sample_value_cases var v n g :
  (exists xs g', sample_value var v n g = (Ok xs, g') /\
                 spread_positive v = true) \/
  (exists d, sample_value var v n g = (Err (InvalidDistributionError d var), g) /\
             spread_positive v = false) \/
  (exists g', sample_value var v n g = (Err LibraryError, g') /\
              spread_positive v = true /\ ~ library_returns v).
Proof.
  destruct v as [x|a b]; simpl; [eauto|].
  destruct (a == b); [eauto|].
  destruct (a > of_int 0).
  - destruct (lognormal_sigma a b <= of_int 0); [eauto 6|].
    destruct (np_random_lognormal _ _ n g) as [[xs|] g'] eqn:E; [eauto|].
    right; right. exists g'. repeat split. intros L.
    apply (L n g). rewrite E. reflexivity.
  - destruct (normal_sigma a b <= of_int 0); [eauto 6|].
    destruct (truncnorm_rvs _ _ _ _ n g) as [[xs|] g'] eqn:E; [eauto|].
    right; right. exists g'. repeat split. intros L.
    apply (L n g). rewrite E. reflexivity.
Qed.

(** An array that the body of the loop returns has the size asked for. *)
Lemma sample_value_length var v n g xs g' :
  samplers_sized -> sample_value var v n g = (Ok xs, g') -> length xs = n.
Proof.
  intros [Sl St]. destruct v as [x|a b]; simpl.
  - intros E. injection E as <- _. apply repeat_length.
  - destruct (a == b).
    + intros E. injection E as <- _. apply repeat_length.
    + destruct (a > of_int 0).
      * destruct (lognormal_sigma a b <= of_int 0); [discriminate|].
        destruct (np_random_lognormal _ _ n g) as [[ys|] g1] eqn:E;
          [|discriminate].
        intros E'. injection E' as <- _. exact (Sl _ _ _ _ _ _ E).
      * destruct (normal_sigma a b <= of_int 0); [discriminate|].
        destruct (truncnorm_rvs _ _ _ _ n g) as [[ys|] g1] eqn:E;
          [|discriminate].
        intros E'. injection E' as <- _. exact (St _ _ _ _ _ _ _ _ E).
Qed.

Lemma sample_value_sized var v n g :
  samplers_sized -> spread_positive v = true -> library_returns v ->
  exists xs g', sample_value var v n g = (Ok xs, g') /\ length xs = n.
Proof.
  intros Sz P L.
  destruct (sample_value_cases var v n g)
    as [(xs & g' & E & _) | [(d & _ & Q) | (g' & _ & _ & Q)]].
  - exists xs, g'. split; [exact E|]. exact (sample_value_length _ _ _ _ Sz E).
  - congruence.
  - contradiction.
Qed.

(** What the loop has added when it ends without an error: one array per
    item, in the order of the items, each from the body of the loop. *)
Lemma sample_items_spec n items : forall samples g result g',
  NoDup (keys samples ++ keys items) ->
  sample_items items n samples g = (Ok result, g') ->
  exists more,
    result = samples ++ more /\
    Forall2 (fun item kv => fst kv = fst item /\
               exists g1 g2, sample_value (fst item) (snd item) n g1
                             = (Ok (snd kv), g2)) items more.
Proof.
  induction items as [|[var v] items IH]; simpl; intros samples g result g' N E.
  - injection E as <- <-. exists []. rewrite app_nil_r. auto.
  - destruct (sample_value var v n g) as [[xs|e] g1] eqn:Ev; [|discriminate].
    assert (Nv : ~ In var (keys samples)).
    { intros I. apply NoDup_remove_2 in N. apply N, in_or_app. auto. }
    rewrite dict_set_fresh in E by exact Nv.
    apply IH in E as (more & -> & All).
    + exists ((var, xs) :: more). rewrite <- app_assoc. split; [reflexivity|].
      constructor; [|assumption]. simpl. eauto.
    + unfold keys in *. rewrite map_app, <- app_assoc. exact N.
Qed.

Lemma Forall2_keys items (more : dict (list F)) (P : str * value F -> str * list F -> Prop) :
  Forall2 (fun item kv => fst kv = fst item /\ P item kv) items more ->
  keys more = keys items.
Proof.
  induction 1 as [|item kv items more [E _] _ IH]; simpl; [reflexivity|].
  rewrite E, IH. reflexivity.
Qed.

Lemma Forall2_entry items (more : dict (list F)) (P : str * value F -> str * list F -> Prop) item :
  Forall2 (fun item kv => fst kv = fst item /\ P item kv) items more ->
  In item items ->
  exists xs, In (fst item, xs) more /\ P item (fst item, xs).
Proof.
  induction 1 as [|item0 [k xs] items more [E Pk] _ IH]; simpl; [tauto|].
  simpl in E. subst k. intros [-> | I].
  - exists xs. auto.
  - destruct (IH I) as (ys & Iy & Py). exists ys. auto.
Qed.

(** The array of a placeholder in the result of the sampler is the one that
    the body of the loop has made for the literal of that placeholder. *)
Lemma generate_samples_entry (var_values : dict (value F)) n g samples g' var v :
  NoDup (keys var_values) ->
  generate_samples var_values n g = (Ok samples, g') ->
  In (var, v) var_values ->
  exists xs g1 g2,
    dict_get var samples = Some xs /\ sample_value var v n g1 = (Ok xs, g2).
Proof.
  unfold generate_samples. intros N E I.
  apply sample_items_spec in E as (more & -> & All); [|exact N].
  simpl. pose proof (@Forall2_keys _ _ _ All) as K.
  destruct (@Forall2_entry _ _ _ _ All I) as (xs & Ix & g1 & g2 & Ev). simpl in *.
  exists xs, g1, g2. split; [|assumption].
  apply dict_get_in; [rewrite K; assumption | assumption].
Qed.




(** When the library returns for every range, the error is that of the
    test. *)
Lemma sample_items_refused n items : forall samples g,
  forallb spread_positive (map snd items) = false ->
  Forall library_returns (map snd items) ->
  exists d var g', In var (keys items) /\
    sample_items items n samples g = (Err (InvalidDistributionError d var), g').
Proof.
  induction items as [|[var v] items IH]; simpl; intros samples g P L.
  - discriminate.
  - inversion L as [|? ? Lv L']; subst.
    destruct (sample_value_cases var v n g)
      as [(xs & g1 & -> & Pv) | [(d & -> & _) | (g1 & _ & _ & Q)]].
    + rewrite Pv in P. simpl in P.
      destruct (IH (dict_set var xs samples) g1 P L') as (d & var' & g' & I & ->).
      exists d, var', g'. auto.
    + exists d, var, g. auto.
    + contradiction.
Qed.

End SamplerFacts.

(** ** Exact arithmetic *)

Module ExactFacts.
Local Open Scope R_scope.

Lemma eqb_true x y : Exact.eqb x y = true <-> x = y.
Proof. unfold Exact.eqb. destruct (Req_dec_T x y); split; congruence. Qed.

Lemma eqb_false x y : Exact.eqb x y = false <-> x <> y.
Proof. unfold Exact.eqb. destruct (Req_dec_T x y); split; congruence. Qed.

Lemma ltb_true x y : Exact.ltb x y = true <-> x < y.
Proof. unfold Exact.ltb. destruct (Rlt_dec x y); split; congruence. Qed.

Lemma ltb_false x y : Exact.ltb x y = false <-> y <= x.
Proof.
  unfold Exact.ltb. destruct (Rlt_dec x y); split; try congruence; lra.
Qed.


Lemma leb_false x y : Exact.leb x y = false <-> y < x.
Proof.
  unfold Exact.leb. destruct (Rle_dec x y); split; try congruence; lra.
Qed.

Lemma of_int_0 : of_int (F := R) 0 = 0.
Proof. unfold of_int; simpl; unfold Exact.of_decimal; simpl; lra. Qed.

Lemma of_int_2 : of_int (F := R) 2 = 2.
Proof. unfold of_int; simpl; unfold Exact.of_decimal; simpl; lra. Qed.

Lemma z_score_value : z_score (F := R) = 2576 / 1000.
Proof. unfold z_score; simpl; unfold Exact.of_decimal; simpl; lra. Qed.


Section Sampler.
Variable G : Type.
Variable standard_normal : nat -> G -> list R * G.
Variable truncated_standard_normal : R -> R -> nat -> G -> list R * G.

Local Abbreviation lib :=
  (ExactLibrary.sampling standard_normal truncated_standard_normal).

Ltac exact_ops :=
  cbn [fadd fsub fmul fdiv feqb fltb fleb exact np_log np_random_lognormal
       truncnorm_rvs np_add_reduce ExactLibrary.sampling].

Lemma lognormal_sigma_value a b :
  lognormal_sigma (H0 := lib) a b = (ln b - ln a) / (2 * (2576 / 1000)).
Proof.
  unfold lognormal_sigma. exact_ops. rewrite of_int_2, z_score_value. reflexivity.
Qed.

Lemma lognormal_mu_value a b :
  lognormal_mu (H0 := lib) a b = (ln a + ln b) / 2.
Proof. unfold lognormal_mu. exact_ops. rewrite of_int_2. reflexivity. Qed.

Lemma normal_sigma_value a b :
  normal_sigma (F := R) a b = (b - a) / (2 * (2576 / 1000)).
Proof.
  unfold normal_sigma. exact_ops. rewrite of_int_2, z_score_value. reflexivity.
Qed.

Lemma normal_mu_value a b : normal_mu (F := R) a b = (a + b) / 2.
Proof. unfold normal_mu. exact_ops. rewrite of_int_2. reflexivity. Qed.

(** A positive range that is not degenerate has a positive spread. *)
Lemma lognormal_sigma_pos a b : 0 < a < b -> 0 < lognormal_sigma (H0 := lib) a b.
Proof.
  intros [A B]. rewrite lognormal_sigma_value.
  assert (ln a < ln b) by (apply ln_increasing; assumption).
  apply Rdiv_lt_0_compat; lra.
Qed.

Lemma normal_sigma_pos a b : a < b -> 0 < normal_sigma (F := R) a b.
Proof.
  intros B. rewrite normal_sigma_value. apply Rdiv_lt_0_compat; lra.
Qed.



Lemma sample_value_lognormal var a b n g :
  0 < a < b ->
  sample_value (H0 := lib) var (Range a b) n g =
  (Ok (map (fun z => exp ((ln a + ln b) / 2
                          + (ln b - ln a) / (2 * (2576 / 1000)) * z))
         (fst (standard_normal n g))),
   snd (standard_normal n g)).
Proof.
  intros AB. pose proof (lognormal_sigma_pos AB) as S.
  unfold sample_value. exact_ops. rewrite of_int_0.
  replace (Exact.eqb a b) with false by (symmetry; apply eqb_false; lra).
  replace (Exact.ltb 0 a) with true by (symmetry; apply ltb_true; lra).
  replace (Exact.leb (lognormal_sigma a b) 0) with false
    by (symmetry; apply leb_false; exact S).
  rewrite lognormal_sigma_value, lognormal_mu_value.
  destruct (standard_normal n g) as [zs g']. reflexivity.
Qed.

Lemma sample_value_truncnorm var a b n g :
  a <= 0 -> a < b ->
  sample_value (H0 := lib) var (Range a b) n g =
  (Ok (map (fun t => (a + b) / 2 + (b - a) / (2 * (2576 / 1000)) * t)
         (fst (truncated_standard_normal (- (2576 / 1000)) (2576 / 1000) n g))),
   snd (truncated_standard_normal (- (2576 / 1000)) (2576 / 1000) n g)).
Proof.
  intros A B. pose proof (normal_sigma_pos B) as S.
  unfold sample_value. exact_ops. rewrite of_int_0.
  replace (Exact.eqb a b) with false by (symmetry; apply eqb_false; lra).
  replace (Exact.ltb 0 a) with false by (symmetry; apply ltb_false; lra).
  replace (Exact.leb (normal_sigma a b) 0) with false
    by (symmetry; apply leb_false; exact S).
  rewrite normal_sigma_value in *. rewrite normal_mu_value.
  replace ((a - (a + b) / 2) / ((b - a) / (2 * (2576 / 1000))))
    with (- (2576 / 1000)) by (field; lra).
  replace ((b - (a + b) / 2) / ((b - a) / (2 * (2576 / 1000))))
    with (2576 / 1000) by (field; lra).
  destruct (truncated_standard_normal _ _ n g) as [ts g']. reflexivity.
Qed.

End Sampler.
End ExactFacts.

(** ** Double precision *)

Module Binary64Facts.
Local Open Scope Z_scope.

Lemma shr_1_nonneg mrs : 0 <= shr_m mrs -> 0 <= shr_m (shr_1 mrs).
Proof.
  destruct mrs as [m r s]. simpl.
  destruct m as [|p|p]; [| |lia]; intros _.
  - simpl. lia.
  - destruct p; simpl; lia.
Qed.

Lemma iter_pos_invariant A (P : A -> Prop) (f : A -> A) :
  (forall x, P x -> P (f x)) ->
  forall p x, P x -> P (SpecFloat.iter_pos f p x).
Proof.
  intros Pf. induction p as [p IH|p IH|]; intros x Px; simpl; auto.
Qed.

Lemma shr_fexp_nonneg prec emax m e l :
  0 <= m -> 0 <= shr_m (fst (shr_fexp prec emax m e l)).
Proof.
  intros M. unfold shr_fexp, shr.
  assert (M0 : 0 <= shr_m (shr_record_of_loc m l)).
  { destruct l as [|[]]; exact M. }
  destruct (fexp prec emax (Zdigits2 m + e) - e); simpl; try exact M0.
  apply (iter_pos_invariant (fun r => 0 <= shr_m r)); [apply shr_1_nonneg | exact M0].
Qed.

Lemma round_nearest_even_nonneg m l : 0 <= m -> 0 <= round_nearest_even m l.
Proof.
  intros M. destruct l as [|[]]; simpl; try lia.
  destruct (Z.even m); lia.
Qed.

(** Rounding a magnitude never produces a NaN. *)
Lemma binary_round_aux_number prec emax s m e l :
  0 <= m -> binary_round_aux prec emax s m e l <> S754_nan.
Proof.
  intros M. unfold binary_round_aux.
  pose proof (shr_fexp_nonneg prec emax e l M) as M1.
  destruct (shr_fexp prec emax m e l) as [mrs' e']. simpl in M1.
  pose proof (shr_fexp_nonneg prec emax e' loc_Exact
                (round_nearest_even_nonneg (loc_of_shr_record mrs') M1)) as M2.
  destruct (shr_fexp prec emax _ e' loc_Exact) as [mrs'' e'']. simpl in M2.
  destruct (shr_m mrs'') as [|p|p]; [discriminate | | lia].
  destruct (e'' <=? emax - prec); discriminate.
Qed.

Lemma binary_normalize_number prec emax m e s :
  binary_normalize prec emax m e s <> S754_nan.
Proof.
  destruct m as [|p|p]; simpl; [discriminate| |]; unfold binary_round;
    destruct (shl_align _ _ _) as [mz ez]; apply binary_round_aux_number; lia.
Qed.

Lemma div_core_nonneg prec emax m1 e1 m2 e2 :
  0 <= m1 -> 0 < m2 ->
  0 <= fst (fst (SFdiv_core_binary prec emax m1 e1 m2 e2)).
Proof.
  intros M1 M2. unfold SFdiv_core_binary.
  set (s := e1 - e2 - _). set (m' := match s with Z0 => _ | _ => _ end).
  assert (M' : 0 <= m').
  { subst m'. destruct s; [assumption | apply Z.shiftl_nonneg; assumption | lia]. }
  pose proof (Z.div_pos m' m2 M' M2) as Q. unfold Z.div in Q.
  destruct (Z.div_eucl m' m2) as [q r]. exact Q.
Qed.

(** [float] of a decimal literal is a number. *)
Lemma of_decimal_number neg m e : Binary64.of_decimal neg m e <> S754_nan.
Proof.
  unfold Binary64.of_decimal. destruct m as [|p]; [discriminate|].
  destruct (0 <=? e) eqn:E.
  - apply binary_normalize_number.
  - assert (P : 0 < 10 ^ (- e)) by (apply Z.pow_pos_nonneg; lia).
    pose proof (div_core_nonneg Binary64.prec Binary64.emax 0 0
                  (Pos2Z.is_nonneg p) P) as Q.
    destruct (SFdiv_core_binary _ _ _ _ _ _) as [[q e'] l]. simpl in Q.
    apply binary_round_aux_number. exact Q.
Qed.

Lemma SFeqb_refl x : x <> S754_nan -> SFeqb x x = true.
Proof.
  unfold SFeqb. destruct x as [s|s| |s m e]; simpl; try reflexivity.
  - destruct s; reflexivity.
  - congruence.
  - intros _. rewrite Z.compare_refl, Pos.compare_cont_refl.
    destruct s; reflexivity.
Qed.

(** A literal is equal to itself: a range of two equal literals is
    degenerate for the sampler. *)
Lemma literal_eqb_refl neg m e :
  feqb (Binary64.of_decimal neg m e) (Binary64.of_decimal neg m e) = true.
Proof. apply SFeqb_refl, of_decimal_number. Qed.

(** *** Division by one is exact *)

Lemma fexp64 x : fexp 53 1024 x = Z.max (x - 53) (-1074).
Proof. reflexivity. Qed.

Lemma bounded64 m e :
  SpecFloat.bounded 53 1024 m e = true ->
  Z.max (Zpos (digits2_pos m) + e - 53) (-1074) = e /\ e <= 971.
Proof.
  unfold SpecFloat.bounded, canonical_mantissa. rewrite fexp64.
  intros B. apply andb_true_iff in B as [C L].
  apply Z.eqb_eq in C. apply Z.leb_le in L. change (1024 - 53) with 971 in L. auto.
Qed.

Lemma div_eucl_pow2 m k :
  Z.div_eucl (Zpos m * 2 ^ 52 * k) 4503599627370496 = (Zpos m * k, 0).
Proof.
  pose proof (Z_div_mod (Zpos m * 2 ^ 52 * k) 4503599627370496 eq_refl) as D.
  destruct (Z.div_eucl _ _) as [q r]. destruct D as [E R].
  change (2 ^ 52) with 4503599627370496 in E.
  assert (q = Zpos m * k) by nia. subst q. f_equal. nia.
Qed.

Lemma SFdiv_one s m e :
  SpecFloat.bounded 53 1024 m e = true ->
  SFdiv 53 1024 (S754_finite s m e)
    (S754_finite false 4503599627370496 (-52))
  = S754_finite s m e.
Proof.
  intros B. destruct (bounded64 _ _ B) as [C L].
  set (d := Zpos (digits2_pos m)) in *.
  assert (Dp : 1 <= d) by (subst d; lia).
  unfold SFdiv. rewrite xorb_false_r.
  unfold SFdiv_core_binary. rewrite fexp64.
  change (Zdigits2 (Zpos m)) with d.
  change (Zdigits2 4503599627370496) with 53.
  destruct (Z.eq_dec e (-1074)) as [E | E].
  - (* the lowest exponent: the quotient is the mantissa *)
    replace (Z.min (Z.max (d + e - (53 + -52) - 53) (-1074)) (e - -52))
      with e by lia.
    replace (e - -52 - e) with 52 by lia.
    rewrite Z.shiftl_mul_pow2 by lia.
    replace (Zpos m * 2 ^ 52) with (Zpos m * 2 ^ 52 * 1) by lia.
    rewrite div_eucl_pow2. rewrite Z.mul_1_r.
    change (new_location 4503599627370496 0) with loc_Exact.
    unfold binary_round_aux, shr_fexp. rewrite fexp64.
    change (Zdigits2 (Zpos m)) with d.
    replace (Z.max (d + e - 53) (-1074) - e) with 0 by lia.
    cbn [shr shr_record_of_loc shr_m loc_of_shr_record round_nearest_even].
    rewrite fexp64. change (Zdigits2 (Zpos m)) with d.
    replace (Z.max (d + e - 53) (-1074) - e) with 0 by lia.
    cbn [shr shr_record_of_loc shr_m].
    change (1024 - 53) with 971.
    replace (e <=? 971) with true by (symmetry; apply Z.leb_le; lia).
    reflexivity.
  - (* a normal number above it: one more bit, shifted out again *)
    assert (D53 : d = 53) by lia.
    replace (Z.min (Z.max (d + e - (53 + -52) - 53) (-1074)) (e - -52))
      with (e - 1) by lia.
    replace (e - -52 - (e - 1)) with 53 by lia.
    rewrite Z.shiftl_mul_pow2 by lia.
    replace (Zpos m * 2 ^ 53) with (Zpos m * 2 ^ 52 * 2) by lia.
    rewrite div_eucl_pow2.
    change (new_location 4503599627370496 0) with loc_Exact.
    replace (Zpos m * 2) with (Zpos m~0) by lia.
    unfold binary_round_aux, shr_fexp. rewrite fexp64.
    change (Zdigits2 (Zpos m~0)) with (Zpos (Pos.succ (digits2_pos m))).
    rewrite Pos2Z.inj_succ. fold d.
    replace (Z.max (Z.succ d + (e - 1) - 53) (-1074) - (e - 1)) with 1 by lia.
    cbn [shr shr_record_of_loc shr_m loc_of_shr_record round_nearest_even
         SpecFloat.iter_pos shr_1 orb].
    rewrite fexp64. change (Zdigits2 (Zpos m)) with d.
    replace (Z.max (d + (e - 1 + 1) - 53) (-1074) - (e - 1 + 1)) with 0 by lia.
    cbn [shr shr_record_of_loc shr_m].
    change (1024 - 53) with 971.
    replace (e - 1 + 1 <=? 971) with true by (symmetry; apply Z.leb_le; lia).
    f_equal. lia.
Qed.

Lemma SFsub_diag s m e :
  SFsub 53 1024 (S754_finite s m e) (S754_finite s m e) = S754_zero false.
Proof.
  unfold SFsub. rewrite Z.min_id, Z.sub_diag. reflexivity.
Qed.

Lemma SFsub_zero x :
  Binary64.is_finite x = true -> SFsub 53 1024 x (S754_zero false) = x.
Proof. destruct x as [[|]|[|]| |s m e]; try discriminate; reflexivity. Qed.

Lemma SFsub_self x :
  Binary64.is_finite x = true -> SFsub 53 1024 x x = S754_zero false.
Proof.
  destruct x as [[|]|[|]| |s m e]; try discriminate; try reflexivity.
  intros _. apply SFsub_diag.
Qed.

Lemma SFeqb_finite x : Binary64.is_finite x = true -> SFeqb x x = true.
Proof.
  intros Fx. apply SFeqb_refl. destruct x; try discriminate.
Qed.

Section Single.
Variable G : Type.
Context {S : Sampling Binary64.float G}.
Local Open Scope py_scope.

(** The percentile of one finite value is that value, with its sign. *)
Lemma percentile_single x (q : N) :
  Binary64.is_finite x = true ->
  (of_count (F := Binary64.float) 0 * (of_int q / of_int 100))%py
  = S754_zero false ->
  np_percentile (F := Binary64.float) [x] q = Some x.
Proof.
  intros Fx V. unfold np_percentile.
  cbn [length existsb]. unfold np_isnan. cbn [feqb binary64].
  rewrite (SFeqb_finite _ Fx). cbn [negb orb].
  rewrite V.
  change (of_count (F := Binary64.float) 0) with (S754_zero false).
  change (fleb (S754_zero false) (S754_zero false)) with true. cbv iota.
  cbn [np_sort fold_right insert_sorted nth].
  unfold lerp.
  change (fsub (S754_zero false) (of_decimal true 1 0))
    with (S754_finite false 4503599627370496 (-52)).
  change (fleb (of_decimal false 5 (-1))
            (S754_finite false 4503599627370496 (-52))) with true.
  cbv iota.
  change (fsub (of_int 1) (S754_finite false 4503599627370496 (-52)))
    with (S754_zero false).
  cbn [fsub fmul binary64].
  change Binary64.prec with 53. change Binary64.emax with 1024.
  rewrite (SFsub_self _ Fx).
  change (SFmul 53 1024 (S754_zero false) (S754_zero false))
    with (S754_zero false).
  rewrite (SFsub_zero _ Fx). reflexivity.
Qed.

(** The statistics of one finite value. *)
Lemma statistics_single_finite x :
  Binary64.is_finite x = true ->
  compute_statistics (F := Binary64.float) [x] =
  Ok {| mean := Binary64.plus_zero x; std_dev := S754_zero false;
        ci_lower := x; ci_upper := x |}.
Proof.
  intros Fx. unfold compute_statistics.
  rewrite !(percentile_single _ _ Fx) by reflexivity.
  unfold np_std, np_mean, np_sum.
  cbn [length Nat.ltb Nat.leb fold_left map].
  change (of_count 1) with (S754_finite false 4503599627370496 (-52)).
  change (of_int (F := Binary64.float) 0) with (S754_zero false).
  cbn [fdiv fsub fmul fadd fsqrt binary64].
  change Binary64.prec with 53. change Binary64.emax with 1024.
  destruct x as [[|]|[|]| |s m e]; try discriminate; try reflexivity.
  simpl in Fx. cbn [SFadd Binary64.plus_zero].
  rewrite (@SFdiv_one s m e Fx), SFsub_diag. reflexivity.
Qed.

End Single.

(** *** Where the logarithm cannot be increasing *)

(** Rounding with a negative sign gives a result that is not above zero. *)
Lemma round_negative prec emax m e l :
  0 <= m ->
  SFleb (binary_round_aux prec emax true m e l) (S754_zero false) = true.
Proof.
  intros M. unfold binary_round_aux.
  pose proof (shr_fexp_nonneg prec emax e l M) as M1.
  destruct (shr_fexp prec emax m e l) as [mrs' e']. simpl in M1.
  pose proof (shr_fexp_nonneg prec emax e' loc_Exact
                (round_nearest_even_nonneg (loc_of_shr_record mrs') M1)) as M2.
  destruct (shr_fexp prec emax _ e' loc_Exact) as [mrs'' e'']. simpl in M2.
  destruct (shr_m mrs'') as [|p|p]; [reflexivity | | lia].
  destruct (e'' <=? emax - prec); reflexivity.
Qed.

Lemma round_negative_cases prec emax m e l :
  0 <= m ->
  let r := binary_round_aux prec emax true m e l in
  r = S754_zero true \/ r = S754_infinity true \/
  exists m' e', r = S754_finite true m' e'.
Proof.
  intros M. unfold binary_round_aux.
  pose proof (shr_fexp_nonneg prec emax e l M) as M1.
  destruct (shr_fexp prec emax m e l) as [mrs' e']. simpl in M1.
  pose proof (shr_fexp_nonneg prec emax e' loc_Exact
                (round_nearest_even_nonneg (loc_of_shr_record mrs') M1)) as M2.
  destruct (shr_fexp prec emax _ e' loc_Exact) as [mrs'' e'']. simpl in M2.
  simpl. destruct (shr_m mrs'') as [|p|p]; [auto | | lia].
  destruct (e'' <=? emax - prec); eauto.
Qed.

(** The divisor [2 * 2.576] of the source. *)
Lemma divisor_value :
  fmul (of_int 2) (z_score (F := Binary64.float))
  = S754_finite false 5800636320053199 (-50).
Proof. reflexivity. Qed.

(** Two logarithms with the same exponent, the second not above the first:
    the spread is not positive. *)
Lemma spread_not_positive ma mb e :
  (mb <= ma)%positive ->
  SFleb
    (SFdiv 53 1024
       (SFsub 53 1024 (S754_finite false mb e) (S754_finite false ma e))
       (S754_finite false 5800636320053199 (-50)))
    (S754_zero false) = true.
Proof.
  intros L. unfold SFsub. rewrite Z.min_id.
  assert (Al : forall m, shl_align m e e = (m, e)).
  { intros m. unfold shl_align. rewrite Z.sub_diag. reflexivity. }
  rewrite !Al. cbn [fst cond_Zopp].
  destruct (Zpos mb - Zpos ma) as [|p|p] eqn:D; [reflexivity | lia |].
  cbn [binary_normalize]. unfold binary_round.
  destruct (shl_align p e _) as [mz ez].
  destruct (@round_negative_cases 53 1024 (Zpos mz) ez loc_Exact
              ltac:(lia)) as [-> | [-> | (m' & e' & ->)]];
    try reflexivity.
  unfold SFdiv. cbn [xorb].
  pose proof (@div_core_nonneg 53 1024 (Zpos m') e' 5800636320053199 (-50)
                ltac:(lia) ltac:(lia)) as Q.
  destruct (SFdiv_core_binary _ _ _ _ _ _) as [[q eq] lq]. simpl in Q.
  apply round_negative. exact Q.
Qed.

Section Chain.
Variable G : Type.
Context {S : Sampling Binary64.float G}.
Local Open Scope py_scope.

(** Two neighbours whose logarithms are not in increasing order: the
    sampler ends with the error. *)
Lemma sampler_refuses var ma mb la lb e n g :
  (ma < mb)%positive ->
  np_log (F := Binary64.float) (S754_finite false ma 0)
  = S754_finite false la e ->
  np_log (F := Binary64.float) (S754_finite false mb 0)
  = S754_finite false lb e ->
  (lb <= la)%positive ->
  sample_value (F := Binary64.float) var
    (Range (S754_finite false ma 0) (S754_finite false mb 0)) n g
  = (Err (InvalidDistributionError LogNormal var), g).
Proof.
  intros Lm Ea Eb Ll. unfold sample_value.
  assert (Ne : feqb (F := Binary64.float) (S754_finite false ma 0)
                 (S754_finite false mb 0) = false).
  { cbn [feqb binary64]. unfold SFeqb, SFcompare. cbn [Z.compare].
    change (Pos.compare_cont Eq ma mb) with (ma ?= mb)%positive.
    rewrite (proj2 (Pos.compare_lt_iff ma mb) Lm). reflexivity. }
  rewrite Ne.
  change (fltb (F := Binary64.float) (of_int 0) (S754_finite false ma 0))
    with true. cbv iota.
  unfold lognormal_sigma. rewrite Ea, Eb, divisor_value.
  change (of_int 0) with (S754_zero false).
  cbn [fdiv fsub fleb binary64].
  change Binary64.prec with 53%Z. change Binary64.emax with 1024%Z.
  rewrite (spread_not_positive e Ll). reflexivity.
Qed.

End Chain.

End Binary64Facts.

Import ExactFacts.

(** ** The statistics in exact arithmetic *)

Module StatisticsFacts.
Local Open Scope R_scope.

Ltac exact_ops :=
  cbn [fadd fsub fmul fdiv fsqrt feqb fltb fleb ffloor exact np_add_reduce
       ExactLibrary.sampling].



Section Reductions.
Variable G : Type.
Variable standard_normal : nat -> G -> list R * G.
Variable truncated_standard_normal : R -> R -> nat -> G -> list R * G.

Local Abbreviation lib :=
  (ExactLibrary.sampling standard_normal truncated_standard_normal).




(** *** Sorting *)





(** *** The position of a percentile *)







End Reductions.

End StatisticsFacts.

(** ** Placeholders and the evaluation *)

Lemma replace_caret_none s :
  forallb (fun c => negb (Ascii.eqb c "^")) s = true -> replace_caret s = s.
Proof.
  induction s as [|c s IH]; simpl; [reflexivity|].
  intros E. apply andb_true_iff in E as [Ec Es].
  apply negb_true_iff in Ec. rewrite Ec, (IH Es). reflexivity.
Qed.

Lemma uint_digits d :
  forallb is_digit (text (NilEmpty.string_of_uint d)) = true.
Proof. induction d; simpl; auto. Qed.

Lemma var_name_digits i :
  exists ds, var_name i = text "var" ++ ds /\ forallb is_digit ds = true.
Proof.
  unfold var_name. eexists. split; [reflexivity|].
  unfold NilZero.string_of_uint.
  destruct (Nat.to_uint i); try apply uint_digits. reflexivity.
Qed.

Lemma var_name_caret i : replace_caret (var_name i) = var_name i.
Proof.
  apply replace_caret_none.
  destruct (var_name_digits i) as (ds & -> & D).
  rewrite forallb_app. simpl.
  apply forallb_forall. intros c I.
  rewrite forallb_forall in D. specialize (D c I).
  destruct c as [[|] [|] [|] [|] [|] [|] [|] [|]]; try reflexivity; discriminate.
Qed.

Lemma dict_get_arrays F k (samples : dict (list F)) :
  dict_get k (map (fun kv => (fst kv, NdArray (snd kv))) samples)
  = option_map (@NdArray F) (dict_get k samples).
Proof.
  induction samples as [|[k' xs] samples IH]; simpl; [reflexivity|].
  destruct (str_eqb k k'); [reflexivity | exact IH].
Qed.

(** The evaluation environment binds each placeholder to its array. *)
Lemma allowed_names_placeholder F (samples : dict (list F)) k arr :
  NoDup (keys samples) -> dict_get k samples = Some arr ->
  dict_get k (allowed_names samples) = Some (NdArray arr).
Proof.
  intros N E. unfold allowed_names. rewrite dict_get_update.
  - rewrite dict_get_arrays, E. reflexivity.
  - unfold keys in *. rewrite map_map. simpl. exact N.
Qed.

(** ** Numbers next to a comma *)

Lemma number_chars p :
  matches number_pattern p -> forallb number_char p = true.
Proof.
  intros M. apply number_shape in M
    as (sg & d & ds & frac & ex & -> & Hsg & Pd & Pds & Hfrac & Hex).
  assert (D : forall l, forallb is_digit l = true -> forallb number_char l = true).
  { intros l. rewrite !forallb_forall. intros A c I. unfold number_char.
    rewrite (A c I). reflexivity. }
  rewrite !forallb_app.
  apply andb_true_iff; split;
    [|apply andb_true_iff; split; [|apply andb_true_iff; split]].
  - destruct Hsg as [-> | ->]; reflexivity.
  - simpl. unfold number_char at 1. rewrite Pd. simpl. apply D, Pds.
  - destruct Hfrac as [-> | (f & fs & -> & Pf & Pfs)]; [reflexivity|].
    simpl. unfold number_char at 1. rewrite Pf. simpl. apply D, Pfs.
  - destruct Hex as [-> | (e & sg' & x & xs & -> & Pe & Hsg' & Px & Pxs)];
      [reflexivity|].
    simpl. apply andb_true_iff. split.
    + unfold number_char. apply orb_true_iff. right. revert Pe.
      destruct e as [[|] [|] [|] [|] [|] [|] [|] [|]]; try reflexivity; discriminate.
    + rewrite forallb_app. apply andb_true_iff. split.
      * destruct Hsg' as [-> | (c & -> & Pc)]; [reflexivity|]. simpl.
        rewrite andb_true_r. unfold number_char. apply orb_true_iff. right.
        revert Pc.
        destruct c as [[|] [|] [|] [|] [|] [|] [|] [|]]; try reflexivity; discriminate.
      * simpl. unfold number_char at 1. rewrite Px. simpl. apply D, Pxs.
Qed.

Lemma number_nonempty p : matches number_pattern p -> p <> [].
Proof.
  intros M. apply number_shape in M as (sg & d & ds & frac & ex & -> & _).
  destruct sg; discriminate.
Qed.

Lemma number_head p c rest :
  matches number_pattern (c :: rest) -> p = c :: rest -> is_space c = false.
Proof.
  intros M _. apply number_chars in M. simpl in M.
  apply andb_true_iff in M as [M _]. revert M.
  destruct c as [[|] [|] [|] [|] [|] [|] [|] [|]]; try reflexivity; discriminate.
Qed.

Lemma space_not_number c : is_space c = true -> number_char c = false.
Proof.
  destruct c as [[|] [|] [|] [|] [|] [|] [|] [|]]; try reflexivity; discriminate.
Qed.

Lemma span_unique (p : ascii -> bool) (l1 r1 l2 r2 : str) :
  forallb p l1 = true -> forallb p l2 = true ->
  match r1 with [] => True | c :: _ => p c = false end ->
  match r2 with [] => True | c :: _ => p c = false end ->
  l1 ++ r1 = l2 ++ r2 -> l1 = l2 /\ r1 = r2.
Proof.
  intros P1 P2 R1 R2 E.
  pose proof (@span_prefix p l1 r1 P1 R1) as S1.
  pose proof (@span_prefix p l2 r2 P2 R2) as S2.
  rewrite E in S1. rewrite S1 in S2. injection S2 as -> ->. auto.
Qed.

(** Where a number, a comma with white space around it or none, and a
    number follow each other, the token that the scan takes there is a
    range: it begins with the first number, goes on over the comma, and its
    upper bound begins where the second number begins. *)
Lemma range_preferred n1 w1 w2 n2 rest :
  matches number_pattern n1 -> matches number_pattern n2 ->
  forallb is_space w1 = true -> forallb is_space w2 = true ->
  exists n2' g rest',
    match_prefix token_pattern (n1 ++ w1 ++ ","%char :: w2 ++ n2 ++ rest)
    = Some (n1 ++ w1 ++ ","%char :: w2 ++ n2', g, rest') /\
    matches number_pattern n2' /\ n2' ++ rest' = n2 ++ rest /\
    matches range_pattern (n1 ++ w1 ++ ","%char :: w2 ++ n2').
Proof.
  intros M1 M2 W1 W2.
  set (s := n1 ++ w1 ++ ","%char :: w2 ++ n2 ++ rest).
  assert (Mr : matches (range_with 2 3) (n1 ++ w1 ++ ","%char :: w2 ++ n2)).
  { apply range_of_matches. exists n1, w1, w2, n2.
    repeat split; try assumption; apply matches_star; assumption. }
  unfold match_prefix, token_pattern. cbn [exec].
  match goal with
  | |- context [exec (range_with 2 3) ?s0 ?g0 ?k0] =>
      destruct (exec (range_with 2 3) s0 g0 k0) as [[[tok g] rest']|] eqn:E
  end.
  2:{ exfalso. revert E. subst s.
      replace (n1 ++ w1 ++ ","%char :: w2 ++ n2 ++ rest)
        with ((n1 ++ w1 ++ ","%char :: w2 ++ n2) ++ rest)
        by (rewrite <- !app_assoc; simpl; rewrite <- !app_assoc; reflexivity).
      apply exec_complete; [exact Mr | discriminate]. }
  unfold range_with in E.
  apply (range_of_sound _ number_free) in E
    as (m1 & v1 & v2 & m2 & r & Es & N1 & V1 & V2 & N2 & K).
  injection K as Etok Eg Er. subst rest'.
  apply matches_star in V1, V2.
  (* the first number *)
  destruct (@span_unique number_char n1 (w1 ++ ","%char :: w2 ++ n2 ++ rest)
              m1 (v1 ++ ","%char :: v2 ++ m2 ++ r)) as [-> E1];
    try (apply number_chars; assumption); try exact Es.
  { destruct w1 as [|c w1]; [reflexivity|]. simpl in W1 |- *.
    apply andb_true_iff in W1 as [W1 _]. apply space_not_number, W1. }
  { destruct v1 as [|c v1]; [reflexivity|]. simpl in V1 |- *.
    apply andb_true_iff in V1 as [V1 _]. apply space_not_number, V1. }
  (* the white space before the comma *)
  destruct (@span_unique is_space w1 (","%char :: w2 ++ n2 ++ rest)
              v1 (","%char :: v2 ++ m2 ++ r)) as [-> E2];
    try assumption; try reflexivity.
  injection E2 as E2.
  (* the white space behind the comma *)
  destruct (@span_unique is_space w2 (n2 ++ rest) v2 (m2 ++ r)) as [-> E3];
    try assumption.
  { pose proof (number_nonempty M2) as Ne. destruct n2 as [|c n2]; [congruence|].
    simpl. apply (number_head M2 eq_refl). }
  { pose proof (number_nonempty N2) as Ne. destruct m2 as [|c m2]; [congruence|].
    simpl. apply (number_head N2 eq_refl). }
  exists m2, g, r.
  assert (Ec : consumed s r = m1 ++ v1 ++ ","%char :: v2 ++ m2).
  { subst s. rewrite Es.
    replace (m1 ++ v1 ++ ","%char :: v2 ++ m2 ++ r)
      with ((m1 ++ v1 ++ ","%char :: v2 ++ m2) ++ r)
      by (rewrite <- !app_assoc; simpl; rewrite <- !app_assoc; reflexivity).
    apply consumed_app. }
  rewrite Ec in Etok. subst tok.
  split; [reflexivity|]. split; [assumption|]. split; [auto|].
  apply range_of_matches. exists m1, v1, v2, m2.
  repeat split; try assumption; apply matches_star; assumption.
Qed.

Import ExactFacts StatisticsFacts Binary64Facts.

(** * The statements of the specification *)

(** ** The extractor *)

(** C9. For every input expression, the rewriting leaves every character
    that is not part of a token where it was: the source is a sequence of
    kept characters and of tokens, each token a number or a range, and the
    rewritten expression is the same sequence with the placeholders
    [var0], [var1], ... in the place of the tokens, in this order. *)
Theorem text_passes_through :
  forall expr : str,
  exists ps : list piece,
    expr = source ps /\
    Forall is_literal ps /\
    substitute expr = (rewritten 0 ps, placeholders 0 ps) /\
    forall F (N : Numeric F) r,
      parse_expression expr = Ok r -> fst r = rewritten 0 ps.
Proof.
  intros expr. destruct (substitute_pieces expr) as (ps & Es & Lit & Sub).
  exists ps. repeat split; try assumption.
  intros F N r. unfold parse_expression. rewrite Sub.
  destruct (build_var_values _ _); [|discriminate].
  destruct (contains _ _); [discriminate|].
  intros E. injection E as <-. reflexivity.
Qed.

Lemma text_passes_through_witness :
  exists ps : list piece,
    text "(1,10) ^ 2" = source ps /\
    Forall is_literal ps /\
    substitute (text "(1,10) ^ 2") = (rewritten 0 ps, placeholders 0 ps) /\
    forall F (N : Numeric F) r,
      parse_expression (text "(1,10) ^ 2") = Ok r -> fst r = rewritten 0 ps.
Proof. exact (text_passes_through (text "(1,10) ^ 2")). Defined.

Section Extractor.
Local Open Scope py_scope.

Lemma find_misordered F (N : Numeric F) tokens name t :
  In (name, t) tokens -> misordered t = true ->
  exists nt, first_misordered tokens = Some nt.
Proof.
  intros I M. unfold first_misordered.
  destruct (find _ tokens) as [nt|] eqn:E; [eauto|].
  pose proof (find_none _ _ E _ I) as X. simpl in X. congruence.
Qed.

Lemma first_misordered_in F (N : Numeric F) tokens nt :
  first_misordered tokens = Some nt -> In nt tokens /\ misordered (snd nt) = true.
Proof. unfold first_misordered. apply find_some. Qed.

(** C6. For every expression in which the scan finds a range whose lower
    bound is greater than its upper bound, the run ends with the range
    order error of the first such range: before any sample is drawn (the
    generator is in the state in which the run began) and without
    statistics.  So does the run on [5,1] in double precision. *)
Theorem range_order_error_first :
  (forall F G (N : Numeric F) (S : Sampling F G) (E : Evaluation F G)
          (expr : str) name t,
      In (name, t) (snd (substitute expr)) -> misordered t = true ->
      exists a b nt,
        In nt (snd (substitute expr)) /\
        range_bounds (snd nt) = Some (a, b) /\ (a > b) = true /\
        parse_expression expr = Err (RangeOrderError a b (snd nt)) /\
        forall n g,
          unsafe_main expr n g = (Err (RangeOrderError a b (snd nt)), g)) /\
  (forall G (S : Sampling Binary64.float G) (E : Evaluation Binary64.float G)
          n g,
      unsafe_main (text "5,1") n g
      = (Err (RangeOrderError (of_int 5) (of_int 1) (text "5,1")), g)).
Proof.
  split.
  - intros F G N S E expr name t I M.
    destruct (@find_misordered _ _ _ _ _ I M) as [nt Ef].
    pose proof (parse_expression_spec expr) as P. rewrite Ef in P.
    destruct P as (a & b & Eb & Gt & Ep).
    exists a, b, nt. destruct (@first_misordered_in _ _ _ _ Ef) as [Int _].
    repeat split; try assumption.
    intros n g. unfold unsafe_main. rewrite Ep. reflexivity.
  - intros G S E n g. reflexivity.
Qed.

End Extractor.

Lemma range_order_error_first_witness :
  exists a b nt,
    In nt (snd (substitute (text "5,1"))) /\
    range_bounds (F := R) (snd nt) = Some (a, b) /\
    fltb b a = true /\
    parse_expression (text "5,1") = Err (RangeOrderError a b (snd nt)) /\
    forall n g,
      unsafe_main (H0 := ExactLibrary.still) (H1 := lookup_only R unit)
        (text "5,1") n g
      = (Err (RangeOrderError a b (snd nt)), g).
Proof.
  apply (proj1 range_order_error_first R unit exact ExactLibrary.still
           (lookup_only R unit) (text "5,1") (text "var0") (text "5,1")).
  - vm_compute. left. reflexivity.
  - unfold misordered, range_bounds.
    lazy -[Exact.ltb Exact.of_decimal].
    apply ExactFacts.ltb_true. unfold Exact.of_decimal. simpl. lra.
Defined.

Section Extractor2.
Local Open Scope py_scope.

(** C7, as the code has it.  When a comma is left in the rewritten
    expression the run ends with an error: the malformed range error if no
    range of the expression has its bounds in the wrong order, and the range
    order error of the first such range otherwise, which the loop over the
    tokens meets before the comma is looked for.  The extraction succeeds
    exactly when no bounds are in the wrong order and no comma is left, and
    then returns the rewritten expression.  [2 * 3,4,5] ends with the
    malformed range error. *)
Theorem stray_comma :
  (forall F (N : Numeric F) (expr : str),
      let expression := fst (substitute expr) in
      let tokens := snd (substitute expr) in
      (first_misordered tokens = None ->
       contains "," expression = true ->
       parse_expression expr = Err MalformedRangeError) /\
      (forall nt, first_misordered tokens = Some nt ->
       exists a b, parse_expression expr
                   = Err (RangeOrderError a b (snd nt))) /\
      (first_misordered tokens = None ->
       contains "," expression = false ->
       exists d, parse_expression expr = Ok (expression, d)) /\
      (forall r, parse_expression expr = Ok r ->
       fst r = expression /\ contains "," expression = false)) /\
  parse_expression (F := Binary64.float) (text "2 * 3,4,5")
  = Err MalformedRangeError.
Proof.
  split; [|reflexivity].
  intros F N expr expression tokens.
  pose proof (parse_expression_spec expr) as P.
  fold tokens in P. fold expression in P.
  split; [|split; [|split]].
  - intros Ef Ec. rewrite Ef in P. destruct P as (d & ->). rewrite Ec. reflexivity.
  - intros nt Ef. rewrite Ef in P. destruct P as (a & b & _ & _ & ->). eauto.
  - intros Ef Ec. rewrite Ef in P. destruct P as (d & ->). rewrite Ec. eauto.
  - intros r. destruct (first_misordered tokens) as [nt|].
    + destruct P as (a & b & _ & _ & ->). discriminate.
    + destruct P as (d & ->). destruct (contains _ _); [discriminate|].
      intros E. injection E as <-. auto.
Qed.

Lemma stray_comma_witness :
  parse_expression (F := Binary64.float) (text "1, 2, 3")
  = Err MalformedRangeError.
Proof.
  apply (proj1 (proj1 stray_comma Binary64.float binary64 (text "1, 2, 3")));
    vm_compute; reflexivity.
Defined.

(** C7 as it is stated fails on [5,1,2]: a comma is left in the rewritten
    expression [var0,var1], and the run ends with the range order error. *)
Lemma stray_comma_counterexample :
  contains "," (fst (substitute (text "5,1,2"))) = true /\
  parse_expression (F := Binary64.float) (text "5,1,2")
  = Err (RangeOrderError (of_int 5) (of_int 1) (text "5,1")) /\
  parse_expression (F := Binary64.float) (text "5,1,2")
  <> Err MalformedRangeError.
Proof. repeat split; try reflexivity. vm_compute. discriminate. Qed.

(** C3. Where a number, a comma with or without white space around it, and
    a number follow each other, the token taken there is one range, which
    begins with the first number and reaches over the comma into the second
    (whose digits it takes as far as they go), not the first number alone.
    In double precision [1,10] is rewritten to the one placeholder [var0]
    for the range from 1 to 10, without error; and the evaluation of a
    placeholder, by an [eval] that resolves names, returns the array of
    that placeholder as it is. *)
Theorem range_before_scalars :
  (forall n1 w1 w2 n2 rest : str,
      matches number_pattern n1 -> matches number_pattern n2 ->
      forallb is_space w1 = true -> forallb is_space w2 = true ->
      exists n2' g rest',
        match_prefix token_pattern (n1 ++ w1 ++ ","%char :: w2 ++ n2 ++ rest)
        = Some (n1 ++ w1 ++ ","%char :: w2 ++ n2', g, rest') /\
        matches number_pattern n2' /\ n2' ++ rest' = n2 ++ rest /\
        matches range_pattern (n1 ++ w1 ++ ","%char :: w2 ++ n2')) /\
  parse_expression (F := Binary64.float) (text "1,10")
  = Ok (text "var0", [(text "var0", Range (of_int 1) (of_int 10))]) /\
  (forall F G (E : Evaluation F G), resolves_placeholders ->
   forall i (samples : dict (list F)) arr g,
      NoDup (keys samples) -> dict_get (var_name i) samples = Some arr ->
      evaluate_expression (var_name i) samples g = (Ok (NdArray arr), g)).
Proof.
  split; [|split].
  - intros n1 w1 w2 n2 rest. apply range_preferred.
  - reflexivity.
  - intros F G E R i samples arr g N D.
    unfold evaluate_expression. rewrite var_name_caret.
    rewrite (R i _ g _ (@allowed_names_placeholder _ _ _ _ N D)). reflexivity.
Qed.

Lemma range_before_scalars_witness :
  (exists n2' g rest',
      match_prefix token_pattern (text "1.5" ++ text " " ++ ","%char
                                  :: text "  " ++ text "20" ++ text "0)")
      = Some (text "1.5" ++ text " " ++ ","%char :: text "  " ++ n2', g, rest') /\
      matches number_pattern n2' /\ n2' ++ rest' = text "20" ++ text "0)" /\
      matches range_pattern (text "1.5" ++ text " " ++ ","%char
                             :: text "  " ++ n2')) /\
  evaluate_expression (H1 := lookup_only Binary64.float unit) (var_name 0)
    [(text "var0", [of_int 3; of_int 4])] tt
  = (Ok (NdArray [of_int 3; of_int 4]), tt).
Proof.
  split.
  - apply (proj1 range_before_scalars).
    + apply (fullmatch_sound number_pattern (text "1.5") (g := [])). reflexivity.
    + apply (fullmatch_sound number_pattern (text "20") (g := [])). reflexivity.
    + reflexivity.
    + reflexivity.
  - apply (proj2 (proj2 range_before_scalars) Binary64.float unit
             (lookup_only Binary64.float unit)).
    + intros i globals g obj D. simpl. rewrite D. reflexivity.
    + repeat constructor. simpl. tauto.
    + reflexivity.
Defined.

(** C8, at the failing input.  The text [np.__builtins__['exit']()] has no
    literal and no comma, so that the extraction returns it as it is, and
    [eval] receives it with the whole numpy module bound to [np] next to the
    emptied [__builtins__]: whatever an attribute of the module can reach,
    the expression can reach, and the module holds the builtins of the
    interpreter.  When the expression leaves with [SystemExit], as a call of
    [exit] does, no handler of the program stands in the way: the run ends
    with the status of the expression and without an error line.  In every
    run the name [np] is bound to the module unless a placeholder has taken
    the name, and no placeholder is called [np]. *)
Theorem numpy_in_scope :
  (forall F (N : Numeric F),
      parse_expression (F := F) (text "np.__builtins__['exit']()")
      = Ok (text "np.__builtins__['exit']()", [])) /\
  (forall F G (E : Evaluation F G) g,
      evaluate_expression (F := F) (text "np.__builtins__['exit']()") [] g
      = match py_eval (text "np.__builtins__['exit']()")
                [(text "np", NumpyModule); (text "__builtins__", EmptyDict)] g
        with
        | (Returned obj, g') => (Ok obj, g')
        | (Raised, g') => (Err ExpressionEvaluationError, g')
        | (Exited status, g') => (Err (SystemExit status), g')
        end) /\
  (forall F G (N : Numeric F) (S : Sampling F G) (E : Evaluation F G)
          n g status g',
      py_eval (text "np.__builtins__['exit']()")
        [(text "np", NumpyModule); (text "__builtins__", EmptyDict)] g
      = (Exited status, g') ->
      unsafe_main (text "np.__builtins__['exit']()") n g
      = (Err (SystemExit status), g')) /\
  (forall F (samples : dict (list F)),
      NoDup (keys samples) -> ~ In (text "np") (keys samples) ->
      dict_get (text "np") (allowed_names samples) = Some NumpyModule) /\
  (forall i, var_name i <> text "np").
Proof.
  assert (P : forall F (N : Numeric F),
             parse_expression (F := F) (text "np.__builtins__['exit']()")
             = Ok (text "np.__builtins__['exit']()", [])) by reflexivity.
  split; [exact P|]. split; [reflexivity|]. split; [|split].
  - intros F G N S E n g status g' Ex. unfold unsafe_main. rewrite P.
    cbn [generate_samples sample_items].
    unfold evaluate_expression.
    change (replace_caret (text "np.__builtins__['exit']()"))
      with (text "np.__builtins__['exit']()").
    change (allowed_names [])
      with [(text "np", @NumpyModule F); (text "__builtins__", EmptyDict)].
    rewrite Ex. reflexivity.
  - intros F samples N I. unfold allowed_names. rewrite dict_get_update.
    + rewrite dict_get_arrays, dict_get_absent by exact I. reflexivity.
    + unfold keys in *. rewrite map_map. exact N.
  - intros i. destruct (var_name_digits i) as (ds & -> & _). discriminate.
Qed.

Lemma numpy_in_scope_witness :
  unsafe_main (H0 := ExactLibrary.still)
    (H1 := {| py_eval := fun _ (_ : dict (pyobj R)) (g : unit) =>
                           (Exited 0, g) |})
    (text "np.__builtins__['exit']()") 3 tt
  = (Err (SystemExit 0), tt) /\
  dict_get (text "np")
    (allowed_names [(text "var0", [of_int 3 : Binary64.float])])
  = Some NumpyModule.
Proof.
  split.
  - apply (proj1 (proj2 (proj2 numpy_in_scope)) R unit exact
             ExactLibrary.still
             {| py_eval := fun _ (_ : dict (pyobj R)) (g : unit) =>
                             (Exited 0, g) |}
             3%nat tt 0%Z tt).
    reflexivity.
  - apply (proj1 (proj2 (proj2 (proj2 numpy_in_scope))) Binary64.float
             [(text "var0", [of_int 3 : Binary64.float])]).
    + repeat constructor. simpl. tauto.
    + simpl. intros [E | []]. discriminate E.
Defined.

End Extractor2.

(** ** The sampler *)

Section Sampler.
Local Open Scope py_scope.

Lemma generate_samples_single F G (N : Numeric F) (S : Sampling F G)
    var v n g :
  generate_samples [(var, v)] n g =
  match sample_value var v n g with
  | (Ok xs, g') => (Ok [(var, xs)], g')
  | (Err e, g') => (Err e, g')
  end.
Proof.
  unfold generate_samples. simpl.
  destruct (sample_value var v n g) as [[xs|e] g']; reflexivity.
Qed.

(** C4. For every scalar literal and for every range whose two bounds are
    equal, whatever their sign, the array of the placeholder is the array of
    [n] copies of the value: in the result of the sampler on a table that
    holds the literal, and the sampler does return on the literal alone.  A
    bound read from a decimal literal is equal to itself in double
    precision, and every real number is. *)
Theorem constant_arrays :
  (forall F G (N : Numeric F) (S : Sampling F G)
          (var_values : dict (value F)) n g samples g',
      NoDup (keys var_values) ->
      generate_samples var_values n g = (Ok samples, g') ->
      (forall var v, In (var, Scalar v) var_values ->
         dict_get var samples = Some (repeat v n)) /\
      (forall var a b, In (var, Range a b) var_values -> (a == b) = true ->
         dict_get var samples = Some (repeat a n))) /\
  (forall F G (N : Numeric F) (S : Sampling F G) var n g,
      (forall v, generate_samples [(var, Scalar v)] n g
                 = (Ok [(var, repeat v n)], g)) /\
      (forall a b, (a == b) = true ->
         generate_samples [(var, Range a b)] n g
         = (Ok [(var, repeat a n)], g))) /\
  (forall neg m e,
      let a := Binary64.of_decimal neg m e in (a == a) = true) /\
  (forall a : R, (a == a) = true).
Proof.
  split; [|split; [|split]].
  - intros F G N S var_values n g samples g' Nd E. split.
    + intros var v I.
      destruct (@generate_samples_entry _ _ _ _ _ _ _ _ _ _ _ Nd E I) as (xs & g1 & g2 & D & Ev).
      simpl in Ev. injection Ev as <- _. exact D.
    + intros var a b I Eq.
      destruct (@generate_samples_entry _ _ _ _ _ _ _ _ _ _ _ Nd E I) as (xs & g1 & g2 & D & Ev).
      simpl in Ev. rewrite Eq in Ev. injection Ev as <- _. exact D.
  - intros F G N S var n g. split.
    + intros v. reflexivity.
    + intros a b Eq. rewrite generate_samples_single. simpl. rewrite Eq.
      reflexivity.
  - intros neg m e. apply literal_eqb_refl.
  - intros a. apply eqb_true. reflexivity.
Qed.

Lemma constant_arrays_witness :
  generate_samples (H0 := ExactLibrary.still)
    [(text "var0", Range (-3)%R (-3)%R)] 4 tt
  = (Ok [(text "var0", repeat (-3)%R 4)], tt).
Proof.
  apply (proj2 (proj1 (proj2 constant_arrays) R unit exact ExactLibrary.still
                  (text "var0") 4 tt)).
  apply eqb_true. reflexivity.
Defined.


End Sampler.

Section Sampler2.
Local Open Scope py_scope.


Lemma still_draws_sized :
  ExactLibrary.draws_sized ExactLibrary.still_normal ExactLibrary.still_truncated.
Proof. split; intros; apply repeat_length. Qed.

Lemma still_draws_truncated :
  ExactLibrary.draws_truncated ExactLibrary.still_truncated.
Proof.
  intros a b size g L. simpl. apply Forall_forall. intros t I.
  apply repeat_spec in I. subst. lra.
Qed.



(** C1, as the code has it.  For a range from [a] to [b] with two different
    bounds and [a] positive, the guard decides: when the spread
    [sigma = (ln b - ln a) / (2 * 2.576)] that the sampler computes is
    positive, the sampler asks the log-normal sampler of the library for
    [n] draws of the mean [mu = (ln a + ln b) / 2] and of this [sigma], and
    the array is what the library returns; otherwise the sampler ends with
    the invalid distribution error.  What the draws are is left to the
    library and to its arithmetic: in double precision the range [1,1e999]
    has an infinite upper bound and passes the guard, and the library is
    asked for the mean [inf] and the deviation [inf].  In exact arithmetic
    the spread of every range with [0 < a < b] is positive: the array holds
    the exponential of [mu + sigma * z] for each of the [n] standard normal
    draws [z] of the generator, and every one of them is positive. *)
Theorem lognormal_samples :
  (forall F G (N : Numeric F) (S : Sampling F G) var (a b : F) n g,
      (a == b) = false -> (a > of_int 0) = true ->
      let mu := (np_log a + np_log b) / of_int 2 in
      let sigma := (np_log b - np_log a) / (of_int 2 * z_score) in
      sample_value var (Range a b) n g =
      if sigma <= of_int 0
      then (Err (InvalidDistributionError LogNormal var), g)
      else match np_random_lognormal mu sigma n g with
           | (Some xs, g') => (Ok xs, g')
           | (None, g') => (Err LibraryError, g')
           end) /\
  (parse_expression (F := Binary64.float) (text "1,1e999")
   = Ok (text "var0",
         [(text "var0", Range (of_int 1) (S754_infinity false))]) /\
   forall G (S : Sampling Binary64.float G) var n g,
      np_log (F := Binary64.float) (of_int 1) = S754_zero false ->
      np_log (F := Binary64.float) (S754_infinity false)
      = S754_infinity false ->
      sample_value (F := Binary64.float) var
        (Range (of_int (F := Binary64.float) 1) (S754_infinity false)) n g =
      match np_random_lognormal (S754_infinity false) (S754_infinity false)
              n g with
      | (Some xs, g') => (Ok xs, g')
      | (None, g') => (Err LibraryError, g')
      end) /\
  (forall G (standard_normal : nat -> G -> list R * G)
          (truncated_standard_normal : R -> R -> nat -> G -> list R * G),
      ExactLibrary.draws_sized standard_normal truncated_standard_normal ->
   forall (var : str) (a b : R) (n : nat) (g : G),
      (0 < a < b)%R ->
      let mu := ((ln a + ln b) / 2)%R in
      let sigma := ((ln b - ln a) / (2 * (2576 / 1000)))%R in
      let draw := fun z => exp (mu + sigma * z)%R in
      exists zs g',
        standard_normal n g = (zs, g') /\
        length zs = n /\
        generate_samples
          (H0 := ExactLibrary.sampling standard_normal
                   truncated_standard_normal)
          [(var, Range a b)] n g
        = (Ok [(var, map draw zs)], g') /\
        Forall (fun x => (0 < x)%R) (map draw zs)).
Proof.
  split; [|split; [split|]].
  - intros F G N S var a b n g E P mu sigma. simpl. rewrite E, P. reflexivity.
  - vm_compute. reflexivity.
  - intros G S var n g L1 Li.
    assert (E : feqb (F := Binary64.float) (of_int 1) (S754_infinity false)
                = false) by reflexivity.
    assert (P : fltb (F := Binary64.float) (of_int 0) (of_int 1) = true)
      by reflexivity.
    unfold sample_value. rewrite E, P.
    unfold lognormal_sigma, lognormal_mu. rewrite L1, Li. reflexivity.
  - intros G sn tsn [Sn _] var a b n g AB mu sigma draw.
    specialize (Sn n g).
    exists (fst (sn n g)), (snd (sn n g)).
    split; [destruct (sn n g); reflexivity|]. split; [exact Sn|]. split.
    + rewrite generate_samples_single,
        (sample_value_lognormal sn tsn var n g AB).
      reflexivity.
    + apply Forall_forall. intros x I. apply in_map_iff in I as (z & <- & _).
      apply exp_pos.
Qed.

Lemma lognormal_samples_witness :
  sample_value (F := Binary64.float)
    (H0 := {| np_log := fun x : Binary64.float =>
                match x with
                | S754_infinity false => x
                | _ => S754_zero false
                end;
              np_random_lognormal := fun _ _ size (g : unit) =>
                (Some (repeat S754_nan size), g);
              truncnorm_rvs := fun _ _ _ _ _ g => (None, g);
              np_add_reduce := fun xs => fold_left fadd xs (of_int 0) |})
    (text "var0") (Range (of_int 1) (S754_infinity false)) 3 tt
  = (Ok [S754_nan; S754_nan; S754_nan], tt) /\
  exists zs g',
    ExactLibrary.still_normal 3 tt = (zs, g') /\
    length zs = 3 /\
    generate_samples (H0 := ExactLibrary.still)
      [(text "var0", Range 10%R 100%R)] 3 tt
    = (Ok [(text "var0",
            map (fun z => exp ((ln 10 + ln 100) / 2
                               + (ln 100 - ln 10) / (2 * (2576 / 1000)) * z)%R)
              zs)], g') /\
    Forall (fun x => (0 < x)%R)
      (map (fun z => exp ((ln 10 + ln 100) / 2
                          + (ln 100 - ln 10) / (2 * (2576 / 1000)) * z)%R) zs).
Proof.
  split.
  - apply (proj2 (proj1 (proj2 lognormal_samples)) unit
             {| np_log := fun x : Binary64.float =>
                  match x with
                  | S754_infinity false => x
                  | _ => S754_zero false
                  end;
                np_random_lognormal := fun _ _ size (g : unit) =>
                  (Some (repeat S754_nan size), g);
                truncnorm_rvs := fun _ _ _ _ _ g => (None, g);
                np_add_reduce := fun xs => fold_left fadd xs (of_int 0) |}
             (text "var0") 3%nat tt); reflexivity.
  - apply (proj2 (proj2 lognormal_samples) unit _ _ still_draws_sized
             (text "var0") 10%R 100%R 3 tt).
    lra.
Defined.

(** C1 as it is stated fails in double precision, whatever logarithm the
    library has.  There are [2^52] doubles from [2^52] up to [2^53], and
    their logarithms lie between 36 and 37; let them only lie from 32 up to
    48, where the doubles have the exponent -47 and [2^51] mantissas.  Then
    the logarithm cannot increase from each double to the next, and for two
    neighbours where it does not, the spread that the sampler computes is
    not positive: the sampler ends with the error on a range
    [0 < a < b]. *)
Lemma lognormal_samples_counterexample :
  ~ exists (G : Type) (S : Sampling Binary64.float G) (g : G),
      (forall a,
          Binary64.between 4503599627370496 9007199254740992 0 a = true ->
          Binary64.between 4503599627370496 6755399441055744 (-47)
            (np_log a) = true) /\
      (forall a b : Binary64.float,
          fltb (of_int 0) a = true -> fltb a b = true ->
          exists xs g',
            sample_value (F := Binary64.float) (text "var0") (Range a b) 1 g
            = (Ok xs, g')).
Proof.
  intros (G & S & g & Hlog & Hdraw).
  set (A := fun k : Z =>
              S754_finite false (Z.to_pos (4503599627370496 + k)) 0
              : Binary64.float).
  set (mant := fun x : Binary64.float =>
                 match x with S754_finite _ m _ => Zpos m | _ => 0%Z end).
  assert (InA : forall k, (0 <= k < 4503599627370496)%Z ->
            Binary64.between 4503599627370496 9007199254740992 0 (A k) = true).
  { intros k K. unfold A, Binary64.between. rewrite Z.eqb_refl.
    rewrite Z2Pos.id by lia. cbn [andb].
    apply andb_true_iff. split; [apply Z.leb_le | apply Z.ltb_lt]; lia. }
  assert (LogA : forall k, (0 <= k < 4503599627370496)%Z ->
            exists m, np_log (A k) = S754_finite false m (-47) /\
              (4503599627370496 <= Zpos m < 6755399441055744)%Z).
  { intros k K. pose proof (Hlog _ (InA k K)) as B.
    match type of B with
    | Binary64.between _ _ _ ?x = true =>
        destruct x as [s|s| |s m e] eqn:Ex
    end; unfold Binary64.between in B; try discriminate B.
    destruct s; [discriminate B|].
    apply andb_true_iff in B as [B B3]. apply andb_true_iff in B as [B1 B2].
    apply Z.eqb_eq in B1. apply Z.leb_le in B2. apply Z.ltb_lt in B3.
    subst e. exists m. auto. }
  assert (Grow : forall k, (0 <= k)%Z -> (k <= 2251799813685248)%Z ->
            (4503599627370496 + k <= mant (np_log (A k)))%Z).
  { intros k K. pattern k. apply natlike_ind; [| |exact K]; clear k K.
    - intros _. destruct (LogA 0%Z ltac:(lia)) as (m & -> & B). simpl. lia.
    - intros k K IH Ks. specialize (IH ltac:(lia)).
      destruct (LogA k ltac:(lia)) as (la & Ea & Ba).
      destruct (LogA (Z.succ k) ltac:(lia)) as (lb & Eb & Bb).
      rewrite Ea in IH. rewrite Eb. cbn [mant] in *.
      destruct (Z_le_gt_dec (Zpos lb) (Zpos la)) as [Le | Gt]; [|lia].
      assert (Le' : (lb <= la)%positive) by lia. clear Le.
      exfalso.
      destruct (Hdraw (A k) (A (Z.succ k))) as (xs & g' & E).
      + reflexivity.
      + unfold A. cbn [fltb binary64]. unfold SFltb, SFcompare. cbn [Z.compare].
        change (Pos.compare_cont Eq ?x ?y) with (x ?= y)%positive.
        rewrite (proj2 (Pos.compare_lt_iff _ _)); [reflexivity|]. lia.
      + unfold A in E, Ea, Eb.
        rewrite (@sampler_refuses G S (text "var0") _ _ la lb (-47)%Z 1 g) in E;
          [discriminate | lia | exact Ea | exact Eb | exact Le']. }
  specialize (Grow 2251799813685248%Z ltac:(lia) ltac:(lia)).
  destruct (LogA 2251799813685248%Z ltac:(lia)) as (m & E & B).
  rewrite E in Grow. cbn [mant] in Grow. lia.
Qed.

(** C2, as the code has it.  For a range from [a] to [b] with two different
    bounds and [a] not positive, the guard decides: when the spread
    [sigma = (b - a) / (2 * 2.576)] that the sampler computes is positive,
    the sampler asks [truncnorm.rvs] for [n] draws between the bounds
    [(a - mu) / sigma] and [(b - mu) / sigma], of the location
    [mu = (a + b) / 2] and the scale [sigma]: the array is what the library
    returns, and an exception that it raises ends the run; otherwise the
    sampler ends with the invalid distribution error.  In double precision
    the difference of the bounds of [-1e308,1e308] overflows: the spread is
    infinite, the guard is passed, and the call is
    [truncnorm.rvs(-0.0, 0.0, loc=0.0, scale=inf, size=n)].  In exact
    arithmetic the spread of every such range with [a < b] is positive, the
    bounds are [-2.576] and [2.576], the interval of the truncation is
    exactly the interval from [a] to [b], and each of the [n] draws lies in
    it. *)
Theorem truncated_normal_samples :
  (forall F G (N : Numeric F) (S : Sampling F G) var (a b : F) n g,
      (a == b) = false -> (a > of_int 0) = false ->
      let mu := (a + b) / of_int 2 in
      let sigma := (b - a) / (of_int 2 * z_score) in
      sample_value var (Range a b) n g =
      if sigma <= of_int 0
      then (Err (InvalidDistributionError TruncatedNormal var), g)
      else match truncnorm_rvs ((a - mu) / sigma) ((b - mu) / sigma)
                   mu sigma n g with
           | (Some xs, g') => (Ok xs, g')
           | (None, g') => (Err LibraryError, g')
           end) /\
  (forall G (S : Sampling Binary64.float G) var (n : nat) (g : G),
      sample_value (F := Binary64.float) var
        (Range (Binary64.of_decimal true 1 308)
           (Binary64.of_decimal false 1 308)) n g
      = match truncnorm_rvs (S754_zero true) (S754_zero false)
                (S754_zero false) (S754_infinity false) n g with
        | (Some xs, g') => (Ok xs, g')
        | (None, g') => (Err LibraryError, g')
        end) /\
  (forall G (standard_normal : nat -> G -> list R * G)
          (truncated_standard_normal : R -> R -> nat -> G -> list R * G),
      ExactLibrary.draws_sized standard_normal truncated_standard_normal ->
      ExactLibrary.draws_truncated truncated_standard_normal ->
   forall (var : str) (a b : R) (n : nat) (g : G),
      (a <= 0)%R -> (a < b)%R ->
      let mu := ((a + b) / 2)%R in
      let sigma := ((b - a) / (2 * (2576 / 1000)))%R in
      let draw := fun t => (mu + sigma * t)%R in
      exists ts g',
        truncated_standard_normal (- (2576 / 1000))%R (2576 / 1000)%R n g
        = (ts, g') /\
        length ts = n /\
        generate_samples
          (H0 := ExactLibrary.sampling standard_normal
                   truncated_standard_normal)
          [(var, Range a b)] n g
        = (Ok [(var, map draw ts)], g') /\
        draw (- (2576 / 1000))%R = a /\ draw (2576 / 1000)%R = b /\
        Forall (fun x => (a <= x <= b)%R) (map draw ts)).
Proof.
  split; [|split].
  - intros F G N S var a b n g E P mu sigma. simpl. rewrite E, P. reflexivity.
  - intros G S var n g. reflexivity.
  - intros G sn tsn [_ St] Tr var a b n g A B mu sigma draw.
    specialize (St (- (2576 / 1000))%R (2576 / 1000)%R n g).
    specialize (Tr (- (2576 / 1000))%R (2576 / 1000)%R n g ltac:(lra)).
    exists (fst (tsn (- (2576 / 1000))%R (2576 / 1000)%R n g)),
           (snd (tsn (- (2576 / 1000))%R (2576 / 1000)%R n g)).
    split; [destruct (tsn _ _ n g); reflexivity|]. split; [exact St|].
    split; [|split; [|split]].
    + rewrite generate_samples_single,
        (sample_value_truncnorm sn tsn var n g A B). reflexivity.
    + unfold draw, mu, sigma. field.
    + unfold draw, mu, sigma. field.
    + apply Forall_forall. intros x I. apply in_map_iff in I as (t & <- & It).
      rewrite Forall_forall in Tr. specialize (Tr t It).
      assert (Sp : (0 < sigma)%R) by (unfold sigma; apply Rdiv_lt_0_compat; lra).
      assert (Ea : (a = mu + sigma * - (2576 / 1000))%R)
        by (unfold mu, sigma; field).
      assert (Eb : (b = mu + sigma * (2576 / 1000))%R)
        by (unfold mu, sigma; field).
      assert (H1 : (0 <= sigma * (t + 2576 / 1000))%R)
        by (apply Rmult_le_pos; lra).
      assert (H2 : (0 <= sigma * (2576 / 1000 - t))%R)
        by (apply Rmult_le_pos; lra).
      unfold draw. clearbody mu sigma. split; lra.
Qed.

Lemma truncated_normal_samples_witness :
  exists ts g',
    ExactLibrary.still_truncated (- (2576 / 1000))%R (2576 / 1000)%R 3 tt
    = (ts, g') /\
    length ts = 3 /\
    generate_samples (H0 := ExactLibrary.still)
      [(text "var0", Range (-1)%R 2%R)] 3 tt
    = (Ok [(text "var0",
            map (fun t => ((-1 + 2) / 2
                           + (2 - -1) / (2 * (2576 / 1000)) * t)%R) ts)], g') /\
    ((-1 + 2) / 2 + (2 - -1) / (2 * (2576 / 1000)) * - (2576 / 1000) = -1)%R /\
    ((-1 + 2) / 2 + (2 - -1) / (2 * (2576 / 1000)) * (2576 / 1000) = 2)%R /\
    Forall (fun x => (-1 <= x <= 2)%R)
      (map (fun t => ((-1 + 2) / 2
                      + (2 - -1) / (2 * (2576 / 1000)) * t)%R) ts).
Proof.
  apply (proj2 (proj2 truncated_normal_samples) unit _ _ still_draws_sized
           still_draws_truncated (text "var0") (-1)%R 2%R 3 tt); lra.
Defined.

(** C2 as it is stated fails on [0,5e-324] in double precision: the lower
    bound is zero and below the upper bound, the spread underflows to zero,
    and the sampler ends with the error whatever the libraries and the
    sample count are. *)
Lemma truncated_normal_samples_counterexample :
  parse_expression (F := Binary64.float) (text "0,5e-324")
  = Ok (text "var0",
        [(text "var0", Range (S754_zero false) (S754_finite false 1 (-1074)))])
  /\
  ~ exists G (S : Sampling Binary64.float G) n g xs g',
      sample_value (text "var0")
        (Range (S754_zero false) (S754_finite false 1 (-1074))) n g
      = (Ok xs, g').
Proof.
  split; [reflexivity|].
  intros (G & S & n & g & xs & g' & E).
  assert (X : sample_value (text "var0")
                (Range (S754_zero false) (S754_finite false 1 (-1074))) n g
              = (Err (InvalidDistributionError TruncatedNormal (text "var0")), g))
    by reflexivity.
  rewrite X in E. discriminate E.
Qed.

End Sampler2.

(** ** The statistics *)

Section Reducer.
Local Open Scope py_scope.




End Reducer.

(** * Further properties of the program *)

(** ** The scan of [re.sub], step by step *)

Section Scan.
Variable St : Type.
Variable r : regex.
Variable repl : str -> St -> str * St.

(** The steps of the scan are as many as the characters at most: more fuel
    changes nothing. *)
Lemma sub_loop_fuel fuel : forall s st,
  length s <= fuel ->
  sub_loop r repl fuel s st = sub_loop r repl (length s) s st.
Proof.
  induction fuel as [fuel IH] using lt_wf_ind. intros s st L.
  destruct s as [|c s']; [destruct fuel; reflexivity|].
  destruct fuel as [|fuel]; [simpl in L; lia|].
  cbn [length sub_loop].
  destruct (match_prefix r (c :: s')) as [[[m g] rest]|] eqn:Em.
  - destruct m as [|c0 m].
    + rewrite (IH fuel) by (simpl in L; lia). reflexivity.
    + apply match_prefix_sound in Em as [_ Es].
      assert (Lr : length rest <= length s').
      { apply (f_equal (@length ascii)) in Es. rewrite length_app in Es.
        simpl in Es. lia. }
      destruct (repl (c0 :: m) st) as [out st1].
      rewrite (IH fuel) by (simpl in L; lia).
      rewrite (IH (length s')) by (simpl in L; lia). reflexivity.
  - rewrite (IH fuel) by (simpl in L; lia). reflexivity.
Qed.

(** Where a match begins, it is replaced and the scan goes on behind it. *)
Lemma sub_token s c0 m g rest st :
  match_prefix r s = Some (c0 :: m, g, rest) ->
  sub r repl s st =
  let (out, st1) := repl (c0 :: m) st in
  let (out', st2) := sub r repl rest st1 in
  (out ++ out', st2).
Proof.
  intros Em. unfold sub. destruct s as [|c s'].
  { apply match_prefix_sound in Em as [_ Es]. discriminate. }
  cbn [length sub_loop]. rewrite Em.
  apply match_prefix_sound in Em as [_ Es].
  destruct (repl (c0 :: m) st) as [out st1].
  rewrite sub_loop_fuel; [reflexivity|].
  apply (f_equal (@length ascii)) in Es. rewrite length_app in Es.
  simpl in Es. lia.
Qed.

(** Where no match begins, the character is copied. *)
Lemma sub_keep c s' st :
  (forall c0 m g rest, match_prefix r (c :: s') <> Some (c0 :: m, g, rest)) ->
  sub r repl (c :: s') st =
  let (out', st1) := sub r repl s' st in (c :: out', st1).
Proof.
  intros N. unfold sub. cbn [length sub_loop].
  destruct (match_prefix r (c :: s')) as [[[m g] rest]|] eqn:Em;
    [|reflexivity].
  destruct m as [|c0 m]; [reflexivity|].
  exfalso. exact (N _ _ _ _ eq_refl).
Qed.

End Scan.

(** ** The number at the start of a text *)

Section Greedy.
Variable A : Type.

Lemma star_greedy p ds rest (k : str -> option A) x :
  forallb p ds = true ->
  match rest with [] => True | c :: _ => p c = false end ->
  k rest = Some x -> star p (ds ++ rest) k = Some x.
Proof.
  intros P R K. induction ds as [|d ds IH]; simpl.
  - destruct rest as [|c rest]; [exact K|]. simpl in R |- *.
    rewrite R. exact K.
  - simpl in P. apply andb_true_iff in P as [Pd P].
    rewrite Pd, (IH P). reflexivity.
Qed.

Lemma plus_greedy p d ds rest g (k : str -> groups -> option A) x :
  p d = true -> forallb p ds = true ->
  match rest with [] => True | c :: _ => p c = false end ->
  k rest g = Some x -> exec (Plus p) (d :: ds ++ rest) g k = Some x.
Proof.
  intros Pd P R K. unfold Plus. cbn [exec]. rewrite Pd.
  apply star_greedy; assumption.
Qed.

(** The text behind a number cannot continue the number: it is empty, or
    its first character is no digit, no point and no letter [e]. *)
Local Abbreviation stops rest :=
  (match rest with
   | [] => True
   | c :: _ => is_digit c = false /\ ascii_in (text ".eE") c = false
   end).

Local Abbreviation exponent :=
  (Seq (OneOf "eE") (Seq (Opt (OneOf "-+")) (Plus is_digit))).
Local Abbreviation fraction := (Seq (Chr ".") (Plus is_digit)).

Lemma exponent_greedy ex rest g (k : str -> groups -> option A) x :
  (ex = [] \/ exists e sg' x xs, ex = e :: sg' ++ x :: xs /\
        ascii_in (text "eE") e = true /\
        (sg' = [] \/ exists c, sg' = [c] /\ ascii_in (text "-+") c = true) /\
        is_digit x = true /\ forallb is_digit xs = true) ->
  stops rest -> k rest g = Some x ->
  exec (Opt exponent) (ex ++ rest) g k = Some x.
Proof.
  intros Hex R K.
  assert (Rd : match rest with [] => True | c :: _ => is_digit c = false end).
  { destruct rest; [exact I | apply R]. }
  destruct Hex as [-> | (e & sg' & y & ys & -> & Pe & Hsg' & Py & Pys)].
  - cbn [app exec OneOf]. destruct rest as [|c rest]; [exact K|].
    destruct R as [_ R].
    change (ascii_in (text ".eE") c)
      with (Ascii.eqb c "." || ascii_in (text "eE") c) in R.
    apply orb_false_iff in R as [_ R]. unfold OneOf. rewrite R. exact K.
  - cbn [app]. cbn [exec OneOf]. rewrite Pe.
    destruct Hsg' as [-> | (c & -> & Pc)]; cbn [app].
    + destruct (digit_not_sign _ Py) as [N1 N2].
      replace (ascii_in (text "-+") y) with false
        by (unfold ascii_in, text; cbn [list_ascii_of_string existsb];
            rewrite N1, N2; reflexivity).
      rewrite (@plus_greedy is_digit y ys rest g k x Py Pys Rd K). reflexivity.
    + rewrite Pc.
      rewrite (@plus_greedy is_digit y ys rest g k x Py Pys Rd K). reflexivity.
Qed.

Lemma fraction_greedy frac rest g (k : str -> groups -> option A) x :
  (frac = [] \/ exists f fs, frac = "."%char :: f :: fs /\
        is_digit f = true /\ forallb is_digit fs = true) ->
  match rest with
  | [] => True
  | c :: _ => is_digit c = false /\ Ascii.eqb c "." = false
  end ->
  k rest g = Some x ->
  exec (Opt fraction) (frac ++ rest) g k = Some x.
Proof.
  intros Hfrac R K.
  assert (Rd : match rest with [] => True | c :: _ => is_digit c = false end).
  { destruct rest; [exact I | apply R]. }
  destruct Hfrac as [-> | (f & fs & -> & Pf & Pfs)].
  - cbn [app exec Chr]. destruct rest as [|c rest]; [exact K|].
    destruct R as [_ R]. unfold Chr. rewrite Ascii.eqb_sym, R. exact K.
  - cbn [app]. cbn [exec Chr]. rewrite Ascii.eqb_refl.
    rewrite (@plus_greedy is_digit f fs rest g k x Pf Pfs Rd K). reflexivity.
Qed.

(** The matcher reads a number to its end when the text behind it cannot
    continue it. *)
Lemma number_greedy n rest g (k : str -> groups -> option A) x :
  matches number_pattern n -> stops rest -> k rest g = Some x ->
  exec number_pattern (n ++ rest) g k = Some x.
Proof.
  intros M R K. apply number_shape in M
    as (sg & d & ds & frac & ex & -> & Hsg & Pd & Pds & Hfrac & Hex).
  pose proof (@exponent_greedy _ _ g k _ Hex R K) as E3.
  assert (R2 : match ex ++ rest with
               | [] => True
               | c :: _ => is_digit c = false /\ Ascii.eqb c "." = false
               end).
  { destruct Hex as [-> | (e & sg' & y & ys & -> & Pe & _)].
    - simpl. destruct rest as [|c rest]; [exact I|]. destruct R as [Rd R].
      split; [exact Rd|].
      change (ascii_in (text ".eE") c)
        with (Ascii.eqb c "." || ascii_in (text "eE") c) in R.
      apply orb_false_iff in R as [R _]. exact R.
    - simpl. apply letter_e_not_digit, Pe. }
  pose proof (@fraction_greedy _ _ g
                (fun s1 g1 => exec (Opt exponent) s1 g1 k) _ Hfrac R2 E3)
    as E2.
  assert (R1 : match frac ++ ex ++ rest with
               | [] => True
               | c :: _ => is_digit c = false
               end).
  { destruct Hfrac as [-> | (f & fs & -> & _)]; [|reflexivity].
    simpl. destruct (ex ++ rest); [exact I | apply R2]. }
  assert (E1 : exec (Seq (Plus is_digit) (Seq (Opt fraction) (Opt exponent)))
                 ((d :: ds) ++ frac ++ ex ++ rest) g k = Some x).
  { cbn [exec]. cbn [app].
    apply (@plus_greedy is_digit d ds (frac ++ ex ++ rest) g
             (fun s1 g1 => exec (Opt fraction) s1 g1
                (fun s2 g2 => exec (Opt exponent) s2 g2 k)) x Pd Pds R1).
    exact E2. }
  unfold number_pattern. cbn [exec]. rewrite <- !app_assoc.
  destruct Hsg as [-> | ->]; cbn [app].
  - unfold Chr at 1. cbn [exec].
    destruct (digit_not_sign _ Pd) as [N1 _].
    rewrite Ascii.eqb_sym, N1. exact E1.
  - unfold Chr at 1. cbn [exec]. rewrite Ascii.eqb_refl.
    cbn [exec app] in E1. rewrite E1. reflexivity.
Qed.

End Greedy.

Abbreviation stops rest :=
  (match rest with
   | [] => True
   | c :: _ => is_digit c = false /\ ascii_in (text ".eE") c = false
   end).

(** Where a number ends is decided by the text: two numbers that begin at
    the same place and both end where they cannot go on are the same. *)
Lemma number_end_unique n1 r1 n2 r2 :
  matches number_pattern n1 -> matches number_pattern n2 ->
  stops r1 -> stops r2 -> n1 ++ r1 = n2 ++ r2 -> n1 = n2 /\ r1 = r2.
Proof.
  intros M1 M2 R1 R2 E.
  pose proof (@number_greedy _ n1 r1 [] (fun s _ => Some s) r1 M1 R1 eq_refl)
    as E1.
  pose proof (@number_greedy _ n2 r2 [] (fun s _ => Some s) r2 M2 R2 eq_refl)
    as E2.
  rewrite E, E2 in E1. injection E1 as <-.
  apply app_inv_tail in E. auto.
Qed.

(** A literal begins with a digit, or with a minus sign and a digit. *)
Lemma number_start n :
  matches number_pattern n ->
  exists d n', is_digit d = true /\ (n = d :: n' \/ n = "-"%char :: d :: n').
Proof.
  intros M. apply number_shape in M
    as (sg & d & ds & frac & ex & -> & Hsg & Pd & _).
  exists d, (ds ++ frac ++ ex). split; [exact Pd|].
  destruct Hsg as [-> | ->]; [left | right]; reflexivity.
Qed.

Lemma literal_start t :
  is_literal (Replaced t) ->
  exists d t', is_digit d = true /\ (t = d :: t' \/ t = "-"%char :: d :: t').
Proof.
  intros [M | M].
  - apply number_start, M.
  - apply range_of_matches in M as (n1 & w1 & w2 & n2 & -> & M1 & _).
    destruct (number_start M1) as (d & n' & Pd & [-> | ->]);
      exists d, (n' ++ w1 ++ ","%char :: w2 ++ n2); (split; [exact Pd|]);
      [left | right]; reflexivity.
Qed.

(** A token begins exactly at a digit and at a minus sign before a digit. *)
Lemma token_begins s :
  token_start s = true <->
  exists c0 m g rest, match_prefix token_pattern s = Some (c0 :: m, g, rest).
Proof.
  split.
  - intros T.
    assert (P : exists q s', s = q ++ s' /\ matches number_pattern q).
    { destruct s as [|c s']; [discriminate|]. simpl in T.
      assert (D : forall d, is_digit d = true -> matches number_pattern [d]).
      { intros d Pd. apply number_shape. exists [], d, [], [], [].
        repeat split; auto. }
      apply orb_true_iff in T as [T | T].
      - exists [c], s'. split; [reflexivity | apply D, T].
      - apply andb_true_iff in T as [Tc Td]. apply Ascii.eqb_eq in Tc as ->.
        destruct s' as [|d s'']; [discriminate|].
        exists ["-"%char; d], s''. split; [reflexivity|].
        apply number_shape. exists ["-"%char], d, [], [], [].
        repeat split; auto. }
    destruct P as (q & s' & -> & M).
    assert (Mt : matches token_pattern q)
      by (apply M_group, M_alt_r, M).
    pose proof (match_prefix_complete s' Mt) as C.
    destruct (match_prefix token_pattern (q ++ s')) as [[[m g] rest]|] eqn:E;
      [|congruence].
    apply token_literal in E as [_ L].
    destruct (literal_start L) as (d & t' & _ & [-> | ->]); eauto.
  - intros (c0 & m & g & rest & E).
    apply token_literal in E as [-> L].
    destruct (literal_start L) as (d & t' & Pd & [-> | ->]); simpl;
      rewrite Pd; reflexivity.
Qed.

Lemma token_none c s' :
  token_start (c :: s') = false ->
  forall c0 m g rest,
    match_prefix token_pattern (c :: s') <> Some (c0 :: m, g, rest).
Proof.
  intros T c0 m g rest E.
  assert (X : token_start (c :: s') = true) by (apply token_begins; eauto).
  congruence.
Qed.

(** The scan as a sequence of pieces that says where each piece stands. *)
Lemma sub_pieces_start n : forall s var_index tokens,
  length s <= n ->
  exists ps,
    s = source ps /\
    sub token_pattern replace_token s (var_index, tokens)
    = (rewritten var_index ps,
       (var_index + length (placeholders var_index ps),
        tokens ++ placeholders var_index ps)) /\
    forall before p after, ps = before ++ p :: after ->
      match p with
      | Kept c => token_start (c :: source after) = false
      | Replaced t => token_start (t ++ source after) = true
      end.
Proof.
  induction n as [|n IH]; intros s var_index tokens L.
  { destruct s; [|simpl in L; lia]. exists []. simpl.
    rewrite Nat.add_0_r, app_nil_r. repeat split.
    intros [|? ?] ? ? E; discriminate E. }
  destruct s as [|c s'].
  { exists []. simpl. rewrite Nat.add_0_r, app_nil_r. repeat split.
    intros [|? ?] ? ? E; discriminate E. }
  destruct (token_start (c :: s')) eqn:T.
  - pose proof T as T'.
    apply token_begins in T' as (c0 & m & g & rest & E).
    rewrite (@sub_token _ _ replace_token _ _ _ _ _ (var_index, tokens) E).
    apply token_literal in E as [Es _].
    assert (Lr : length rest <= n).
    { apply (f_equal (@length ascii)) in Es. rewrite length_app in Es.
      simpl in Es, L. lia. }
    unfold replace_token at 1.
    destruct (IH rest (S var_index)
                (tokens ++ [(var_name var_index, (c0 :: m : str))]) Lr)
      as (ps & Er & Eq & St).
    exists (Replaced (c0 :: m) :: ps). rewrite Eq, Es.
    split; [simpl; rewrite <- Er; reflexivity|]. split.
    + simpl. rewrite <- app_assoc. simpl. f_equal. f_equal. lia.
    + intros [|b before] p after Ep; injection Ep as <- Ep.
      * subst ps. rewrite <- Er, <- Es. exact T.
      * exact (St _ _ _ Ep).
  - rewrite (@sub_keep _ _ replace_token _ _ (var_index, tokens) (@token_none _ _ T)).
    destruct (IH s' var_index tokens) as (ps & Er & Eq & St);
      [simpl in L; lia|].
    exists (Kept c :: ps). rewrite Eq.
    split; [simpl; rewrite <- Er; reflexivity|]. split; [reflexivity|].
    intros [|b before] p after Ep; injection Ep as <- Ep.
    + subst ps. rewrite <- Er. exact T.
    + exact (St _ _ _ Ep).
Qed.

(** X1. Where the tokens are.  For every expression the scan splits the
    text into kept characters and tokens, and each piece stands where it
    must: a kept character stands where no token can begin, so it is no
    digit and no minus sign before a digit, and a token stands where one can
    begin.  No digit of the input is left in the rewritten expression as a
    kept character: the digits there are those of the placeholders. *)
Theorem tokens_where_they_begin :
  forall expr : str,
  exists ps : list piece,
    expr = source ps /\
    substitute expr = (rewritten 0 ps, placeholders 0 ps) /\
    (forall before p after, ps = before ++ p :: after ->
       match p with
       | Kept c => token_start (c :: source after) = false
       | Replaced t => token_start (t ++ source after) = true
       end) /\
    (forall c, In (Kept c) ps -> is_digit c = false).
Proof.
  intros expr.
  destruct (@sub_pieces_start (length expr) expr 0 [] (le_n _))
    as (ps & Es & Eq & St).
  exists ps. split; [exact Es|]. split; [|split; [exact St|]].
  - unfold substitute. rewrite Eq. reflexivity.
  - intros c I. apply in_split in I as (before & after & E).
    specialize (St _ _ _ E). simpl in St.
    apply orb_false_iff in St as [St _]. exact St.
Qed.

Lemma tokens_where_they_begin_witness :
  exists ps : list piece,
    text "log10(5)-3" = source ps /\
    substitute (text "log10(5)-3") = (rewritten 0 ps, placeholders 0 ps) /\
    (forall before p after, ps = before ++ p :: after ->
       match p with
       | Kept c => token_start (c :: source after) = false
       | Replaced t => token_start (t ++ source after) = true
       end) /\
    (forall c, In (Kept c) ps -> is_digit c = false).
Proof. exact (tokens_where_they_begin (text "log10(5)-3")). Defined.

(** ** The table of placeholders *)

Lemma to_uint_nonnil n : Nat.to_uint n <> Decimal.Nil.
Proof.
  rewrite <- (DecimalNat.Unsigned.of_to n) at 1.
  rewrite DecimalNat.Unsigned.to_of. apply DecimalFacts.unorm_nonnil.
Qed.

Lemma var_name_inj i j : var_name i = var_name j -> i = j.
Proof.
  unfold var_name. intros E. apply app_inv_head in E. unfold text in E.
  apply (f_equal string_of_list_ascii) in E.
  rewrite !string_of_list_ascii_of_string in E.
  apply (f_equal NilZero.uint_of_string) in E.
  rewrite !NilZero.usu in E by apply to_uint_nonnil.
  injection E as E. apply DecimalNat.Unsigned.to_uint_inj, E.
Qed.

Lemma placeholders_names ps : forall i,
  map fst (placeholders i ps)
  = map var_name (seq i (length (placeholders i ps))).
Proof.
  induction ps as [|[c|t] ps IH]; intros i; simpl; [reflexivity | apply IH |].
  rewrite IH. reflexivity.
Qed.

Lemma var_names_NoDup i k : NoDup (map var_name (seq i k)).
Proof.
  apply NoDup_map_NoDup_ForallPairs; [|apply seq_NoDup].
  intros x y _ _. apply var_name_inj.
Qed.

Lemma substitute_names expr :
  map fst (snd (substitute expr))
  = map var_name (seq 0 (length (snd (substitute expr)))).
Proof.
  destruct (substitute_pieces expr) as (ps & _ & _ & ->). simpl.
  apply placeholders_names.
Qed.

Section Table.
Context {F : Type} `{Numeric F}.
Local Open Scope py_scope.

Lemma build_var_values_entries tokens : forall (acc d : dict (value F)),
  NoDup (keys acc ++ map fst tokens) ->
  build_var_values tokens acc = Ok d ->
  exists more,
    d = acc ++ more /\
    Forall2 (fun nt kv => fst kv = fst nt /\ token_value (snd nt) = Ok (snd kv))
      tokens more.
Proof.
  induction tokens as [|[name t] tokens IH]; intros acc d Nd E; simpl in E.
  - injection E as <-. exists []. rewrite app_nil_r. split; constructor.
  - destruct (token_value t) as [v|e] eqn:Ev; [|discriminate].
    assert (Fresh : ~ In name (keys acc)).
    { intros I. simpl in Nd. apply NoDup_remove_2 in Nd. apply Nd.
      apply in_or_app. left. exact I. }
    rewrite (@dict_set_fresh _ name v acc Fresh) in E.
    destruct (IH (acc ++ [(name, v)]) d) as (more & -> & All).
    + unfold keys. rewrite map_app. simpl. rewrite <- app_assoc. exact Nd.
    + exact E.
    + exists ((name, v) :: more). rewrite <- app_assoc. split; [reflexivity|].
      constructor; [split; [reflexivity | exact Ev] | exact All].
Qed.

Lemma token_value_ordered t a b :
  token_value t = Ok (Range a b) -> (a > b) = false.
Proof.
  unfold token_value.
  destruct (fullmatch range_pattern t) as [g|].
  - destruct (group 1 g); [|discriminate].
    destruct (group 2 g); [|discriminate].
    destruct (py_float _) as [a'|]; [|discriminate].
    destruct (py_float _) as [b'|]; [|discriminate].
    destruct (a' > b') eqn:E; [discriminate|].
    intros K. injection K as <- <-. exact E.
  - destruct (py_float t); discriminate.
Qed.

End Table.

Lemma Forall2_fst A B (P : A -> B -> Prop) (f : A -> str) (h : B -> str)
    l1 l2 :
  Forall2 (fun x y => h y = f x /\ P x y) l1 l2 -> map h l2 = map f l1.
Proof.
  induction 1 as [|x y l1 l2 [E _] _ IH]; simpl; [reflexivity|].
  rewrite E, IH. reflexivity.
Qed.

Lemma parse_expression_table F (N : Numeric F) (expr expression : str)
    (var_values : dict (value F)) :
  parse_expression expr = Ok (expression, var_values) ->
  keys var_values
  = map var_name (seq 0 (length (snd (substitute expr)))) /\
  Forall2 (fun nt kv =>
             fst kv = fst nt /\ token_value (snd nt) = Ok (snd kv))
    (snd (substitute expr)) var_values.
Proof.
  intros E. pose proof (substitute_names expr) as Names.
  unfold parse_expression in E.
  destruct (substitute expr) as [e tokens]. simpl in Names |- *.
  destruct (build_var_values tokens []) as [d|] eqn:Eb; [|discriminate].
  destruct (contains "," e); [discriminate|].
  injection E as _ <-.
  apply build_var_values_entries in Eb as (more & -> & All).
  2:{ simpl. rewrite Names. apply var_names_NoDup. }
  simpl. split; [|exact All].
  unfold keys. rewrite (Forall2_fst _ _ _ All). exact Names.
Qed.

Lemma parse_expression_NoDup F (N : Numeric F) (expr expression : str)
    (var_values : dict (value F)) :
  parse_expression expr = Ok (expression, var_values) ->
  NoDup (keys var_values).
Proof.
  intros E. apply parse_expression_table in E as [-> _].
  apply var_names_NoDup.
Qed.

(** X2. The table of a successful extraction.  Its keys are the
    placeholders [var0], [var1], ... in the order of the tokens of the scan,
    one for each token and all different; the value of each key is the value
    of its token; and no range of the table has a lower bound greater than
    its upper bound. *)
Theorem placeholder_table :
  forall F (N : Numeric F) (expr expression : str)
         (var_values : dict (value F)),
    parse_expression expr = Ok (expression, var_values) ->
    let tokens := snd (substitute expr) in
    keys var_values = map var_name (seq 0 (length tokens)) /\
    NoDup (keys var_values) /\
    Forall2 (fun nt kv =>
               fst kv = fst nt /\ token_value (snd nt) = Ok (snd kv))
      tokens var_values /\
    (forall var a b, In (var, Range a b) var_values -> fltb b a = false).
Proof.
  intros F N expr expression var_values E tokens. subst tokens.
  pose proof E as Nd. apply parse_expression_NoDup in Nd.
  pose proof E as T. apply parse_expression_table in T as [K All].
  split; [exact K|]. split; [exact Nd|]. split; [exact All|].
  intros var a b I. clear K Nd E.
  induction All as [|[name t] [k v] tokens more [_ Ev] _ IH]; [contradiction|].
  destruct I as [I | I]; [|exact (IH I)].
  injection I as _ ->. simpl in Ev. exact (token_value_ordered _ Ev).
Qed.

Lemma placeholder_table_witness :
  let tokens := snd (substitute (text "2 * (1,10)")) in
  let var_values :=
    [(text "var0", Scalar (of_int 2));
     (text "var1", Range (of_int 1) (of_int 10 : Binary64.float))] in
  keys var_values = map var_name (seq 0 (length tokens)) /\
  NoDup (keys var_values) /\
  Forall2 (fun nt kv =>
             fst kv = fst nt /\ token_value (snd nt) = Ok (snd kv))
    tokens var_values /\
  (forall var a b, In (var, Range a b) var_values -> fltb b a = false).
Proof.
  apply (placeholder_table binary64 (text "2 * (1,10)")
           (expression := text "var0 * (var1)")).
  reflexivity.
Defined.

(** ** The bounds of the table in double precision *)

Lemma SFcompare_antisym x y :
  SFcompare y x = option_map CompOpp (SFcompare x y).
Proof.
  destruct x as [sx|sx| |sx mx ex], y as [sy|sy| |sy my ey]; simpl;
    try reflexivity;
    try (destruct sx; reflexivity); try (destruct sy; reflexivity);
    try (destruct sx, sy; reflexivity).
  destruct sx, sy; try reflexivity;
    rewrite (Z.compare_antisym ex ey);
    destruct (ex ?= ey)%Z; simpl; try reflexivity;
    change (Pos.compare_cont Eq ?a ?b) with (a ?= b)%positive;
    rewrite (Pos.compare_antisym mx my); try reflexivity.
Qed.

Lemma SFleb_of_not_ltb a b :
  a <> S754_nan -> b <> S754_nan -> SFltb b a = false -> SFleb a b = true.
Proof.
  intros Na Nb. unfold SFltb, SFleb. rewrite (SFcompare_antisym a b).
  destruct (SFcompare a b) as [[| |]|] eqn:E; simpl;
    try reflexivity; try discriminate.
  destruct a, b; try congruence; discriminate E.
Qed.

Lemma py_float_number s v :
  py_float (F := Binary64.float) s = Some v -> v <> S754_nan.
Proof.
  unfold py_float. destruct (read_sign s) as [neg s0].
  destruct (span is_digit s0) as [[|d ds] s1]; [discriminate|].
  match goal with
  | |- context [let (_, _) := ?x in _] => destruct x as [fd s2]
  end.
  destruct (read_exponent s2); [|discriminate].
  intros E. injection E as <-. apply of_decimal_number.
Qed.

(** X3. The table in double precision.  After a successful extraction no
    value of the table is NaN, and the bounds of every range are in order:
    the lower bound is less than or equal to the upper bound. *)
Theorem table_bounds_in_order :
  forall (expr expression : str) (var_values : dict (value Binary64.float)),
    parse_expression expr = Ok (expression, var_values) ->
    Forall (fun kv =>
              match snd kv with
              | Scalar v => v <> S754_nan
              | Range a b =>
                  a <> S754_nan /\ b <> S754_nan /\ fleb a b = true
              end) var_values.
Proof.
  intros expr expression var_values E.
  pose proof E as T. apply parse_expression_table in T as [_ All]. clear E.
  induction All as [|[name t] [k v] tokens more [_ Ev] _ IH];
    constructor; [|exact IH].
  simpl in *. unfold token_value in Ev.
  destruct (fullmatch range_pattern t) as [g|].
  - destruct (group 1 g) as [s1|]; [|discriminate].
    destruct (group 2 g) as [s2|]; [|discriminate].
    destruct (py_float s1) as [a|] eqn:Ea; [|discriminate].
    destruct (py_float s2) as [b|] eqn:Eb; [|discriminate].
    destruct (fltb b a) eqn:Lt; [discriminate|].
    injection Ev as <-.
    apply py_float_number in Ea, Eb.
    split; [exact Ea|]. split; [exact Eb|].
    apply SFleb_of_not_ltb; assumption.
  - destruct (py_float t) as [x|] eqn:Ex; [|discriminate].
    injection Ev as <-. exact (py_float_number _ Ex).
Qed.

Lemma table_bounds_in_order_witness :
  Forall (fun kv =>
            match snd kv with
            | Scalar v => v <> S754_nan
            | Range a b =>
                a <> S754_nan /\ b <> S754_nan /\ fleb a b = true
            end)
    [(text "var0", Scalar (of_int 2));
     (text "var1", Range (of_int 1) (of_int 10 : Binary64.float))].
Proof.
  apply (table_bounds_in_order (text "2 * (1,10)")
           (expression := text "var0 * (var1)")).
  reflexivity.
Defined.

(** ** Literals and the text between them *)

Lemma comma_not_number c : number_char c = true -> Ascii.eqb c "," = false.
Proof.
  destruct c as [[|] [|] [|] [|] [|] [|] [|] [|]]; try reflexivity; discriminate.
Qed.

Lemma number_no_comma n : matches number_pattern n -> contains "," n = false.
Proof.
  intros M. apply number_chars in M. unfold contains.
  induction n as [|c n IH]; [reflexivity|]. simpl in M. cbn [existsb].
  apply andb_true_iff in M as [Mc M].
  rewrite Ascii.eqb_sym, (comma_not_number _ Mc). exact (IH M).
Qed.

Lemma contains_app c s t : contains c (s ++ t) = contains c s || contains c t.
Proof. unfold contains. apply existsb_app. Qed.

(** A number that the text behind it cannot continue, and no comma in that
    text: the token taken there is the number. *)
Lemma token_number n rest :
  matches number_pattern n -> stops rest -> contains "," rest = false ->
  exists g, match_prefix token_pattern (n ++ rest) = Some (n, g, rest).
Proof.
  intros M R C. unfold match_prefix, token_pattern. cbn [exec].
  match goal with
  | |- context [exec (range_with 2 3) ?s0 ?g0 ?k0] =>
      destruct (exec (range_with 2 3) s0 g0 k0) as [[[tok g] rest']|] eqn:E
  end.
  - exfalso. unfold range_with in E.
    apply (range_of_sound _ number_free) in E
      as (m1 & v1 & v2 & m2 & r & Es & N1 & V1 & V2 & N2 & _).
    apply matches_star in V1.
    destruct (@number_end_unique n rest m1 (v1 ++ ","%char :: v2 ++ m2 ++ r))
      as [_ Er]; try assumption.
    + destruct v1 as [|c v1]; [split; reflexivity|].
      simpl in V1 |- *. apply andb_true_iff in V1 as [V1 _]. revert V1.
      destruct c as [[|] [|] [|] [|] [|] [|] [|] [|]];
        try discriminate; split; reflexivity.
    + rewrite Er, contains_app in C. simpl in C.
      rewrite orb_true_r in C. discriminate.
  - eexists.
    rewrite (@number_greedy _ n rest [] _ _ M R eq_refl).
    rewrite consumed_app. reflexivity.
Qed.

Section Run.
Variable St : Type.
Variable repl : str -> St -> str * St.

(** A run of characters at which no token begins is copied. *)
Lemma sub_kept w : forall s st,
  (forall w1 c w2, w = w1 ++ c :: w2 -> token_start (c :: w2 ++ s) = false) ->
  sub token_pattern repl (w ++ s) st =
  let (out, st') := sub token_pattern repl s st in (w ++ out, st').
Proof.
  induction w as [|c w IH]; intros s st K.
  - simpl. destruct (sub token_pattern repl s st). reflexivity.
  - cbn [app]. rewrite sub_keep.
    + rewrite IH.
      * destruct (sub token_pattern repl s st). reflexivity.
      * intros w1 c' w2 E. apply (K (c :: w1)). rewrite E. reflexivity.
    + apply token_none. apply (K [] c w). reflexivity.
Qed.

Lemma sub_nil (r : regex) st : sub r repl [] st = ([], st).
Proof. reflexivity. Qed.

End Run.

(** Two numbers and the text between them. *)
Lemma two_tokens n1 w n2 :
  matches number_pattern n1 -> matches number_pattern n2 ->
  stops (w ++ n2) -> contains "," w = false ->
  (forall w1 c w2, w = w1 ++ c :: w2 -> token_start (c :: w2 ++ n2) = false) ->
  substitute (n1 ++ w ++ n2)
  = (var_name 0 ++ w ++ var_name 1,
     [(var_name 0, n1); (var_name 1, n2)]).
Proof.
  intros M1 M2 R C K.
  assert (C2 : contains "," (w ++ n2) = false)
    by (rewrite contains_app, C, (number_no_comma M2); reflexivity).
  destruct (@token_number n1 (w ++ n2) M1 R C2) as [g1 E1].
  destruct (@token_number n2 [] M2 I eq_refl) as [g2 E2].
  rewrite app_nil_r in E2.
  pose proof (number_nonempty M1) as Ne1.
  pose proof (number_nonempty M2) as Ne2.
  destruct n1 as [|c1 n1]; [congruence|].
  destruct n2 as [|c2 n2]; [congruence|].
  unfold substitute.
  rewrite (@sub_token _ _ replace_token _ _ _ _ _ (0, []) E1).
  unfold replace_token at 1.
  rewrite (@sub_kept _ replace_token w (c2 :: n2) _ K).
  rewrite (@sub_token _ _ replace_token _ _ _ _ _ _ E2).
  unfold replace_token at 1. rewrite sub_nil.
  rewrite app_nil_r. reflexivity.
Qed.

Section Literals.
Context {F : Type} `{Numeric F}.

(** A token that is a number has the value that [float] reads. *)
Lemma token_value_number n v :
  matches number_pattern n -> py_float n = Some v ->
  token_value n = Ok (Scalar v).
Proof.
  intros M E. unfold token_value.
  destruct (fullmatch range_pattern n) as [g|] eqn:Ef; [|rewrite E; reflexivity].
  exfalso. apply fullmatch_sound in Ef.
  apply range_of_matches in Ef as (n1 & w1 & w2 & n2 & -> & _).
  apply number_no_comma in M. rewrite !contains_app in M. simpl in M.
  rewrite !orb_true_r in M. discriminate.
Qed.

Lemma parse_two_numbers n1 w n2 :
  matches number_pattern n1 -> matches number_pattern n2 ->
  stops (w ++ n2) -> contains "," w = false ->
  (forall w1 c w2, w = w1 ++ c :: w2 -> token_start (c :: w2 ++ n2) = false) ->
  exists v1 v2,
    py_float n1 = Some v1 /\ py_float n2 = Some v2 /\
    parse_expression (n1 ++ w ++ n2)
    = Ok (text "var0" ++ w ++ text "var1",
          [(text "var0", Scalar v1); (text "var1", Scalar v2)]).
Proof.
  intros M1 M2 R C K.
  destruct (@py_float_total _ _ _ M1) as [v1 E1].
  destruct (@py_float_total _ _ _ M2) as [v2 E2].
  exists v1, v2. split; [exact E1|]. split; [exact E2|].
  unfold parse_expression. rewrite (two_tokens M1 M2 R C K).
  cbn [build_var_values].
  rewrite (token_value_number M1 E1), (token_value_number M2 E2).
  change (var_name 0) with (text "var0"). change (var_name 1) with (text "var1").
  rewrite !contains_app, C. reflexivity.
Qed.

End Literals.

(** X4. The text between two literals.  When two numbers stand in an
    expression with a text between them that holds no digit and no comma,
    does not begin with a point or a letter [e], and does not end with a
    minus sign, the extraction keeps the text as it is between the two
    placeholders, and the table holds the two numbers as [float] reads
    them. *)
Theorem operator_between_literals :
  forall F (N : Numeric F) (n1 w n2 : str),
    matches number_pattern n1 -> matches number_pattern n2 ->
    forallb (fun c => negb (is_digit c || Ascii.eqb c ",")) w = true ->
    match w with
    | c :: _ => ascii_in (text ".eE") c = false
    | [] => False
    end ->
    last w " "%char <> "-"%char ->
    exists v1 v2,
      py_float n1 = Some v1 /\ py_float n2 = Some v2 /\
      parse_expression (n1 ++ w ++ n2)
      = Ok (text "var0" ++ w ++ text "var1",
            [(text "var0", Scalar v1); (text "var1", Scalar v2)]).
Proof.
  intros F N n1 w n2 M1 M2 W Hd Lst.
  assert (Wc : forall c, In c w ->
                 is_digit c = false /\ Ascii.eqb c "," = false).
  { intros c I. rewrite forallb_forall in W. specialize (W c I).
    apply negb_true_iff, orb_false_iff in W. exact W. }
  apply parse_two_numbers; try assumption.
  - destruct w as [|c w]; [contradiction|]. simpl.
    split; [apply Wc; left; reflexivity | exact Hd].
  - unfold contains. apply not_true_iff_false. intros E.
    apply existsb_exists in E as (c & I & E). apply Ascii.eqb_eq in E as <-.
    destruct (Wc _ I) as [_ X]. discriminate X.
  - intros w1 c w2 E.
    assert (Ic : In c w) by (rewrite E; apply in_elt).
    cbn [token_start]. rewrite (proj1 (Wc c Ic)). cbn [orb].
    destruct (Ascii.eqb c "-") eqn:Ec; [|reflexivity]. cbn [andb].
    apply Ascii.eqb_eq in Ec as ->.
    destruct w2 as [|d w2].
    + exfalso. apply Lst. rewrite E. apply last_last.
    + simpl. apply Wc. rewrite E. apply in_or_app. right. right. left.
      reflexivity.
Qed.

Lemma operator_between_literals_witness :
  exists v1 v2 : Binary64.float,
    py_float (text "1.5") = Some v1 /\ py_float (text "-2e3") = Some v2 /\
    parse_expression (text "1.5" ++ text " * " ++ text "-2e3")
    = Ok (text "var0" ++ text " * " ++ text "var1",
          [(text "var0", Scalar v1); (text "var1", Scalar v2)]).
Proof.
  apply (@operator_between_literals Binary64.float binary64
           (text "1.5") (text " * ") (text "-2e3")).
  - apply (fullmatch_sound number_pattern (text "1.5") (g := [])). reflexivity.
  - apply (fullmatch_sound number_pattern (text "-2e3") (g := [])). reflexivity.
  - reflexivity.
  - reflexivity.
  - discriminate.
Defined.

(** X5. A minus sign directly before a digit is the sign of a literal, also
    behind another literal: in [a-b], with two numbers [a] and [b] and no
    space around the minus sign, the scan takes [a] and then [-b], the
    rewritten expression is [var0var1] without any operator, and the second
    placeholder holds the negative number. *)
Theorem minus_joins_the_literal :
  forall F (N : Numeric F) (n1 n2 : str) d n2',
    matches number_pattern n1 -> matches number_pattern n2 ->
    n2 = d :: n2' -> is_digit d = true ->
    exists v1 v2,
      py_float n1 = Some v1 /\ py_float ("-"%char :: n2) = Some v2 /\
      parse_expression (n1 ++ "-"%char :: n2)
      = Ok (text "var0var1",
            [(text "var0", Scalar v1); (text "var1", Scalar v2)]).
Proof.
  intros F N n1 n2 d n2' M1 M2 E2 Pd.
  assert (Mn : matches number_pattern ("-"%char :: n2)).
  { apply number_shape in M2
      as (sg & d' & ds & frac & ex & E & Hsg & Pd' & Pds & Hfrac & Hex).
    destruct Hsg as [-> | ->].
    - apply number_shape. exists ["-"%char], d', ds, frac, ex.
      rewrite E. repeat split; auto.
    - exfalso. rewrite E2 in E. injection E as -> _. discriminate Pd. }
  destruct (@parse_two_numbers F N n1 [] ("-"%char :: n2) M1 Mn)
    as (v1 & v2 & E1 & Ev & P).
  - split; reflexivity.
  - reflexivity.
  - intros [|? ?] ? ? E; discriminate E.
  - exists v1, v2. split; [exact E1|]. split; [exact Ev|]. exact P.
Qed.

Lemma minus_joins_the_literal_witness :
  exists v1 v2 : Binary64.float,
    py_float (text "5") = Some v1 /\ py_float (text "-3") = Some v2 /\
    parse_expression (text "5-3")
    = Ok (text "var0var1",
          [(text "var0", Scalar v1); (text "var1", Scalar v2)]).
Proof.
  apply (@minus_joins_the_literal Binary64.float binary64
           (text "5") (text "3") "3"%char []).
  - apply (fullmatch_sound number_pattern (text "5") (g := [])). reflexivity.
  - apply (fullmatch_sound number_pattern (text "3") (g := [])). reflexivity.
  - reflexivity.
  - reflexivity.
Defined.

(** ** The sampler, entry by entry *)

Section Entries.
Context {F G : Type} `{Numeric F} `{Sampling F G}.
Local Open Scope py_scope.

Lemma sample_items_app n t1 : forall t2 acc g,
  sample_items (t1 ++ t2) n acc g =
  match sample_items t1 n acc g with
  | (Ok acc', g1) => sample_items t2 n acc' g1
  | (Err e, g1) => (Err e, g1)
  end.
Proof.
  induction t1 as [|[k v] t1 IH]; intros t2 acc g; simpl; [reflexivity|].
  destruct (sample_value k v n g) as [[xs|e] g1]; [apply IH | reflexivity].
Qed.

(** The arrays are appended to those that are there, when the names are
    new. *)
Lemma sample_items_acc n t : forall acc g,
  NoDup (keys acc ++ keys t) ->
  sample_items t n acc g =
  match sample_items t n [] g with
  | (Ok s, g') => (Ok (acc ++ s), g')
  | (Err e, g') => (Err e, g')
  end.
Proof.
  induction t as [|[k v] t IH]; intros acc g Nd; simpl.
  - rewrite app_nil_r. reflexivity.
  - destruct (sample_value k v n g) as [[xs|e] g1]; [|reflexivity].
    assert (Fresh : ~ In k (keys acc)).
    { intros I. simpl in Nd. apply NoDup_remove_2 in Nd. apply Nd.
      apply in_or_app. left. exact I. }
    rewrite (@dict_set_fresh _ k xs acc Fresh).
    rewrite (IH (acc ++ [(k, xs)])).
    + rewrite (IH [(k, xs)]).
      * destruct (sample_items t n [] g1) as [[s|e] g2]; [|reflexivity].
        rewrite <- app_assoc. reflexivity.
      * simpl in Nd |- *. apply NoDup_app_remove_l in Nd. exact Nd.
    + unfold keys. rewrite map_app. simpl. rewrite <- app_assoc. exact Nd.
Qed.

Lemma sample_items_keys n t : forall g s g',
  NoDup (keys t) ->
  sample_items t n [] g = (Ok s, g') -> keys s = keys t.
Proof.
  intros g s g' Nd E.
  apply sample_items_spec in E as (more & -> & All); [|exact Nd].
  simpl. apply (@Forall2_keys _ _ _ _ All).
Qed.

End Entries.

(** X6. The sampler goes through the table in its order, one entry after
    the other, on one random generator.  The result for a table in two
    parts is the result for the first part, followed from the state in
    which the generator then is by the result for the second part; an error
    in the first part ends the run there, and an error in the second part
    comes after the draws of the first part have been made. *)
Theorem sampling_is_sequential :
  forall F G (N : Numeric F) (S : Sampling F G)
         (t1 t2 : dict (value F)) n g,
    NoDup (keys (t1 ++ t2)) ->
    generate_samples (t1 ++ t2) n g =
    match generate_samples t1 n g with
    | (Ok s1, g1) =>
        match generate_samples t2 n g1 with
        | (Ok s2, g2) => (Ok (s1 ++ s2), g2)
        | (Err e, g2) => (Err e, g2)
        end
    | (Err e, g1) => (Err e, g1)
    end.
Proof.
  intros F G N S t1 t2 n g Nd. unfold generate_samples.
  rewrite sample_items_app.
  destruct (sample_items t1 n [] g) as [[s1|e] g1] eqn:E1; [|reflexivity].
  unfold keys in Nd. rewrite map_app in Nd.
  apply sample_items_acc.
  pose proof E1 as K.
  apply sample_items_keys in K; [|exact (NoDup_app_remove_r _ _ Nd)].
  rewrite K. exact Nd.
Qed.

Lemma sampling_is_sequential_witness :
  generate_samples (H0 := ExactLibrary.still)
    ([(text "var0", Range 1%R 10%R)] ++ [(text "var1", Scalar 2%R)]) 2 tt =
  match generate_samples (H0 := ExactLibrary.still)
          [(text "var0", Range 1%R 10%R)] 2 tt with
  | (Ok s1, g1) =>
      match generate_samples (H0 := ExactLibrary.still)
              [(text "var1", Scalar 2%R)] 2 g1 with
      | (Ok s2, g2) => (Ok (s1 ++ s2), g2)
      | (Err e, g2) => (Err e, g2)
      end
  | (Err e, g1) => (Err e, g1)
  end.
Proof.
  apply (@sampling_is_sequential R unit exact ExactLibrary.still).
  repeat constructor; simpl; intuition discriminate.
Defined.

Section Constants.
Context {F G : Type} `{Numeric F} `{Sampling F G}.
Local Open Scope py_scope.

Lemma sample_items_constants n t : forall acc g,
  NoDup (keys acc ++ keys t) ->
  Forall (fun kv => match snd kv with
                    | Scalar _ => True
                    | Range a b => (a == b) = true
                    end) t ->
  sample_items t n acc g =
  (Ok (acc ++ map (fun kv =>
                     (fst kv,
                      repeat (match snd kv with
                              | Scalar x => x
                              | Range a _ => a
                              end) n)) t), g).
Proof.
  induction t as [|[k v] t IH]; intros acc g Nd C; simpl.
  - rewrite app_nil_r. reflexivity.
  - inversion C as [|? ? Cv Ct]; subst. simpl in Cv.
    assert (Fresh : ~ In k (keys acc)).
    { intros I. simpl in Nd. apply NoDup_remove_2 in Nd. apply Nd.
      apply in_or_app. left. exact I. }
    assert (Ev : sample_value k v n g
                 = (Ok (repeat (match v with
                                | Scalar x => x
                                | Range a _ => a
                                end) n), g)).
    { destruct v as [x|a b]; simpl; [reflexivity|]. rewrite Cv. reflexivity. }
    rewrite Ev, (@dict_set_fresh _ k _ acc Fresh), IH.
    + rewrite <- app_assoc. reflexivity.
    + unfold keys. rewrite map_app. simpl. rewrite <- app_assoc. exact Nd.
    + exact Ct.
Qed.

End Constants.

(** X7. Scalars and ranges with two equal bounds need no random draw: for a
    table that holds nothing else, the sampler returns the constant arrays
    of all the placeholders, in the order of the table, and leaves the
    random generator in the state in which it was. *)
Theorem constants_draw_nothing :
  forall F G (N : Numeric F) (S : Sampling F G)
         (var_values : dict (value F)) n g,
    NoDup (keys var_values) ->
    Forall (fun kv => match snd kv with
                      | Scalar _ => True
                      | Range a b => feqb a b = true
                      end) var_values ->
    generate_samples var_values n g =
    (Ok (map (fun kv =>
                (fst kv,
                 repeat (match snd kv with
                         | Scalar x => x
                         | Range a _ => a
                         end) n)) var_values), g).
Proof.
  intros F G N S var_values n g Nd C. unfold generate_samples.
  rewrite sample_items_constants; [reflexivity | exact Nd | exact C].
Qed.

Lemma constants_draw_nothing_witness :
  generate_samples (H0 := ExactLibrary.still)
    [(text "var0", Scalar 2%R); (text "var1", Range 3%R 3%R)] 2 tt
  = (Ok [(text "var0", [2%R; 2%R]); (text "var1", [3%R; 3%R])], tt).
Proof.
  apply (@constants_draw_nothing R unit exact ExactLibrary.still
           [(text "var0", Scalar 2%R); (text "var1", Range 3%R 3%R)] 2 tt).
  - repeat constructor; simpl; intuition discriminate.
  - repeat constructor. simpl. apply eqb_true. reflexivity.
Defined.

(** ** The evaluation *)

Lemma replace_caret_app s t :
  replace_caret (s ++ t) = replace_caret s ++ replace_caret t.
Proof.
  induction s as [|c s IH]; simpl; [reflexivity|].
  destruct (Ascii.eqb c "^"); rewrite IH; reflexivity.
Qed.

Lemma replace_caret_clear s : contains "^" (replace_caret s) = false.
Proof.
  unfold contains. induction s as [|c s IH]; [reflexivity|].
  cbn [replace_caret]. destruct (Ascii.eqb c "^") eqn:E; cbn [existsb].
  - change (Ascii.eqb "^" "*") with false. exact IH.
  - rewrite Ascii.eqb_sym, E. exact IH.
Qed.

(** X8. The caret is the power operator.  No caret reaches [eval]: the
    replacement leaves none, it goes through the expression piece by piece,
    and an expression written with [^] is evaluated exactly as the same
    expression written with [**]. *)
Theorem caret_is_power :
  (forall s, contains "^" (replace_caret s) = false) /\
  (forall s t, replace_caret (s ++ t) = replace_caret s ++ replace_caret t) /\
  (forall F G (N : Numeric F) (E : Evaluation F G)
          (s t : str) (samples : dict (list F)) g,
      evaluate_expression (s ++ text "^" ++ t) samples g
      = evaluate_expression (s ++ text "**" ++ t) samples g).
Proof.
  split; [exact replace_caret_clear|]. split; [exact replace_caret_app|].
  intros F G N E s t samples g. unfold evaluate_expression.
  rewrite !replace_caret_app. reflexivity.
Qed.

Lemma dict_update_fresh V (other : dict V) : forall d,
  NoDup (keys d ++ keys other) -> dict_update d other = d ++ other.
Proof.
  unfold dict_update.
  induction other as [|[k v] other IH]; intros d Nd; simpl.
  - rewrite app_nil_r. reflexivity.
  - assert (Fresh : ~ In k (keys d)).
    { intros I. simpl in Nd. apply NoDup_remove_2 in Nd. apply Nd.
      apply in_or_app. left. exact I. }
    rewrite (@dict_set_fresh _ k v d Fresh), IH.
    + rewrite <- app_assoc. reflexivity.
    + unfold keys. rewrite map_app. simpl. rewrite <- app_assoc. exact Nd.
Qed.

Lemma var_name_not_reserved i :
  var_name i <> text "np" /\ var_name i <> text "__builtins__".
Proof.
  destruct (var_name_digits i) as (ds & -> & _). split; discriminate.
Qed.

(** X9. What [eval] is given in a run.  After a successful extraction and
    a successful sampling, the keys of the samples are the placeholders
    [var0], [var1], ... of the table, and the globals of the evaluation are
    [np], then [__builtins__] bound to the empty dictionary, then each
    placeholder bound to its array, in this order: no placeholder takes the
    place of one of the two fixed names. *)
Theorem evaluation_globals :
  forall F G (N : Numeric F) (S : Sampling F G)
         (expr expression : str) (var_values : dict (value F)) n g
         (samples : dict (list F)) g',
    parse_expression expr = Ok (expression, var_values) ->
    generate_samples var_values n g = (Ok samples, g') ->
    keys samples = map var_name (seq 0 (length var_values)) /\
    allowed_names samples
    = (text "np", NumpyModule) :: (text "__builtins__", EmptyDict)
      :: map (fun kv => (fst kv, NdArray (snd kv))) samples.
Proof.
  intros F G N S expr expression var_values n g samples g' Ep Es.
  pose proof Ep as Nd. apply parse_expression_NoDup in Nd.
  pose proof Ep as T. apply parse_expression_table in T as [K All].
  assert (L : length (snd (substitute expr)) = length var_values)
    by (apply (Forall2_length All)).
  rewrite L in K.
  unfold generate_samples in Es.
  pose proof Es as Ks. apply sample_items_keys in Ks; [|exact Nd].
  rewrite K in Ks. split; [exact Ks|].
  unfold allowed_names. apply dict_update_fresh.
  unfold keys in *. rewrite map_map.
  change (NoDup (text "np" :: text "__builtins__" :: map fst samples)).
  rewrite Ks.
  constructor; [|constructor; [|apply var_names_NoDup]].
  - intros [E | I]; [discriminate E|].
    apply in_map_iff in I as (i & E & _).
    exact (proj1 (var_name_not_reserved i) E).
  - intros I. apply in_map_iff in I as (i & E & _).
    exact (proj2 (var_name_not_reserved i) E).
Qed.

Lemma evaluation_globals_witness :
  let samples : dict (list Binary64.float) :=
    [(text "var0", [of_int 1; of_int 1]); (text "var1", [of_int 2; of_int 2])]
  in
  keys samples = map var_name (seq 0 2) /\
  allowed_names samples
  = (text "np", NumpyModule) :: (text "__builtins__", EmptyDict)
    :: map (fun kv => (fst kv, NdArray (snd kv))) samples.
Proof.
  apply (@evaluation_globals Binary64.float unit binary64
           {| np_log := fun x => x;
              np_random_lognormal := fun _ _ _ g => (None, g);
              truncnorm_rvs := fun _ _ _ _ _ g => (None, g);
              np_add_reduce := fun xs => fold_left fadd xs (of_int 0) |}
           (text "1 + 2") (text "var0 + var1")
           [(text "var0", Scalar (of_int 1)); (text "var1", Scalar (of_int 2))]
           2 tt _ tt).
  - reflexivity.
  - reflexivity.
Defined.

(** ** A range at the start of a text *)

Lemma space_stops c : is_space c = true ->
  is_digit c = false /\ ascii_in (text ".eE") c = false.
Proof.
  destruct c as [[|] [|] [|] [|] [|] [|] [|] [|]];
    try discriminate; split; reflexivity.
Qed.

Lemma range_text n1 w1 w2 n2 rest :
  n1 ++ w1 ++ ","%char :: w2 ++ n2 ++ rest
  = (n1 ++ w1 ++ ","%char :: w2 ++ n2) ++ rest.
Proof. rewrite <- !app_assoc. simpl. rewrite <- !app_assoc. reflexivity. Qed.

(** The matcher on a range that the text behind it cannot continue: the
    two groups are the two numbers. *)
Lemma range_exec A i j n1 w1 w2 n2 rest g
    (k : str -> groups -> option A) x :
  matches number_pattern n1 -> matches number_pattern n2 ->
  forallb is_space w1 = true -> forallb is_space w2 = true ->
  stops rest ->
  k rest ((j, n2) :: (i, n1) :: g) = Some x ->
  exec (range_with i j) (n1 ++ w1 ++ ","%char :: w2 ++ n2 ++ rest) g k
  = Some x.
Proof.
  intros M1 M2 W1 W2 R K. unfold range_with, range_of. cbn [exec].
  apply number_greedy; [exact M1 | |].
  - destruct w1 as [|c w1]; [simpl; split; reflexivity|].
    simpl in W1 |- *. apply andb_true_iff in W1 as [W1 _].
    apply space_stops, W1.
  - rewrite consumed_app.
    apply star_greedy; [exact W1 | reflexivity |].
    unfold Chr. cbn [exec]. rewrite Ascii.eqb_refl.
    apply star_greedy; [exact W2 | |].
    + pose proof (number_nonempty M2) as Ne.
      destruct n2 as [|c n2]; [congruence|]. simpl.
      apply (number_head M2 eq_refl).
    + apply number_greedy; [exact M2 | exact R|].
      rewrite consumed_app. exact K.
Qed.

(** Two numbers with a comma between them, white space around the comma or
    none, and a text behind them that cannot continue the second number:
    the token taken there is the range, to its end. *)
Lemma range_greedy n1 w1 w2 n2 rest :
  matches number_pattern n1 -> matches number_pattern n2 ->
  forallb is_space w1 = true -> forallb is_space w2 = true ->
  stops rest ->
  exists g,
    match_prefix token_pattern (n1 ++ w1 ++ ","%char :: w2 ++ n2 ++ rest)
    = Some (n1 ++ w1 ++ ","%char :: w2 ++ n2, g, rest).
Proof.
  intros M1 M2 W1 W2 R.
  eexists. unfold match_prefix, token_pattern. cbn [exec].
  erewrite range_exec; try eassumption; [|reflexivity].
  rewrite range_text, consumed_app. reflexivity.
Qed.

Section RangeLiteral.
Context {F : Type} `{Numeric F}.
Local Open Scope py_scope.

Lemma range_bounds_literal n1 w1 w2 n2 (a b : F) :
  matches number_pattern n1 -> matches number_pattern n2 ->
  forallb is_space w1 = true -> forallb is_space w2 = true ->
  py_float n1 = Some a -> py_float n2 = Some b ->
  range_bounds (n1 ++ w1 ++ ","%char :: w2 ++ n2) = Some (a, b).
Proof.
  intros M1 M2 W1 W2 Ea Eb. unfold range_bounds, fullmatch, range_pattern.
  rewrite <- (app_nil_r (n1 ++ w1 ++ ","%char :: w2 ++ n2)).
  rewrite <- range_text.
  erewrite range_exec; try eassumption; [|exact I | reflexivity].
  cbn [group Nat.eqb]. rewrite Ea, Eb. reflexivity.
Qed.

Lemma substitute_range n1 w1 w2 n2 :
  matches number_pattern n1 -> matches number_pattern n2 ->
  forallb is_space w1 = true -> forallb is_space w2 = true ->
  substitute (n1 ++ w1 ++ ","%char :: w2 ++ n2)
  = (var_name 0, [(var_name 0, n1 ++ w1 ++ ","%char :: w2 ++ n2)]).
Proof.
  intros M1 M2 W1 W2.
  destruct (@range_greedy n1 w1 w2 n2 [] M1 M2 W1 W2 I) as [g E].
  rewrite range_text, app_nil_r in E.
  pose proof (number_nonempty M1) as Ne.
  remember (n1 ++ w1 ++ ","%char :: w2 ++ n2) as t eqn:Et.
  destruct t as [|c t]; [destruct n1; [congruence | discriminate]|].
  unfold substitute.
  rewrite (@sub_token _ _ replace_token _ _ _ _ _ (0, []) E).
  unfold replace_token at 1. rewrite sub_nil, app_nil_r. reflexivity.
Qed.

Lemma parse_range n1 w1 w2 n2 (a b : F) :
  matches number_pattern n1 -> matches number_pattern n2 ->
  forallb is_space w1 = true -> forallb is_space w2 = true ->
  py_float n1 = Some a -> py_float n2 = Some b ->
  let token := n1 ++ w1 ++ ","%char :: w2 ++ n2 in
  parse_expression token =
  if a > b then Err (RangeOrderError a b token)
  else Ok (text "var0", [(text "var0", Range a b)]).
Proof.
  intros M1 M2 W1 W2 Ea Eb token. subst token. unfold parse_expression.
  rewrite (substitute_range w1 w2 M1 M2 W1 W2).
  cbn [build_var_values].
  rewrite (token_value_range _ (range_bounds_literal w1 w2 M1 M2 W1 W2 Ea Eb)).
  destruct (a > b); reflexivity.
Qed.

End RangeLiteral.

(** X14. A range alone.  For an expression that is one range literal, two
    numbers with a comma between them and white space around the comma or
    none, the extraction reads the two bounds as [float] reads them; it ends
    with the range order error when the lower bound is greater than the
    upper bound, and otherwise returns the one placeholder [var0] with the
    range in the table. *)
Theorem range_literal_alone :
  forall F (N : Numeric F) (n1 w1 w2 n2 : str),
    matches number_pattern n1 -> matches number_pattern n2 ->
    forallb is_space w1 = true -> forallb is_space w2 = true ->
    let token := n1 ++ w1 ++ ","%char :: w2 ++ n2 in
    exists a b : F,
      py_float n1 = Some a /\ py_float n2 = Some b /\
      parse_expression token =
      if fltb b a then Err (RangeOrderError a b token)
      else Ok (text "var0", [(text "var0", Range a b)]).
Proof.
  intros F N n1 w1 w2 n2 M1 M2 W1 W2 token.
  destruct (@py_float_total _ _ _ M1) as [a Ea].
  destruct (@py_float_total _ _ _ M2) as [b Eb].
  exists a, b. split; [exact Ea|]. split; [exact Eb|].
  exact (parse_range w1 w2 M1 M2 W1 W2 Ea Eb).
Qed.

Lemma range_literal_alone_witness :
  exists a b : Binary64.float,
    py_float (text "-1.5") = Some a /\ py_float (text "2e3") = Some b /\
    parse_expression (text "-1.5" ++ text " " ++ ","%char
                      :: text "  " ++ text "2e3") =
    if fltb b a
    then Err (RangeOrderError a b
                (text "-1.5" ++ text " " ++ ","%char :: text "  "
                 ++ text "2e3"))
    else Ok (text "var0", [(text "var0", Range a b)]).
Proof.
  apply (@range_literal_alone Binary64.float binary64
           (text "-1.5") (text " ") (text "  ") (text "2e3")).
  - apply (fullmatch_sound number_pattern (text "-1.5") (g := [])). reflexivity.
  - apply (fullmatch_sound number_pattern (text "2e3") (g := [])). reflexivity.
  - reflexivity.
  - reflexivity.
Defined.

(** ** The printed line *)

Lemma N_to_uint_nonnil n : N.to_uint n <> Decimal.Nil.
Proof.
  rewrite <- (DecimalN.Unsigned.of_to n) at 1.
  rewrite DecimalN.Unsigned.to_of. apply DecimalFacts.unorm_nonnil.
Qed.

Lemma decimal_digits n :
  exists d ds, FixedPoint.decimal n = d :: ds /\
    is_digit d = true /\ forallb is_digit ds = true.
Proof.
  unfold FixedPoint.decimal, NilZero.string_of_uint.
  pose proof (N_to_uint_nonnil n) as Nn.
  pose proof (uint_digits (N.to_uint n)) as D.
  destruct (N.to_uint n) as [|u|u|u|u|u|u|u|u|u|u]; [congruence| ..];
    simpl in D |- *; eexists; eexists; (split; [reflexivity|]);
    (split; [reflexivity | exact D]).
Qed.

Lemma digit_is_digit k : (k < 10)%N -> is_digit (FixedPoint.digit k) = true.
Proof.
  intros L.
  assert (C : In k [0; 1; 2; 3; 4; 5; 6; 7; 8; 9]%N).
  { simpl. lia. }
  simpl in C.
  repeat (destruct C as [<- | C]; [reflexivity|]). contradiction.
Qed.

Lemma fixed2_number s q :
  matches number_pattern (FixedPoint.sign s ++ FixedPoint.fixed2 q).
Proof.
  destruct (decimal_digits (q / 100)) as (d & ds & E & Pd & Pds).
  apply number_shape.
  exists (FixedPoint.sign s), d, ds,
    ("."%char :: FixedPoint.digit (q mod 100 / 10)
     :: [FixedPoint.digit (q mod 10)]), [].
  unfold FixedPoint.fixed2. rewrite E, app_nil_r.
  split; [reflexivity|].
  split; [destruct s; auto|].
  split; [exact Pd|]. split; [exact Pds|].
  split; [|left; reflexivity].
  right. eexists. eexists. split; [reflexivity|].
  assert (L1 : (q mod 100 / 10 < 10)%N).
  { apply N.Div0.div_lt_upper_bound.
    apply (N.mod_upper_bound q 100). discriminate. }
  assert (L2 : (q mod 10 < 10)%N) by (apply N.mod_upper_bound; discriminate).
  split; [apply digit_is_digit, L1|].
  simpl. rewrite (digit_is_digit L2). reflexivity.
Qed.

(** What is printed for a double that is a number is a number literal. *)
Lemma format_number x :
  Binary64.is_finite x = true ->
  matches number_pattern (FixedPoint.format_2f x).
Proof.
  destruct x as [s|s| |s m e]; try discriminate; intros _; simpl.
  - destruct s; apply (fullmatch_sound number_pattern _ (g := []));
      reflexivity.
  - apply fixed2_number.
Qed.

(** X15. The interval that is printed can be read back.  With the option
    [-c] alone the line is the two percentiles with a comma between them;
    when both are numbers (no infinity, no NaN) the line is a range literal
    of the input language: the extraction takes it as one token, reads the
    two bounds, and returns the one placeholder [var0] with that range,
    unless the first bound is read as greater than the second. *)
Theorem printed_interval_is_a_range :
  forall F (N : Numeric F) (st : statistics (F := Binary64.float)),
    Binary64.is_finite (ci_lower st) = true ->
    Binary64.is_finite (ci_upper st) = true ->
    let line :=
      printed_line
        {| args_mean := false; args_std := false; args_ci := true |} st in
    line = format_2f (ci_lower st) ++ text "," ++ format_2f (ci_upper st) /\
    matches range_pattern line /\
    exists a b : F,
      py_float (format_2f (ci_lower st)) = Some a /\
      py_float (format_2f (ci_upper st)) = Some b /\
      parse_expression line =
      if fltb b a then Err (RangeOrderError a b line)
      else Ok (text "var0", [(text "var0", Range a b)]).
Proof.
  intros F N st Fl Fu line.
  pose proof (format_number _ Fl) as M1.
  pose proof (format_number _ Fu) as M2.
  split; [reflexivity|]. split.
  - apply range_of_matches.
    exists (format_2f (ci_lower st)), [], [], (format_2f (ci_upper st)).
    split; [reflexivity|]. repeat split; try assumption; constructor.
  - destruct (@py_float_total _ _ _ M1) as [a Ea].
    destruct (@py_float_total _ _ _ M2) as [b Eb].
    exists a, b. split; [exact Ea|]. split; [exact Eb|].
    exact (@parse_range _ _ _ [] [] _ a b M1 M2 eq_refl eq_refl Ea Eb).
Qed.

Lemma printed_interval_is_a_range_witness :
  let st : statistics (F := Binary64.float) :=
    {| mean := of_int 2; std_dev := of_int 0;
       ci_lower := Binary64.of_decimal true 15%N (-1)%Z;
       ci_upper := of_int 3 |} in
  let line :=
    printed_line
      {| args_mean := false; args_std := false; args_ci := true |} st in
  line = format_2f (ci_lower st) ++ text "," ++ format_2f (ci_upper st) /\
  matches range_pattern line /\
  exists a b : Binary64.float,
    py_float (format_2f (ci_lower st)) = Some a /\
    py_float (format_2f (ci_upper st)) = Some b /\
    parse_expression line =
    if fltb b a then Err (RangeOrderError a b line)
    else Ok (text "var0", [(text "var0", Range a b)]).
Proof.
  intros st.
  apply (@printed_interval_is_a_range Binary64.float binary64 st);
    reflexivity.
Defined.

(** X16. The three options together print the default line.  With [-m],
    [-s] and [-c] all given, the line that is printed is the line that is
    printed when no option is given: the mean, the standard deviation and
    the interval, with one space between them and a comma inside the
    interval. *)
Theorem all_options_print_the_default_line :
  forall F (Fm : Formatting F) (st : statistics (F := F)),
    printed_line {| args_mean := true; args_std := true; args_ci := true |} st
    = printed_line
        {| args_mean := false; args_std := false; args_ci := false |} st /\
    printed_line
      {| args_mean := false; args_std := false; args_ci := false |} st
    = format_2f (mean st) ++ text " " ++ format_2f (std_dev st) ++ text " "
      ++ format_2f (ci_lower st) ++ text "," ++ format_2f (ci_upper st).
Proof. intros F Fm st. split; reflexivity. Qed.

(** ** The digits that are printed, read back *)

Module PrintedDigits.

Local Abbreviation step :=
  (fun (acc : N) (c : ascii) => (10 * acc + digit_value c)%N).

Lemma digits_acc d : forall acc,
  fold_left step (text (NilEmpty.string_of_uint d)) (Npos acc)
  = Npos (Pos.of_uint_acc d acc).
Proof.
  induction d as [|d IH|d IH|d IH|d IH|d IH|d IH|d IH|d IH|d IH|d IH];
    intros acc; [reflexivity| ..]; cbn [NilEmpty.string_of_uint text
      list_ascii_of_string fold_left Pos.of_uint_acc];
    rewrite <- IH; f_equal; vm_compute digit_value; lia.
Qed.

Lemma digits_uint d :
  fold_left step (text (NilEmpty.string_of_uint d)) 0%N = Pos.of_uint d.
Proof.
  induction d as [|d IH|d IH|d IH|d IH|d IH|d IH|d IH|d IH|d IH|d IH];
    [reflexivity | exact IH | ..];
    cbn [NilEmpty.string_of_uint text list_ascii_of_string fold_left
         Pos.of_uint];
    rewrite <- digits_acc; f_equal.
Qed.

(** [int(str(n)) = n] *)
Lemma digits_value_decimal n : digits_value (FixedPoint.decimal n) = n.
Proof.
  unfold digits_value, FixedPoint.decimal, NilZero.string_of_uint.
  pose proof (N_to_uint_nonnil n) as Nn.
  rewrite <- (DecimalN.Unsigned.of_to n) at 2. unfold N.of_uint.
  destruct (N.to_uint n) eqn:E; [congruence| ..]; apply digits_uint.
Qed.

Lemma digit_value_digit k :
  (k < 10)%N -> digit_value (FixedPoint.digit k) = k.
Proof.
  intros L.
  assert (C : In k [0; 1; 2; 3; 4; 5; 6; 7; 8; 9]%N) by (simpl; lia).
  simpl in C.
  repeat (destruct C as [<- | C]; [reflexivity|]). contradiction.
Qed.

Lemma digits_value_fixed2 q ds :
  digits_value ds = (q / 100)%N ->
  digits_value (ds ++ [FixedPoint.digit (q mod 100 / 10);
                       FixedPoint.digit (q mod 10)]) = q.
Proof.
  intros E. unfold digits_value in *. rewrite fold_left_app, E.
  cbn [fold_left].
  assert (L1 : (q mod 100 / 10 < 10)%N).
  { apply N.Div0.div_lt_upper_bound.
    apply (N.mod_upper_bound q 100). discriminate. }
  assert (L2 : (q mod 10 < 10)%N) by (apply N.mod_upper_bound; discriminate).
  rewrite (digit_value_digit L1), (digit_value_digit L2).
  clear. zify. Z.to_euclidean_division_equations. lia.
Qed.

End PrintedDigits.

(** What [float] reads in a printed number: the hundredths that were
    printed. *)
Lemma py_float_fixed F (N : Numeric F) s q :
  py_float (FixedPoint.sign s ++ FixedPoint.fixed2 q)
  = Some (of_decimal s q (-2)%Z).
Proof.
  destruct (decimal_digits (q / 100)) as (d & ds & E & Pd & Pds).
  pose proof (PrintedDigits.digits_value_decimal (q / 100)) as V.
  rewrite E in V.
  assert (L1 : (q mod 100 / 10 < 10)%N).
  { apply N.Div0.div_lt_upper_bound.
    apply (N.mod_upper_bound q 100). discriminate. }
  assert (L2 : (q mod 10 < 10)%N) by (apply N.mod_upper_bound; discriminate).
  pose proof (digit_is_digit L1) as D1. pose proof (digit_is_digit L2) as D2.
  set (d1 := FixedPoint.digit (q mod 100 / 10)) in *.
  set (d2 := FixedPoint.digit (q mod 10)) in *.
  unfold FixedPoint.fixed2. rewrite E. fold d1. fold d2.
  assert (Rs : read_sign (FixedPoint.sign s ++ (d :: ds) ++ "."%char :: [d1; d2])
               = (s, (d :: ds) ++ "."%char :: [d1; d2])).
  { destruct s; [reflexivity|]. apply read_sign_digit, Pd. }
  unfold py_float. rewrite Rs.
  rewrite (@span_prefix is_digit (d :: ds) ("."%char :: [d1; d2]));
    [|simpl; rewrite Pd; exact Pds | reflexivity].
  rewrite Ascii.eqb_refl.
  assert (Sp : span is_digit [d1; d2] = ([d1; d2], []))
    by (simpl; rewrite D1, D2; reflexivity).
  rewrite Sp.
  cbn [read_exponent length]. subst d1 d2.
  rewrite (PrintedDigits.digits_value_fixed2 q (d :: ds) V). reflexivity.
Qed.

(** ** How near the printed number is *)

Module PrintedValue.
Local Open Scope Z_scope.

Lemma hundredths_exact m e :
  0 <= e -> Z.of_N (FixedPoint.hundredths m e) = Zpos m * 2 ^ e * 100.
Proof.
  intros E. unfold FixedPoint.hundredths.
  rewrite (proj2 (Z.leb_le 0 e) E). apply Z2N.id.
  pose proof (Z.pow_pos_nonneg 2 e ltac:(lia) E). nia.
Qed.

Lemma hundredths_near m e :
  e < 0 ->
  2 * Z.abs (Z.of_N (FixedPoint.hundredths m e) * 2 ^ (- e) - Zpos m * 100)
  <= 2 ^ (- e).
Proof.
  intros E. unfold FixedPoint.hundredths.
  rewrite (proj2 (Z.leb_gt 0 e) E).
  assert (D : 0 < 2 ^ (- e)) by (apply Z.pow_pos_nonneg; lia).
  set (d := 2 ^ (- e)) in *. set (n := Zpos m * 100).
  pose proof (Z.div_mod n d ltac:(lia)) as Edm.
  pose proof (Z.mod_pos_bound n d D) as Br.
  assert (Q0 : 0 <= n / d) by (apply Z.div_pos; unfold n; lia).
  set (q := n / d) in *. set (r := n mod d) in *.
  clearbody q r. clearbody d. clearbody n.
  assert (X : q * d - n = - r) by lia.
  assert (Y : (q + 1) * d - n = d - r) by lia.
  assert (Ax : Z.abs (- r) = r) by lia.
  assert (Ay : Z.abs (d - r) = d - r) by lia.
  destruct (2 * r ?= d) eqn:C.
  - apply Z.compare_eq in C.
    destruct (Z.even q); rewrite Z2N.id by lia;
      [rewrite X, Ax | rewrite Y, Ay]; lia.
  - change (2 * r < d) in C. rewrite Z2N.id by lia.
    rewrite X, Ax. lia.
  - change (2 * r > d) in C. rewrite Z2N.id by lia.
    rewrite Y, Ay. lia.
Qed.

End PrintedValue.

Module PrintedReal.
Local Open Scope R_scope.

Lemma powerRZ_two e : (0 <= e)%Z -> powerRZ 2 e = IZR (2 ^ e).
Proof.
  destruct e as [|p|p]; intros E; [reflexivity | | lia].
  symmetry. exact (Zpower_pos_powerRZ 2 p).
Qed.

Lemma near_hundredth (s : bool) m e :
  Rabs ((if s then -1 else 1) * IZR (Z.of_N (FixedPoint.hundredths m e))
        * powerRZ 10 (-2)
        - (if s then -1 else 1) * IZR (Zpos m) * powerRZ 2 e) <= 1 / 200.
Proof.
  set (Q := IZR (Z.of_N (FixedPoint.hundredths m e))).
  set (M := IZR (Zpos m)).
  change (powerRZ 10 (-2)) with (/ (10 * (10 * 1))).
  assert (Sg : forall t, Rabs ((if s then -1 else 1) * t) = Rabs t).
  { intros t. destruct s.
    - replace (-1 * t) with (- t) by ring. apply Rabs_Ropp.
    - rewrite Rmult_1_l. reflexivity. }
  replace ((if s then -1 else 1) * Q * / (10 * (10 * 1))
           - (if s then -1 else 1) * M * powerRZ 2 e)
    with ((if s then -1 else 1) * (Q / 100 - M * powerRZ 2 e))
    by (destruct s; field).
  rewrite Sg.
  destruct (Z_le_gt_dec 0 e) as [E | E].
  - assert (EQ : Q = M * powerRZ 2 e * 100).
    { unfold Q, M. rewrite (PrintedValue.hundredths_exact m E).
      rewrite !mult_IZR, (powerRZ_two E). reflexivity. }
    rewrite EQ.
    replace (M * powerRZ 2 e * 100 / 100 - M * powerRZ 2 e) with 0 by field.
    rewrite Rabs_R0. lra.
  - pose proof (@PrintedValue.hundredths_near m e ltac:(lia)) as Near.
    destruct e as [|p|p]; try lia.
    change (- Z.neg p)%Z with (Z.pos p) in Near.
    change (powerRZ 2 (Z.neg p)) with (/ powerRZ 2 (Z.pos p)).
    rewrite (powerRZ_two (e := Z.pos p)) by lia.
    set (d := (2 ^ Z.pos p)%Z) in *.
    assert (Dp : (0 < d)%Z) by (apply Z.pow_pos_nonneg; lia).
    assert (DR : 0 < IZR d) by (apply IZR_lt; exact Dp).
    set (t := (Z.of_N (FixedPoint.hundredths m (Z.neg p)) * d
               - Z.pos m * 100)%Z) in *.
    assert (T : - IZR d <= 2 * IZR t <= IZR d).
    { assert (Tz : (- d <= 2 * t <= d)%Z) by lia.
      destruct Tz as [T1 T2]. apply IZR_le in T1, T2.
      rewrite opp_IZR in T1. rewrite mult_IZR in T1, T2. lra. }
    assert (Et : IZR t = Q * IZR d - M * 100).
    { unfold t, Q, M. rewrite minus_IZR, !mult_IZR. reflexivity. }
    replace (Q / 100 - M * / IZR d) with (IZR t * / (100 * IZR d))
      by (rewrite Et; field; lra).
    assert (K : 0 < / (100 * IZR d)) by (apply Rinv_0_lt_compat; lra).
    assert (Ek : IZR d * / (100 * IZR d) = 1 / 100) by (field; lra).
    apply Rabs_le.
    assert (U : 2 * IZR t * / (100 * IZR d) <= IZR d * / (100 * IZR d))
      by (apply Rmult_le_compat_r; lra).
    assert (L : - IZR d * / (100 * IZR d) <= 2 * IZR t * / (100 * IZR d))
      by (apply Rmult_le_compat_r; lra).
    split; lra.
Qed.

End PrintedReal.

(** X17. What is printed is near the statistic.  For a double that is a
    number, the text that [.2f] prints is read by [float], in exact
    arithmetic, as a number that differs from the value of the double by
    half a hundredth at most. *)
Theorem printed_number_is_near :
  forall x : Binary64.float,
    Binary64.is_finite x = true ->
    exists r : R,
      py_float (format_2f x) = Some r /\
      (Rabs (r - FixedPoint.value x) <= 1 / 200)%R.
Proof.
  intros x Fx.
  destruct x as [s|s| |s m e]; try discriminate.
  - exists (of_decimal s 0%N (-2)%Z). split.
    + exact (py_float_fixed exact s 0).
    + cbn [of_decimal exact FixedPoint.value]. unfold Exact.of_decimal.
      rewrite Rmult_0_r, Rmult_0_l, Rminus_0_r, Rabs_R0. lra.
  - exists (of_decimal s (FixedPoint.hundredths m e) (-2)%Z). split.
    + exact (py_float_fixed exact s (FixedPoint.hundredths m e)).
    + apply PrintedReal.near_hundredth.
Qed.

Lemma printed_number_is_near_witness :
  exists r : R,
    py_float (format_2f (Binary64.of_decimal false 2675%N (-3)%Z)) = Some r /\
    (Rabs (r - FixedPoint.value (Binary64.of_decimal false 2675%N (-3)%Z))
     <= 1 / 200)%R.
Proof.
  apply (printed_number_is_near (Binary64.of_decimal false 2675%N (-3)%Z)).
  reflexivity.
Defined.

(** ** A range with a value too many *)

Lemma space_no_start c s : is_space c = true -> token_start (c :: s) = false.
Proof.
  destruct c as [[|] [|] [|] [|] [|] [|] [|] [|]];
    try discriminate; reflexivity.
Qed.

Lemma substitute_three n1 w1 w2 n2 w3 w4 n3 :
  matches number_pattern n1 -> matches number_pattern n2 ->
  matches number_pattern n3 ->
  forallb is_space w1 = true -> forallb is_space w2 = true ->
  forallb is_space w3 = true -> forallb is_space w4 = true ->
  substitute ((n1 ++ w1 ++ ","%char :: w2 ++ n2)
              ++ (w3 ++ ","%char :: w4) ++ n3)
  = (var_name 0 ++ (w3 ++ ","%char :: w4) ++ var_name 1,
     [(var_name 0, n1 ++ w1 ++ ","%char :: w2 ++ n2); (var_name 1, n3)]).
Proof.
  intros M1 M2 M3 W1 W2 W3 W4.
  set (w := w3 ++ ","%char :: w4).
  assert (R : match w ++ n3 with
              | [] => True
              | c :: _ => is_digit c = false /\ ascii_in (text ".eE") c = false
              end).
  { subst w. destruct w3 as [|c w3]; [split; reflexivity|].
    simpl in W3 |- *. apply andb_true_iff in W3 as [W3 _].
    apply space_stops, W3. }
  destruct (@range_greedy n1 w1 w2 n2 (w ++ n3) M1 M2 W1 W2 R) as [g1 E1].
  rewrite range_text in E1.
  destruct (@token_number n3 [] M3 I eq_refl) as [g3 E3].
  rewrite app_nil_r in E3.
  pose proof (number_nonempty M1) as Ne1.
  pose proof (number_nonempty M3) as Ne3.
  remember (n1 ++ w1 ++ ","%char :: w2 ++ n2) as t eqn:Et.
  destruct t as [|c t]; [destruct n1; [congruence | discriminate]|].
  destruct n3 as [|c3 n3]; [congruence|].
  unfold substitute.
  rewrite (@sub_token _ _ replace_token _ _ _ _ _ (0, []) E1).
  unfold replace_token at 1.
  rewrite (@sub_kept _ replace_token w (c3 :: n3)).
  - rewrite (@sub_token _ _ replace_token _ _ _ _ _ _ E3).
    unfold replace_token at 1. rewrite sub_nil, app_nil_r. reflexivity.
  - intros v1 x v2 E.
    assert (X : is_space x = true \/ x = ","%char).
    { assert (Ix : In x w) by (rewrite E; apply in_elt).
      subst w. apply in_app_or in Ix as [Ix | [Ix | Ix]].
      - left. rewrite forallb_forall in W3. exact (W3 _ Ix).
      - right. auto.
      - left. rewrite forallb_forall in W4. exact (W4 _ Ix). }
    destruct X as [X | ->]; [apply space_no_start, X | reflexivity].
Qed.

(** X20. A range with three values is refused.  For three numbers with
    commas between them, and white space around the commas or none, the scan
    takes the first two as a range and the third as a number, and the comma
    between them is left in the rewritten expression: the extraction ends
    with the range order error when the first number is greater than the
    second, and with the malformed range error otherwise. *)
Theorem three_values_are_refused :
  forall F (N : Numeric F) (n1 w1 w2 n2 w3 w4 n3 : str),
    matches number_pattern n1 -> matches number_pattern n2 ->
    matches number_pattern n3 ->
    forallb is_space w1 = true -> forallb is_space w2 = true ->
    forallb is_space w3 = true -> forallb is_space w4 = true ->
    let range := n1 ++ w1 ++ ","%char :: w2 ++ n2 in
    exists a b : F,
      py_float n1 = Some a /\ py_float n2 = Some b /\
      parse_expression (range ++ (w3 ++ ","%char :: w4) ++ n3) =
      if fltb b a then Err (RangeOrderError a b range)
      else Err MalformedRangeError.
Proof.
  intros F N n1 w1 w2 n2 w3 w4 n3 M1 M2 M3 W1 W2 W3 W4 range.
  destruct (@py_float_total _ _ _ M1) as [a Ea].
  destruct (@py_float_total _ _ _ M2) as [b Eb].
  destruct (@py_float_total _ _ _ M3) as [c Ec].
  exists a, b. split; [exact Ea|]. split; [exact Eb|].
  subst range. unfold parse_expression.
  rewrite (substitute_three w1 w2 w3 w4 M1 M2 M3 W1 W2 W3 W4).
  cbn [build_var_values].
  rewrite (token_value_range _ (range_bounds_literal w1 w2 M1 M2 W1 W2 Ea Eb)).
  destruct (fltb b a); [reflexivity|].
  cbn [build_var_values]. rewrite (token_value_number M3 Ec).
  rewrite !contains_app. cbn [contains existsb].
  rewrite Ascii.eqb_refl, !orb_true_r. reflexivity.
Qed.

Lemma three_values_are_refused_witness :
  exists a b : Binary64.float,
    py_float (text "3") = Some a /\ py_float (text "4") = Some b /\
    parse_expression ((text "3" ++ [] ++ ","%char :: [] ++ text "4")
                      ++ ([] ++ ","%char :: text " ") ++ text "5") =
    if fltb b a
    then Err (RangeOrderError a b (text "3" ++ [] ++ ","%char :: [] ++ text "4"))
    else Err MalformedRangeError.
Proof.
  apply (@three_values_are_refused Binary64.float binary64
           (text "3") [] [] (text "4") [] (text " ") (text "5"));
    try reflexivity;
    apply (fullmatch_sound number_pattern _ (g := [])); reflexivity.
Defined.

(** ** A run on a number alone *)

Lemma substitute_number n :
  matches number_pattern n ->
  substitute n = (var_name 0, [(var_name 0, n)]).
Proof.
  intros M. destruct (@token_number n [] M I eq_refl) as [g E].
  rewrite app_nil_r in E.
  pose proof (number_nonempty M) as Ne.
  destruct n as [|c n]; [congruence|].
  unfold substitute.
  rewrite (@sub_token _ _ replace_token _ _ _ _ _ (0, []) E).
  unfold replace_token at 1. rewrite sub_nil, app_nil_r. reflexivity.
Qed.

Lemma parse_number F (N : Numeric F) n v :
  matches number_pattern n -> py_float n = Some v ->
  parse_expression n = Ok (text "var0", [(text "var0", Scalar v)]).
Proof.
  intros M E. unfold parse_expression. rewrite (substitute_number M).
  cbn [build_var_values]. rewrite (token_value_number M E). reflexivity.
Qed.

(** The run on a number, up to the reducer: the array of the copies of the
    number, and a generator that is left alone. *)
Lemma run_on_number F G (N : Numeric F) (S : Sampling F G)
    (E : Evaluation F G) (n : str) (v : F) (num_samples : nat) (g : G) :
  resolves_placeholders ->
  matches number_pattern n -> py_float n = Some v ->
  unsafe_main n num_samples g
  = (compute_statistics (np_full num_samples v), g).
Proof.
  intros Res M Ev. unfold unsafe_main. rewrite (parse_number _ M Ev).
  change (generate_samples [(text "var0", Scalar v)] num_samples g)
    with (Ok (F := F) [(text "var0", np_full num_samples v)], g).
  unfold evaluate_expression.
  change (text "var0") with (var_name 0). rewrite var_name_caret.
  rewrite (Res 0%nat _ g (NdArray (np_full num_samples v))); reflexivity.
Qed.

(** X21. One sample of a number.  For an expression that is one number, in
    double precision, with the sample count 1 and an [eval] that resolves
    names, the run returns the number as the mean (a zero without its sign)
    and as both percentiles, and zero as the standard deviation, and draws
    nothing from the random generator, when the number is finite. *)
Theorem one_sample_of_a_number :
  forall G (S : Sampling Binary64.float G) (E : Evaluation Binary64.float G)
         (n : str) (g : G),
    resolves_placeholders ->
    matches number_pattern n ->
    exists x : Binary64.float,
      py_float n = Some x /\
      (Binary64.is_finite x = true ->
       unsafe_main n 1 g
       = (Ok {| mean := Binary64.plus_zero x; std_dev := S754_zero false;
                ci_lower := x; ci_upper := x |}, g)).
Proof.
  intros G S E n g Res M.
  destruct (@py_float_total Binary64.float binary64 _ M) as [x Ex]. exists x.
  split; [exact Ex|]. intros Fx.
  rewrite (run_on_number _ _ 1 g Res M Ex).
  cbn [np_full repeat]. rewrite (statistics_single_finite _ Fx). reflexivity.
Qed.

Lemma one_sample_of_a_number_witness :
  exists x : Binary64.float,
    py_float (text "-2.5e3") = Some x /\
    (Binary64.is_finite x = true ->
     unsafe_main
       (H0 := {| np_log := fun v : Binary64.float => v;
                 np_random_lognormal := fun _ _ _ (g : unit) => (None, g);
                 truncnorm_rvs := fun _ _ _ _ _ g => (None, g);
                 np_add_reduce := fun xs => fold_left fadd xs (of_int 0) |})
       (H1 := lookup_only Binary64.float unit)
       (text "-2.5e3") 1 tt
     = (Ok {| mean := Binary64.plus_zero x; std_dev := S754_zero false;
              ci_lower := x; ci_upper := x |}, tt)).
Proof.
  apply (@one_sample_of_a_number unit _ (lookup_only Binary64.float unit)
           (text "-2.5e3") tt).
  - intros i globals g obj D. simpl. rewrite D. reflexivity.
  - apply (fullmatch_sound number_pattern (text "-2.5e3") (g := [])).
    reflexivity.
Defined.

(** X22. No sample, no statistics.  For an expression that is one number,
    with the sample count 0 and an [eval] that resolves names, the array is
    empty, the percentile of numpy raises its exception, and the run ends
    with this error, in any arithmetic. *)
Theorem no_sample_no_statistics :
  forall F G (N : Numeric F) (S : Sampling F G) (E : Evaluation F G)
         (n : str) (g : G),
    resolves_placeholders ->
    matches number_pattern n ->
    unsafe_main n 0 g = (Err LibraryError, g).
Proof.
  intros F G N S E n g Res M.
  destruct (@py_float_total F N _ M) as [x Ex].
  rewrite (run_on_number _ _ 0 g Res M Ex). reflexivity.
Qed.

Lemma no_sample_no_statistics_witness :
  unsafe_main (H0 := ExactLibrary.still) (H1 := lookup_only R unit)
    (text "7.5") 0 tt
  = (Err LibraryError, tt).
Proof.
  apply (@no_sample_no_statistics R unit exact ExactLibrary.still
           (lookup_only R unit) (text "7.5") tt).
  - intros i globals g obj D. simpl. rewrite D. reflexivity.
  - apply (fullmatch_sound number_pattern (text "7.5") (g := [])). reflexivity.
Defined.
